(** * codecv: commit ingestion and hierarchical aggregation

    A shallow embedding of the commit extractor
    ([src/git_parser/commit_extractor.py]), the three summarizers
    ([src/summarizer/*.py]) and the stage cache ([src/cache/file_cache.py]),
    together with the properties the specification states about them; and
    of the code around them: the inputs of the configuration
    ([src/config/configuration_manager.py],
    [src/datetime/custom_datetime.py]), the technology detector
    ([src/detector/technology_detector.py]) and the request loop of the
    model providers ([src/llm/provider/*.py]), with further properties of
    the code.

    Conventions of the embedding:
    - a Python exception is a value [Raise e] of the type [result];
    - a [dict] whose iteration order matters is an association list in
      insertion order; the files of the stage cache are a [gmap];
    - [datetime.date] is the record [date] with the arithmetic of the
      standard library ([toordinal], [fromordinal], [weekday], [replace],
      [+ timedelta]) including its year range 1..9999; a date that the
      code carries as an ISO string is kept as the date;
    - a [float] is a binary64 float, with [math.floor] and [round] written
      from its exact value; the consolidation is embedded over the
      interface [PyNum] of the operations it uses, of which the floats are
      the instance;
    - a [str] is a [string] whose characters are the code points below 256;
    - what the code asks of the outside (the language model, the parser of
      JSON, the environment, the user, the service of a provider) is a
      variable of the section that embeds the code. *)

From Stdlib Require Import ZArith QArith Lia Lqa List Bool.
From Stdlib Require Import Permutation Sorted.
From Stdlib Require Import String Ascii.
From Stdlib Require Import Floats.
From stdpp Require Import base option list gmap strings pretty.

Local Open Scope Z_scope.

(** ** Exceptions *)

Inductive py_error : Type :=
  | ZeroDivisionError
  | IndexError
  | OverflowError
  | ValueError
  | KeyError
  | CollaboratorError.

Inductive result (A : Type) : Type :=
  | OK (a : A)
  | Raise (e : py_error).

Arguments OK {A} a.
Arguments Raise {A} e.

Definition rbind {A B : Type} (r : result A) (k : A -> result B) : result B :=
  match r with
  | OK a => k a
  | Raise e => Raise e
  end.

Notation "'let!' x ':=' r 'in' k" := (rbind r (fun x => k))
  (at level 10, x name, r at level 100, k at level 200).

(** [for x in xs: acc = body(acc, x)] where the body may raise. *)
Fixpoint rfold {A S : Type} (body : S -> A -> result S) (xs : list A) (s : S)
  : result S :=
  match xs with
  | [] => OK s
  | x :: xs' => let! s' := body s x in rfold body xs' s'
  end.

(** [[f(x) for x in xs]] where [f] may raise. *)
Fixpoint rmap {A B : Type} (f : A -> result B) (xs : list A) : result (list B) :=
  match xs with
  | [] => OK []
  | x :: xs' => let! y := f x in let! ys := rmap f xs' in OK (y :: ys)
  end.

(** ** [datetime.date] *)

Module PyDate.

Record date : Type := mkdate { year : Z; month : Z; day : Z }.

#[export] Instance date_eq_dec : EqDecision date.
Proof. solve_decision. Defined.

Definition MINYEAR : Z := 1.
Definition MAXYEAR : Z := 9999.
(** [date.max.toordinal()] *)
Definition MAXORDINAL : Z := 3652059.

Definition is_leap (y : Z) : bool :=
  (y mod 4 =? 0) && (negb (y mod 100 =? 0) || (y mod 400 =? 0)).

(** [_DAYS_IN_MONTH] *)
Definition DAYS_IN_MONTH (m : Z) : Z :=
  match m with
  | 1 => 31 | 2 => 28 | 3 => 31 | 4 => 30 | 5 => 31 | 6 => 30
  | 7 => 31 | 8 => 31 | 9 => 30 | 10 => 31 | 11 => 30 | 12 => 31
  | _ => 0
  end.

(** [_DAYS_BEFORE_MONTH] *)
Definition DAYS_BEFORE_MONTH (m : Z) : Z :=
  match m with
  | 1 => 0 | 2 => 31 | 3 => 59 | 4 => 90 | 5 => 120 | 6 => 151
  | 7 => 181 | 8 => 212 | 9 => 243 | 10 => 273 | 11 => 304 | 12 => 334
  | _ => 0
  end.

Definition b2z (b : bool) : Z := if b then 1 else 0.

Definition days_in_month_of (leap : bool) (m : Z) : Z :=
  DAYS_IN_MONTH m + b2z ((m =? 2) && leap).

Definition days_before_month_of (leap : bool) (m : Z) : Z :=
  DAYS_BEFORE_MONTH m + b2z ((2 <? m) && leap).

Definition days_in_month (y m : Z) : Z := days_in_month_of (is_leap y) m.
Definition days_before_month (y m : Z) : Z := days_before_month_of (is_leap y) m.

Definition days_before_year (y : Z) : Z :=
  let p := y - 1 in p * 365 + p / 4 - p / 100 + p / 400.

Definition valid_date (d : date) : Prop :=
  MINYEAR <= year d <= MAXYEAR /\ 1 <= month d <= 12 /\
  1 <= day d <= days_in_month (year d) (month d).

Definition valid_dateb (d : date) : bool :=
  (MINYEAR <=? year d) && (year d <=? MAXYEAR) &&
  (1 <=? month d) && (month d <=? 12) &&
  (1 <=? day d) && (day d <=? days_in_month (year d) (month d)).

(** [date.toordinal]: 1 January of year 1 is day 1. *)
Definition toordinal (d : date) : Z :=
  days_before_year (year d) + days_before_month (year d) (month d) + day d.

(** The month and day of the [n]-th day (from 0) of a year, as [_ord2ymd]
    finds them: an estimate of the month that is corrected downwards. *)
Definition month_day (leapyear : bool) (n : Z) : Z * Z :=
  let month := Z.shiftr (n + 50) 5 in
  let preceding := DAYS_BEFORE_MONTH month + b2z ((2 <? month) && leapyear) in
  if n <? preceding then
    let month' := month - 1 in
    let preceding' :=
      preceding - (DAYS_IN_MONTH month' + b2z ((month' =? 2) && leapyear)) in
    (month', n - preceding' + 1)
  else (month, n - preceding + 1).

(** [date.fromordinal] ([_ord2ymd]): 400-, 100-, 4- and 1-year cycles. *)
Definition fromordinal (n0 : Z) : date :=
  let n := n0 - 1 in
  let n400 := n / 146097 in
  let n := n mod 146097 in
  let y := n400 * 400 + 1 in
  let n100 := n / 36524 in
  let n := n mod 36524 in
  let n4 := n / 1461 in
  let n := n mod 1461 in
  let n1 := n / 365 in
  let n := n mod 365 in
  let y := y + n100 * 100 + n4 * 4 + n1 in
  if (n1 =? 4) || (n100 =? 4) then mkdate (y - 1) 12 31
  else
    let leapyear := (n1 =? 3) && (negb (n4 =? 24) || (n100 =? 3)) in
    let '(m, d) := month_day leapyear n in
    mkdate y m d.

(** [d + timedelta(days=k)]: out of the range of [date] it raises. *)
Definition add_days (d : date) (k : Z) : result date :=
  let o := toordinal d + k in
  if (0 <? o) && (o <=? MAXORDINAL) then OK (fromordinal o)
  else Raise OverflowError.

(** [d.weekday()]: Monday is 0, Sunday is 6. *)
Definition weekday (d : date) : Z := (toordinal d + 6) mod 7.

(** [d.replace(day=k)] *)
Definition replace_day (d : date) (k : Z) : result date :=
  let d' := mkdate (year d) (month d) k in
  if valid_dateb d' then OK d' else Raise ValueError.

(** The first day of the following month. *)
Definition next_month_start (y m : Z) : date :=
  if m =? 12 then mkdate (y + 1) 1 1 else mkdate y (m + 1) 1.

(** The check that [month_day] finds the month and the day of the [n]-th day
    of a year. *)
Definition month_day_ok (leap : bool) (n : Z) : bool :=
  let '(m, d) := month_day leap n in
  (1 <=? m) && (m <=? 12) && (1 <=? d) && (d <=? days_in_month_of leap m) &&
  (days_before_month_of leap m + d =? n + 1).

(** The cycle counters that [fromordinal] computes from [n - 1]. *)
Record cycles (N a b c e r4 : Z) : Prop := {
  cy_sum : N = 146097 * a + 36524 * b + 1461 * c + 365 * e + r4;
  cy_b : 0 <= b <= 4;
  cy_c : 0 <= c <= 24;
  cy_e : 0 <= e <= 4;
  cy_r4 : 0 <= r4 < 365;
  cy_b4 : b = 4 -> c = 0 /\ e = 0 /\ r4 = 0;
  cy_e4 : e = 4 -> r4 = 0 /\ c <= 23
}.

End PyDate.

(** ** Numbers

    The operations the consolidation applies to weights.  Python computes
    them on binary64 floats, the instance [Binary64.Float_PyNum] below; the
    code is embedded over the interface, so that a statement proved for
    every [PyNum] holds of the floats whatever the rounding of their
    operations is. *)

Class PyNum (F : Type) : Type := {
  num_zero : F;                 (* [0], the start value of [sum], and [0.0] *)
  num_hundred : F;              (* [100] *)
  num_add : F -> F -> F;
  num_sub : F -> F -> F;
  num_mul : F -> F -> F;
  num_div : F -> F -> F;        (* [/] on a non-zero divisor *)
  num_round2 : F -> F;          (* [round(x, 2)] *)
  num_floor : F -> F;           (* the integer [math.floor(x)] of a finite
                                   [x], as the number it is divided as *)
  num_is_inf : F -> bool;       (* [math.isinf(x)] *)
  num_is_nan : F -> bool;       (* [math.isnan(x)] *)
  num_eqb : F -> F -> bool;     (* [==] *)
  num_ltb : F -> F -> bool      (* [<] *)
}.

(** [a / b]: a zero divisor raises. *)
Definition py_div {F} `{PyNum F} (a b : F) : result F :=
  if num_eqb b num_zero then Raise ZeroDivisionError else OK (num_div a b).

(** [math.floor(x)]: the conversion to an integer raises for an infinity
    and for NaN. *)
Definition py_floor {F} `{PyNum F} (x : F) : result F :=
  if num_is_inf x then Raise OverflowError
  else if num_is_nan x then Raise ValueError
  else OK (num_floor x).

(** [sum(xs)]: left to right, from [0].  (From CPython 3.12 on, [sum]
    carries a correction term for floats; on the lists that are evaluated
    below both sums are the same float.) *)
Definition py_sum {F} `{PyNum F} (xs : list F) : F :=
  fold_left num_add xs num_zero.

(** ** Dictionaries in insertion order *)

Section Dict.
Context {K V : Type} `{EqDecision K}.

Fixpoint dict_get (k : K) (d : list (K * V)) : option V :=
  match d with
  | [] => None
  | (k', v) :: d' => if decide (k = k') then Some v else dict_get k d'
  end.

(** [d[k] = v]: an existing key keeps its position, a new one goes last. *)
Fixpoint dict_set (k : K) (v : V) (d : list (K * V)) : list (K * V) :=
  match d with
  | [] => [(k, v)]
  | (k', v') :: d' =>
      if decide (k = k') then (k, v) :: d' else (k', v') :: dict_set k v d'
  end.

Definition dict_keys (d : list (K * V)) : list K := map fst d.
Definition dict_values (d : list (K * V)) : list V := map snd d.
End Dict.

(** [defaultdict(list)]: [d[k].append(x)]. *)
Definition dict_append {K A : Type} `{EqDecision K}
    (k : K) (x : A) (d : list (K * list A)) : list (K * list A) :=
  match dict_get k d with
  | Some xs => dict_set k (xs ++ [x]) d
  | None => dict_set k [x] d
  end.

(** ** [sorted]

    [list.sort] is stable and compares with [<] only; it is embedded as the
    stable insertion sort.  With [reverse=True] the list is reversed before
    and after the ascending sort, which keeps equal elements in their
    original order. *)

Section Sorted.
Context {A : Type} (lt : A -> A -> bool).

Fixpoint sort_insert (x : A) (l : list A) : list A :=
  match l with
  | [] => [x]
  | y :: l' => if lt y x then y :: sort_insert x l' else x :: l
  end.

Definition py_sorted (l : list A) : list A := fold_right sort_insert [] l.

Definition py_sorted_reverse (l : list A) : list A := rev (py_sorted (rev l)).
End Sorted.

(** [x] is the first of the largest elements of [l]: nothing in [l] is
    above it and everything before it is strictly below. *)
Definition first_largest {A : Type} (lt : A -> A -> bool) (l : list A) (x : A)
  : Prop :=
  exists before after,
    l = before ++ x :: after /\
    (forall y, In y before -> lt y x = true) /\
    (forall y, In y l -> lt x y = false).

(** [lt] is a strict weak order on the values that satisfy [ordered]:
    what a sort by comparisons needs of the values it is given. *)
Record strict_weak_order_on {A : Type} (ordered : A -> Prop)
    (lt : A -> A -> bool) : Prop := {
  swo_irrefl : forall x, ordered x -> lt x x = false;
  swo_trans : forall x y z, ordered x -> ordered y -> ordered z ->
    lt x y = true -> lt y z = true -> lt x z = true;
  swo_negtrans : forall x y z, ordered x -> ordered y -> ordered z ->
    lt x z = true -> lt x y = true \/ lt y z = true
}.

(** The numbers that [<] orders: for the floats all but NaN, which every
    comparison answers with [False]. *)
Class PyNumOrder (F : Type) `{PyNum F} : Type := {
  num_ordered : F -> Prop;
  num_ltb_order : strict_weak_order_on num_ordered num_ltb
}.

(** ** The technology-weight consolidation *)

Module Normalizer.
Section Consolidate.
Context {F : Type} `{PyNum F}.

(** A weight map: technology name to weight, in the order of its keys. *)
Definition WeightMap : Type := list (string * F).

(** [tech_weights[tech] += weight] on a [defaultdict(float)]. *)
Definition add_weight (tw : WeightMap) (item : string * F) : WeightMap :=
  let '(tech, weight) := item in
  match dict_get tech tw with
  | Some w => dict_set tech (num_add w weight) tw
  | None => dict_set tech (num_add num_zero weight) tw
  end.

(** The two nested loops that collect the weights of a group. *)
Definition collect_weights (group : list WeightMap) : WeightMap :=
  fold_left (fun tw technologies => fold_left add_weight technologies tw)
            group [].

(** [{tech: (weight / total) * 100 for tech, weight in tech_weights.items()}] *)
Definition compute_percentages (tw : WeightMap) (total : F) : result WeightMap :=
  rmap (fun '(tech, weight) =>
          let! q := py_div weight total in
          OK (tech, num_mul q num_hundred)) tw.

Definition round_percentages (percentages : WeightMap) : WeightMap :=
  map (fun item => (item.1, num_round2 item.2)) percentages.

(** [percentages[tech] - math.floor(percentages[tech] * 100) / 100] *)
Definition decimal_diff (p : F) : result F :=
  let! floored := py_floor (num_mul p num_hundred) in
  OK (num_sub p (num_div floored num_hundred)).

(** The comprehension [decimal_diffs], over the items of [percentages]. *)
Definition decimal_diffs (percentages : WeightMap) : result WeightMap :=
  rmap (fun item => let! d := decimal_diff item.2 in OK (item.1, d))
       percentages.

(** The fractional remainder as the specification writes it,
    [raw - floor(raw * 100) / 100], for a percentage whose floor is taken
    without an exception. *)
Definition fractional_remainder (p : F) : F :=
  num_sub p (num_div (num_floor (num_mul p num_hundred)) num_hundred).

(** [sorted(decimal_diffs, key=lambda x: decimal_diffs[x], reverse=True)]:
    the keys of the dictionary, each compared by the value it is paired
    with. *)
Definition sorted_techs (dd : WeightMap) : list string :=
  dict_keys (py_sorted_reverse (fun x y => num_ltb (snd x) (snd y)) dd).

(** The adjustment that makes the rounded percentages add up to 100. *)
Definition adjust (percentages rounded : WeightMap) : result WeightMap :=
  let current_sum := py_sum (dict_values rounded) in
  if negb (num_eqb current_sum num_hundred) then
    let diff := num_sub num_hundred current_sum in
    let! dd := decimal_diffs percentages in
    match sorted_techs dd with
    | [] => Raise IndexError
    | t0 :: _ =>
        match dict_get t0 rounded with
        | Some r => OK (dict_set t0 (num_add r diff) rounded)
        | None => Raise KeyError
        end
    end
  else OK rounded.

(** [dict(sorted(rounded_percentages.items()))]: the keys are distinct, so
    the items are ordered by their key. *)
Definition sorted_items (d : WeightMap) : WeightMap :=
  py_sorted (fun x y => String.ltb (fst x) (fst y)) d.

(** [WeeklySummarizer._consolidate_technologies] *)
Definition weekly_consolidate_technologies (group : list WeightMap)
  : result WeightMap :=
  let tech_weights := collect_weights group in
  let total_weight := py_sum (dict_values tech_weights) in
  let! percentages := compute_percentages tech_weights total_weight in
  let rounded_percentages := round_percentages percentages in
  let! adjusted := adjust percentages rounded_percentages in
  OK (sorted_items adjusted).

(** [MonthlySummarizer._consolidate_technologies] *)
Definition monthly_consolidate_technologies (group : list WeightMap)
  : result WeightMap :=
  let technology_totals := collect_weights group in
  let total_monthly_weight := py_sum (dict_values technology_totals) in
  if num_eqb total_monthly_weight num_zero then OK []
  else
    let! percentages :=
      compute_percentages technology_totals total_monthly_weight in
    let rounded_percentages := round_percentages percentages in
    let! adjusted := adjust percentages rounded_percentages in
    OK (sorted_items adjusted).

End Consolidate.
End Normalizer.

(** *** The floats of Python

    A Python [float] is an IEEE 754 binary64 number: the primitive [float],
    whose operations round to nearest, ties to even.  [math.floor] and
    [round] are written from the exact value [m * 2^e] of the float. *)

Module Binary64.

(** The float of an integer below [2^63] in absolute value; it is exact
    for the integers that a float holds. *)
Definition of_Z (n : Z) : float :=
  if n <? 0 then PrimFloat.opp (PrimFloat.of_uint63 (Uint63.of_Z (- n)))
  else PrimFloat.of_uint63 (Uint63.of_Z n).

(** [math.floor(x)] of a finite [x]: the largest integer not above [x],
    which Python returns as an [int].  The integer is one a float holds
    exactly (a float whose exponent is not negative is an integer already,
    the floor of another is below [2^52] in absolute value), and the code
    only divides it by [100], a division that rounds the exact quotient as
    the division of floats does: the integer is kept as its float. *)
Definition floor (x : float) : float :=
  match Prim2SF x with
  | S754_zero _ => 0%float
  | S754_finite s m e =>
      if 0 <=? e then x
      else
        let q := Z.shiftr (Z.pos m) (- e) in
        let exact := Z.pos m =? Z.shiftl q (- e) in
        of_Z (if s then (if exact then - q else - q - 1) else q)
  | _ => x
  end.

(** The integer nearest to [n / d], for [0 < d]; a tie goes to the even
    one. *)
Definition round_half_even (n d : Z) : Z :=
  let q := n / d in
  let r := n mod d in
  match 2 * r ?= d with
  | Lt => q
  | Gt => q + 1
  | Eq => if Z.even q then q else q + 1
  end.

(** [round(x, 2)]: the exact value of [x] is rounded to the nearest decimal
    of two places, a tie going to the even hundredth, and the result is the
    float nearest to that decimal; zeros, infinities, NaN and the floats
    that are integers are returned as they are, and the sign is kept. *)
Definition round2 (x : float) : float :=
  match Prim2SF x with
  | S754_finite s m e =>
      if 0 <=? e then x
      else
        let n := round_half_even (Z.pos m * 100) (Z.shiftl 1 (- e)) in
        match n with
        | Z.pos p =>
            SF2Prim (SFdiv prec emax (S754_finite s p 0)
                                     (S754_finite false 100 0))
        | _ => SF2Prim (S754_zero s)
        end
  | _ => x
  end.

#[export] Instance Float_PyNum : PyNum float := {|
  num_zero := 0%float;
  num_hundred := 100%float;
  num_add := PrimFloat.add;
  num_sub := PrimFloat.sub;
  num_mul := PrimFloat.mul;
  num_div := PrimFloat.div;
  num_round2 := round2;
  num_floor := floor;
  num_is_inf := PrimFloat.is_infinity;
  num_is_nan := PrimFloat.is_nan;
  num_eqb := PrimFloat.eqb;
  num_ltb := PrimFloat.ltb
|}.

(** [abs(sum(values) - 100) <= 1e-9]: the values add up to 100 within the
    tolerance that the specification allows. *)
Definition sums_to_100 (values : list float) : bool :=
  PrimFloat.leb (PrimFloat.abs (PrimFloat.sub (py_sum values) 100%float))
                1e-9%float.

(** The floats that are neither NaN nor an infinity. *)
Definition finite_or_zero (x : spec_float) : Prop :=
  match x with
  | S754_zero _ | S754_finite _ _ _ => True
  | _ => False
  end.

(** A key that orders the floats other than NaN as [<] does: the sign
    first, then the exponent and the mantissa, both reversed below zero. *)
Definition order_key (f : spec_float) : Z * Z * Z :=
  match f with
  | S754_infinity true => (-2, 0, 0)
  | S754_finite true m e => (-1, - e, - Z.pos m)
  | S754_zero _ => (0, 0, 0)
  | S754_finite false m e => (1, e, Z.pos m)
  | S754_infinity false => (2, 0, 0)
  | S754_nan => (3, 0, 0)
  end.

(** The order of the keys: by the first component, then the second, then
    the third. *)
Definition key_lt (j k : Z * Z * Z) : Prop :=
  j.1.1 < k.1.1 \/
  (j.1.1 = k.1.1 /\ (j.1.2 < k.1.2 \/ (j.1.2 = k.1.2 /\ j.2 < k.2))).

End Binary64.

(** ** Strings

    A [str] is a [string] whose characters are the code points below 256,
    U+0000 to U+00FF, one [ascii] for each; the texts with a character
    above U+00FF are outside the embedding.  Case mapping and white space
    are those of Unicode on this range. *)

Module PyStr.

(** The characters that [lower] changes: the letters A to Z and the
    capital letters U+00C0 to U+00DE, which leaves out the multiplication
    sign U+00D7 among them. *)
Definition is_upper (c : ascii) : bool :=
  let n := N_of_ascii c in
  ((65 <=? n)%N && (n <=? 90)%N) ||
  ((192 <=? n)%N && (n <=? 222)%N && negb (n =? 215)%N).

(** The small letter is 32 code points above the capital one. *)
Definition lower_char (c : ascii) : ascii :=
  if is_upper c then ascii_of_N (N_of_ascii c + 32) else c.

(** [s.lower()] *)
Fixpoint lower (s : string) : string :=
  match s with
  | EmptyString => EmptyString
  | String c s' => String (lower_char c) (lower s')
  end.

(** [c.isspace()]: the controls U+0009 to U+000D and U+001C to U+001F, the
    space, the next-line control U+0085 and the no-break space U+00A0. *)
Definition is_space (c : ascii) : bool :=
  let n := N_of_ascii c in
  ((9 <=? n)%N && (n <=? 13)%N) || ((28 <=? n)%N && (n <=? 32)%N) ||
  (n =? 133)%N || (n =? 160)%N.

Fixpoint lstrip (s : string) : string :=
  match s with
  | EmptyString => EmptyString
  | String c s' => if is_space c then lstrip s' else s
  end.

Definition rstrip (s : string) : string := String.rev (lstrip (String.rev s)).

(** [s.strip()] *)
Definition strip (s : string) : string := rstrip (lstrip s).

(** [len(s)]: the number of characters, that is, of code points. *)
Definition len (s : string) : Z := Z.of_nat (String.length s).

(** [needle in hay] *)
Fixpoint contains (needle hay : string) : bool :=
  String.prefix needle hay ||
  match hay with
  | EmptyString => false
  | String _ hay' => contains needle hay'
  end.

(** [sep.join(parts)] *)
Definition join (sep : string) (parts : list string) : string :=
  String.concat sep parts.

(** [re.sub(r"\n+", rep, s)]: every maximal run of line feeds becomes [rep]. *)
Fixpoint sub_newlines (rep : string) (in_run : bool) (s : string) : string :=
  match s with
  | EmptyString => EmptyString
  | String c s' =>
      if Ascii.eqb c "010"%char then
        if in_run then sub_newlines rep true s'
        else (rep ++ sub_newlines rep true s')%string
      else String c (sub_newlines rep false s')
  end.

(** [s.replace(old, new)] for a non-empty [old]: the occurrences are taken
    from the left and do not overlap; [skip] characters of the occurrence
    just replaced are still to be dropped. *)
Fixpoint replace_from (old new : string) (skip : nat) (s : string) : string :=
  match s with
  | EmptyString => EmptyString
  | String c s' =>
      match skip with
      | S k => replace_from old new k s'
      | O =>
          if String.prefix old s
          then (new ++ replace_from old new (String.length old - 1) s')%string
          else String c (replace_from old new O s')
      end
  end.

Definition replace (old new s : string) : string := replace_from old new O s.

End PyStr.

(** ** The commit extractor ([CommitExtractor]) *)

Module Extractor.
Import PyDate.

(** What the extractor reads of a commit of the repository:
    [committed_day] is [datetime.fromtimestamp(commit.committed_date)] with
    the time of day set to zero. *)
Record git_commit : Type := {
  hexsha : string;
  parents : list string;
  committed_day : date;
  author_name : string;
  author_email : string;
  message : string;
  stats_files : list string
}.

(** A branch with its commits as [iter_commits(branch, reverse=True)]
    visits them. *)
Record git_branch : Type := {
  branch_name : string;
  branch_commits : list git_commit
}.

Record git_repo : Type := {
  bare : bool;
  branches : list git_branch
}.

(** The dictionary built for a commit that passes the filters. *)
Record commit : Type := {
  c_hash : string;
  c_author : string;
  c_email : string;
  c_date : date;
  c_message : string;
  c_files : list string
}.

(** Dates of the same kind compare by year, month and day. *)
Definition date_ltb (a b : date) : bool :=
  (year a <? year b) ||
  ((year a =? year b) &&
   ((month a <? month b) || ((month a =? month b) && (day a <? day b)))).

(** [CommitExtractor._is_relevant_commit] *)
Definition is_relevant_commit (commit_message : string)
    (irrelevant_keywords : option (list string)) : bool :=
  let hit :=
    match irrelevant_keywords with
    | Some ((_ :: _) as keywords) =>
        let message_lower := PyStr.lower commit_message in
        existsb (fun keyword => PyStr.contains keyword message_lower) keywords
    | _ => false
    end in
  if hit then false
  else if PyStr.len (PyStr.strip commit_message) <? 10 then false
  else true.

Section Extract.
Variable author_emails : list string.
Variable start_date end_date : option date.
Variable page_size : Z.
Variable ignore_commit_keywords : option (list string).

(** The body of the inner loop up to [batch.append]: [None] stands for
    [continue]. *)
Definition accept (gc : git_commit) : option commit :=
  if (1 <? Z.of_nat (length (parents gc))) then None
  else
    let commit_date := committed_day gc in
    if match start_date with
       | Some sd => date_ltb commit_date sd
       | None => false
       end then None
    else if match end_date with
            | Some ed => date_ltb ed commit_date
            | None => false
            end then None
    else if negb (bool_decide (author_email gc ∈ author_emails)) then None
    else
      let commit_message := PyStr.strip (message gc) in
      if negb (is_relevant_commit commit_message ignore_commit_keywords)
      then None
      else Some {| c_hash := hexsha gc;
                   c_author := author_name gc;
                   c_email := author_email gc;
                   c_date := commit_date;
                   c_message := commit_message;
                   c_files := stats_files gc |}.

(** The state of the generator: the batch being filled and the batches
    yielded so far. *)
Definition gen_state : Type := (list commit * list (list commit))%type.

(** [batch.append(commit_data)], then [yield batch; batch = []] when
    [len(batch) >= page_size]. *)
Definition append_commit (st : gen_state) (c : commit) : gen_state :=
  let '(batch, yielded) := st in
  let batch := batch ++ [c] in
  if page_size <=? Z.of_nat (length batch)
  then ([], yielded ++ [batch])
  else (batch, yielded).

Definition visit_commit (st : gen_state) (gc : git_commit) : gen_state :=
  match accept gc with
  | Some c => append_commit st c
  | None => st
  end.

(** [repo.iter_commits(branch, reverse=True)] *)
Definition iter_commits (repo : git_repo) (branch : string) : list git_commit :=
  match List.filter (fun b => bool_decide (branch_name b = branch))
          (branches repo) with
  | b :: _ => branch_commits b
  | [] => []
  end.

Definition visit_branch (repo : git_repo) (st : gen_state) (branch : string)
  : gen_state :=
  if negb (bool_decide (branch ∈ map branch_name (branches repo))) then st
  else fold_left visit_commit (iter_commits repo branch) st.

(** The branches the generator visits:
    [repo_branches or [branch.name for branch in repo.branches]]. *)
Definition branches_to_iterate (repo : git_repo)
    (repo_branches : option (list string)) : list string :=
  match repo_branches with
  | Some ((_ :: _) as bs) => bs
  | _ => map branch_name (branches repo)
  end.

(** [CommitExtractor.extract_commits_by_author]: the batches in the order
    in which the generator yields them. *)
Definition extract_commits_by_author (repo : git_repo)
    (repo_branches : option (list string)) : result (list (list commit)) :=
  if bare repo || match branches repo with [] => true | _ => false end
  then Raise ValueError
  else
    match branches_to_iterate repo repo_branches with
    | [] => Raise ValueError
    | bs =>
        let '(batch, yielded) := fold_left (visit_branch repo) bs ([], []) in
        match batch with
        | [] => OK yielded
        | _ => OK (yielded ++ [batch])
        end
    end.

(** The commits that pass the filters, in the order of the traversal. *)
Definition surviving (repo : git_repo) (repo_branches : option (list string))
  : list commit :=
  flat_map
    (fun branch =>
       if bool_decide (branch ∈ map branch_name (branches repo))
       then omap accept (iter_commits repo branch) else [])
    (branches_to_iterate repo repo_branches).

(** The batches the generator yields when the commits [cs] are appended
    one after the other, with the final [if batch: yield batch]. *)
Definition batches_of (cs : list commit) : list (list commit) :=
  let '(batch, yielded) := fold_left append_commit cs ([], []) in
  match batch with
  | [] => yielded
  | _ => yielded ++ [batch]
  end.

(** The invariant of the loop for a positive page size: the yielded
    batches are full, the current one is not, and together they hold the
    commits appended so far. *)
Definition batch_inv (cs : list commit) (st : gen_state) : Prop :=
  concat (snd st) ++ fst st = cs /\
  Forall (fun b => Z.of_nat (length b) = page_size) (snd st) /\
  Z.of_nat (length (fst st)) < page_size.

End Extract.

(** The attributes of the [ConfigurationManager] that
    [CVGenerator._extract_commits] asks for; [__init__] sets each of them
    to [None]. *)
Record configuration : Type := {
  cfg_repo_path : option string;
  cfg_repo_branches : option (list string);
  cfg_start_date : option date;
  cfg_end_date : option date;
  cfg_author_email : option (list string);
  cfg_ignore_commit_keywords : option (list string)
}.

(** [ConfigurationManager.get_repo_path]: [None] and the empty path are
    refused. *)
Definition get_repo_path (config : configuration) : result string :=
  match cfg_repo_path config with
  | Some (String c path) => OK (String c path)
  | _ => Raise ValueError
  end.

(** [ConfigurationManager.get_author_email]: [None] and the empty list are
    refused. *)
Definition get_author_email (config : configuration) : result (list string) :=
  match cfg_author_email config with
  | Some ((_ :: _) as emails) => OK emails
  | _ => Raise ValueError
  end.

(** [CVGenerator._extract_commits]: the values of the configuration, the
    default page size, and empty batches dropped; [open_repo] is the
    repository that is found, or cloned, at a path. *)
Definition app_extract_commits (config : configuration)
    (open_repo : string -> git_repo) : result (list (list commit)) :=
  let! repo_path := get_repo_path config in
  let! author_email := get_author_email config in
  let start_date := cfg_start_date config in
  let end_date := cfg_end_date config in
  let repo_branches := cfg_repo_branches config in
  let ignore_commit_keywords := cfg_ignore_commit_keywords config in
  let! batches :=
    extract_commits_by_author author_email start_date end_date 100
      ignore_commit_keywords (open_repo repo_path) repo_branches in
  OK (List.filter (fun batch => negb (bool_decide (batch = []))) batches).

End Extractor.

(** ** Groups

    The summarizers collect their input in a [defaultdict(list)] and emit
    one bucket for each of its entries. *)

(** [sum(item["commit_count"] for item in group)] *)
Definition sum_counts (counts : list Z) : Z := fold_left Z.add counts 0.

Module Groups.
Section Groups.
Context {K A : Type} `{EqDecision K}.

(** The members of all groups, counted with [f]. *)
Definition groups_total (f : A -> Z) (d : list (K * list A)) : Z :=
  sum_counts (map (fun entry => sum_counts (map f entry.2)) d).

(** What a sequence of [d[k].append(x)], each with the key [k] of [x], keeps
    true: the keys are distinct, no group is empty and every member sits
    under its own key. *)
Definition grouped (keyed : A -> K -> Prop) (d : list (K * list A)) : Prop :=
  NoDup (dict_keys d) /\
  forall k g, In (k, g) d -> g <> [] /\ forall x, In x g -> keyed x k.

(** The loop [for x in xs: d[key(x)].append(x)] with a key that may raise. *)
Definition group_by (key : A -> result K) (xs : list A) (d : list (K * list A))
  : result (list (K * list A)) :=
  rfold (fun summaries x =>
           let! k := key x in OK (dict_append k x summaries)) xs d.

End Groups.
End Groups.

(** ** The summarizers *)

Module Summarizer.
Import PyDate Extractor Normalizer Groups.

Section Summarize.
Context {F : Type} `{PyNum F}.

(** The collaborators: the language model behind [self.model] and the
    technology detector.  Each may raise. *)
Variable generate : string -> result string.
Variable estimate_tokens : string -> Z.
Variable detect : list string -> list string -> result (@WeightMap F).

Record daily_summary : Type := {
  d_date : date;
  d_commit_count : Z;
  d_technologies : @WeightMap F;
  d_descriptions : string
}.

Record weekly_summary : Type := {
  w_start_date : date;
  w_end_date : date;
  w_commit_count : Z;
  w_technologies : @WeightMap F;
  w_descriptions : string
}.

(** [m_month] is the label ["%Y-%m"], kept as the year and the month. *)
Record monthly_summary : Type := {
  m_month : Z * Z;
  m_start_date : date;
  m_end_date : date;
  m_commit_count : Z;
  m_descriptions : string;
  m_technologies : @WeightMap F
}.

(** [SummarizerInterface._unify_and_summarize], after
    [_combine_descriptions] has produced [combined_descriptions]. *)
Definition unify_and_summarize (combined_descriptions prompt : string)
    (max_token_threshold : option Z) : result string :=
  let token_estimate := estimate_tokens combined_descriptions in
  if match max_token_threshold with
     | Some t => t <? token_estimate
     | None => false
     end
  then Raise ValueError
  else
    let prompt := PyStr.replace "[MESSAGES]" combined_descriptions prompt in
    let! summary := generate prompt in
    OK (PyStr.strip (PyStr.strip summary)).

(** [DailySummarizer._combine_descriptions] *)
Definition daily_combine_descriptions (commits : list commit) : string :=
  ("```" ++ PyStr.join ". " (map (fun c => PyStr.strip (c_message c)) commits)
    ++ "```")%string.

(** [SummarizerInterface._combine_descriptions] *)
Definition combine_descriptions (descriptions : list string) : string :=
  ("```" ++ PyStr.sub_newlines ". " false (PyStr.join ". " descriptions)
    ++ "```")%string.

(** *** [DailySummarizer.summarize] *)

Definition daily_groups (commits_generator : list (list commit))
  : list (date * list commit) :=
  fold_left
    (fun summaries batch =>
       fold_left (fun summaries c => dict_append (c_date c) c summaries)
                 batch summaries)
    commits_generator [].

Definition daily_bucket (PROMPT : string) (project_context : list string)
    (entry : date * list commit) : result daily_summary :=
  let '(commit_date, group) := entry in
  let files := flat_map c_files group in
  let! technologies := detect files project_context in
  let! summary :=
    unify_and_summarize (daily_combine_descriptions group) PROMPT None in
  OK {| d_date := commit_date;
        d_commit_count := Z.of_nat (length group);
        d_technologies := technologies;
        d_descriptions := summary |}.

Definition daily_summarize (PROMPT : string)
    (commits_generator : list (list commit)) (project_context : list string)
  : result (list daily_summary) :=
  rmap (daily_bucket PROMPT project_context) (daily_groups commits_generator).

(** *** [WeeklySummarizer.summarize] *)

(** [commit_date - timedelta(days=commit_date.weekday())] *)
Definition week_start_of (commit_date : date) : result date :=
  add_days commit_date (- weekday commit_date).

(** The first loop: [summaries[week_start].append(commit)]. *)
Definition weekly_groups (data : list daily_summary)
  : result (list (date * list daily_summary)) :=
  group_by (fun item => week_start_of (d_date item)) data [].

Definition weekly_bucket (PROMPT : string)
    (entry : date * list daily_summary) : result weekly_summary :=
  let '(week_start, group) := entry in
  let! technologies :=
    weekly_consolidate_technologies (map d_technologies group) in
  let! week_end := add_days week_start 6 in
  let! summary :=
    unify_and_summarize (combine_descriptions (map d_descriptions group))
                        PROMPT None in
  let total_commits := sum_counts (map d_commit_count group) in
  OK {| w_start_date := week_start;
        w_end_date := week_end;
        w_commit_count := total_commits;
        w_technologies := technologies;
        w_descriptions := summary |}.

Definition weekly_summarize (PROMPT : string) (data : list daily_summary)
  : result (list weekly_summary) :=
  let! summaries := weekly_groups data in
  rmap (weekly_bucket PROMPT) summaries.

(** *** [MonthlySummarizer.summarize] *)

(** [MonthlySummarizer._last_day_of_month] *)
Definition last_day_of_month (d : date) : result date :=
  let! d28 := replace_day d 28 in
  let! d32 := add_days d28 4 in
  let! next_month := replace_day d32 1 in
  add_days next_month (-1).

(** The first loop: [summaries[month_key].append(item)]. *)
Definition monthly_groups (data : list weekly_summary)
  : result (list (date * list weekly_summary)) :=
  group_by (fun item => replace_day (w_start_date item) 1) data [].

Definition monthly_bucket (PROMPT : string)
    (entry : date * list weekly_summary) : result monthly_summary :=
  let '(month_start, group) := entry in
  let! technologies :=
    monthly_consolidate_technologies (map w_technologies group) in
  let! month_end := last_day_of_month month_start in
  let total_commits := sum_counts (map w_commit_count group) in
  let! summary :=
    unify_and_summarize (combine_descriptions (map w_descriptions group))
                        PROMPT None in
  OK {| m_month := (year month_start, month month_start);
        m_start_date := month_start;
        m_end_date := month_end;
        m_commit_count := total_commits;
        m_descriptions := summary;
        m_technologies := technologies |}.

Definition monthly_summarize (PROMPT : string) (data : list weekly_summary)
  : result (list monthly_summary) :=
  let! summaries := monthly_groups data in
  rmap (monthly_bucket PROMPT) summaries.

End Summarize.

Arguments d_date {F}. Arguments d_commit_count {F}.
Arguments d_technologies {F}. Arguments d_descriptions {F}.
Arguments w_start_date {F}. Arguments w_end_date {F}.
Arguments w_commit_count {F}. Arguments w_technologies {F}.
Arguments w_descriptions {F}.
Arguments m_month {F}. Arguments m_start_date {F}. Arguments m_end_date {F}.
Arguments m_commit_count {F}. Arguments m_descriptions {F}.
Arguments m_technologies {F}.

End Summarizer.

(** ** The stage cache ([FileCache]) *)

Module FileCache.

(** [json.dumps] and [json.load] for the results of a stage. *)
Class Json (R : Type) : Type := {
  dumps : R -> result string;
  loads : string -> result R
}.

(** The part of the file system the cache touches. *)
Record file_system : Type := {
  dirs : gset string;
  files : gmap string string
}.

Section ProcessAndSave.
Context {R : Type} `{Json R}.
(** The state that running a stage may change, apart from the files. *)
Context {W : Type}.
(** [base_path.parent] *)
Variable parent : string -> string.

(** A directory and, above it, its parent, the parent of its parent and so
    on, [n] of them. *)
Fixpoint ancestors (n : nat) (path : string) : list string :=
  match n with
  | O => []
  | S n' => path :: ancestors n' (parent path)
  end.

(** [path.mkdir(parents=True, exist_ok=True)]: the directory is made with
    every ancestor that is missing, up to the root, which is its own
    parent; a path has no more ancestors than it has characters. *)
Definition mkdir_parents (path : string) (fs : file_system) : file_system :=
  {| dirs := list_to_set (ancestors (S (String.length path)) path) ∪ dirs fs;
     files := files fs |}.

(** [FileCache.process_and_save]; [process_method] is
    [getattr(object_instance, process_function)] applied to
    [process_args]. *)
Definition process_and_save (process_method : W -> result R * W)
    (file_path : string) (st : file_system * W)
  : result R * (file_system * W) :=
  let '(fs, w) := st in
  let base_path := file_path in
  let fs :=
    if bool_decide (parent base_path ∈ dirs fs) then fs
    else mkdir_parents (parent base_path) fs in
  match files fs !! base_path with
  | Some text => (loads text, (fs, w))
  | None =>
      let '(r, w) := process_method w in
      match r with
      | Raise e => (Raise e, (fs, w))
      | OK result =>
          match dumps result with
          | Raise e => (Raise e, (fs, w))
          | OK text =>
              (OK result,
               ({| dirs := dirs fs; files := <[base_path := text]> (files fs) |},
                w))
          end
      end
  end.

End ProcessAndSave.

(** [CVGenerator._summarize]: the three stages, each behind the cache. *)
Section Pipeline.
Context {D Wk M : Type} `{Json D} `{Json Wk} `{Json M} {W : Type}.
Variable parent : string -> string.
Variable daily_stage : W -> result D * W.
Variable weekly_stage : D -> W -> result Wk * W.
Variable monthly_stage : Wk -> W -> result M * W.

Definition summarize_stages (hash : string) (st : file_system * W)
  : result M * (file_system * W) :=
  let '(r, st) :=
    process_and_save parent daily_stage
      ("data/daily-summaries-" ++ hash ++ ".json")%string st in
  match r with
  | Raise e => (Raise e, st)
  | OK daily_summaries =>
      let '(r, st) :=
        process_and_save parent (weekly_stage daily_summaries)
          ("data/weekly-summaries-" ++ hash ++ ".json")%string st in
      match r with
      | Raise e => (Raise e, st)
      | OK weekly_summaries =>
          process_and_save parent (monthly_stage weekly_summaries)
            ("data/monthly-summaries-" ++ hash ++ ".json")%string st
      end
  end.
End Pipeline.

End FileCache.

(** ** Sample data *)

Module Samples.
Import PyDate Extractor Binary64.
Local Open Scope string_scope.

Definition dev_email : string := "dev@example.org".

Definition sample_git_commit (sha msg : string) (d : date) : git_commit :=
  {| hexsha := sha; parents := ["p"]; committed_day := d;
     author_name := "Dev"; author_email := dev_email;
     message := msg; stats_files := ["src/resolver.py"] |}.

(** A repository with a single branch of [n] identical qualifying commits. *)
Definition linear_repo (n : nat) : git_repo :=
  {| bare := false;
     branches :=
       [ {| branch_name := "main";
            branch_commits :=
              repeat (sample_git_commit "c0ffee"
                        "Implement caching layer for resolver"
                        (mkdate 2024 3 4)) n |} ] |}.

(** A repository with one qualifying commit on each of two branches. *)
Definition two_branch_repo : git_repo :=
  {| bare := false;
     branches :=
       [ {| branch_name := "main";
            branch_commits :=
              [sample_git_commit "a1" "Implement caching layer for resolver"
                 (mkdate 2024 3 3)] |};
         {| branch_name := "dev";
            branch_commits :=
              [sample_git_commit "b2" "Add retry policy to the fetcher"
                 (mkdate 2024 3 4)] |} ] |}.

Definition sample_commit (sha msg : string) (d : date) : commit :=
  {| c_hash := sha; c_author := "Dev"; c_email := dev_email; c_date := d;
     c_message := msg; c_files := ["src/resolver.py"] |}.

(** Two batches: a Sunday, the Monday after it (twice) and the last day of
    the February before. *)
Definition sample_batches : list (list commit) :=
  [ [ sample_commit "a1" "Implement caching layer for resolver" (mkdate 2024 3 3);
      sample_commit "b2" "Add retry policy to the fetcher" (mkdate 2024 3 4) ];
    [ sample_commit "c3" "Document the batch size option" (mkdate 2024 3 4);
      sample_commit "d4" "Cover the leap day in the tests" (mkdate 2024 2 29) ] ].

Definition sample_generate (prompt : string) : result string :=
  OK " Work on the resolver. ".

Definition sample_estimate_tokens (text : string) : Z := PyStr.len text.

Definition sample_detect (files project_context : list string)
  : result (@Normalizer.WeightMap float) :=
  OK [("Python", 70%float); ("YAML", 30%float)].

Definition sample_dailies : list (@Summarizer.daily_summary float) :=
  Eval vm_compute in
    match Summarizer.daily_summarize sample_generate sample_estimate_tokens
            sample_detect "[MESSAGES]" sample_batches [] with
    | OK ds => ds
    | Raise _ => []
    end.

Definition sample_weeklies : list (@Summarizer.weekly_summary float) :=
  Eval vm_compute in
    match Summarizer.weekly_summarize sample_generate sample_estimate_tokens
            "[MESSAGES]" sample_dailies with
    | OK ws => ws
    | Raise _ => []
    end.

Definition sample_monthlies : list (@Summarizer.monthly_summary float) :=
  Eval vm_compute in
    match Summarizer.monthly_summarize sample_generate sample_estimate_tokens
            "[MESSAGES]" sample_weeklies with
    | OK ms => ms
    | Raise _ => []
    end.

End Samples.

(** ** What the grouping loops compute *)

Module Buckets.

#[export] Instance py_error_eq_dec : EqDecision py_error.
Proof. solve_decision. Defined.

#[export] Instance result_eq_dec {A : Type} `{EqDecision A} :
  EqDecision (result A).
Proof. solve_decision. Defined.

Section Buckets.
Context {K A : Type} `{EqDecision K}.

(** The distinct elements of a list, in the order in which each occurs
    first. *)
Fixpoint first_seen (ks : list K) : list K :=
  match ks with
  | [] => []
  | k :: ks' =>
      k :: List.filter (fun k' => negb (bool_decide (k' = k))) (first_seen ks')
  end.

(** The elements whose key is [k], in their order. *)
Definition members (key : A -> result K) (k : K) (xs : list A) : list A :=
  List.filter (fun x => bool_decide (key x = OK k)) xs.

(** The keys of the elements that have one. *)
Definition ok_keys (key : A -> result K) (xs : list A) : list K :=
  omap (fun x => match key x with OK k => Some k | Raise _ => None end) xs.

(** The dictionary that holds, for each key in the order of its first
    occurrence, the elements of [xs] with that key. *)
Definition grouping (key : A -> result K) (xs : list A) : list (K * list A) :=
  map (fun k => (k, members key k xs)) (first_seen (ok_keys key xs)).

End Buckets.
End Buckets.

(** ** More of [str] and of [os.path] *)

Module PyText.
Local Open Scope string_scope.

(** The truth value of a string: it is not empty. *)
Definition truthy (s : string) : bool :=
  match s with
  | "" => false
  | String _ _ => true
  end.

(** [s.split(sep)] for a separator of one character: there is always a
    first part. *)
Fixpoint split (sep : ascii) (s : string) : list string :=
  match s with
  | "" => [""]
  | String c s' =>
      if Ascii.eqb c sep then "" :: split sep s'
      else
        match split sep s' with
        | part :: parts => String c part :: parts
        | [] => [String c ""]
        end
  end.

(** Leading characters are dropped as long as [drops] holds of them. *)
Fixpoint lstrip_where (drops : ascii -> bool) (s : string) : string :=
  match s with
  | "" => ""
  | String c s' => if drops c then lstrip_where drops s' else s
  end.

Definition rstrip_where (drops : ascii -> bool) (s : string) : string :=
  String.rev (lstrip_where drops (String.rev s)).

(** [c in chars] *)
Definition in_chars (chars : string) (c : ascii) : bool :=
  existsb (Ascii.eqb c) (list_ascii_of_string chars).

(** [s.rstrip(chars)] and [s.strip(chars)]: [chars] is a set of characters,
    not a prefix or a suffix. *)
Definition rstrip_chars (chars s : string) : string :=
  rstrip_where (in_chars chars) s.

Definition strip_chars (chars s : string) : string :=
  rstrip_where (in_chars chars) (lstrip_where (in_chars chars) s).

(** [s.endswith(suffix)] *)
Definition endswith (s suffix : string) : bool :=
  String.prefix (String.rev suffix) (String.rev s).

(** [s.rfind(c)] for one character: the highest index of [c], or [-1]. *)
Fixpoint rfind_from (c : ascii) (s : string) (i found : Z) : Z :=
  match s with
  | "" => found
  | String a s' =>
      rfind_from c s' (i + 1)%Z (if Ascii.eqb a c then i else found)
  end.

Definition rfind (c : ascii) (s : string) : Z := rfind_from c s 0%Z (-1)%Z.

(** [s[:n]] and [s[n:]] for an index that is not negative. *)
Fixpoint take (n : nat) (s : string) : string :=
  match n, s with
  | O, _ => ""
  | S _, "" => ""
  | S n', String c s' => String c (take n' s')
  end.

Fixpoint drop (n : nat) (s : string) : string :=
  match n, s with
  | O, _ => s
  | S _, "" => ""
  | S n', String _ s' => drop n' s'
  end.

(** [genericpath._splitext] with the separators of [posixpath]: the loop
    that looks for a character other than a dot between the last slash and
    the last dot; [todo] is [dotIndex - filenameIndex]. *)
Fixpoint skip_leading_dots (p : string) (dotIndex : Z) (todo : nat)
    (filenameIndex : Z) : string * string :=
  match todo with
  | O => (p, "")
  | S todo' =>
      if negb (bool_decide
                 (String.get (Z.to_nat filenameIndex) p = Some "."%char))
      then (take (Z.to_nat dotIndex) p, drop (Z.to_nat dotIndex) p)
      else skip_leading_dots p dotIndex todo' (filenameIndex + 1)%Z
  end.

(** [os.path.splitext(p)] *)
Definition splitext (p : string) : string * string :=
  let sepIndex := rfind "/" p in
  let dotIndex := rfind "." p in
  if (sepIndex <? dotIndex)%Z then
    let filenameIndex := (sepIndex + 1)%Z in
    skip_leading_dots p dotIndex (Z.to_nat (dotIndex - filenameIndex))
      filenameIndex
  else (p, "").

End PyText.

(** ** The configuration ([ConfigurationManager], [CustomDatetime]) *)

Module Config.
Import PyDate.

Section Input.
(** [os.getenv], and what the user types when asked. *)
Variable getenv : string -> option string.
Variable prompt : string -> string.
(** [datetime.strptime(date, "%Y-%m-%d")]; [None] when it raises
    [ValueError]. *)
Variable strptime : string -> option date.

(** [ConfigurationManager._input] *)
Definition input (env_key label : string) : string :=
  let from_env := PyStr.strip (default ""%string (getenv env_key)) in
  if PyText.truthy from_env then from_env
  else PyStr.strip (prompt (label ++ ": ")%string).

(** [ConfigurationManager._input_list] *)
Definition input_list (env_key label : string) : list string :=
  let user_input := input env_key label in
  map PyStr.strip
    (List.filter (fun part => PyText.truthy (PyStr.strip part))
       (PyText.split ","%char user_input)).

(** [CustomDatetime._validate_input_date] *)
Definition validate_input_date (date : string) : result (option PyDate.date) :=
  if negb (PyText.truthy date) then OK None
  else
    match strptime date with
    | Some d => OK (Some d)
    | None => Raise ValueError
    end.

(** [CustomDatetime.process_input_dates] *)
Definition process_input_dates (start_date end_date : string)
  : result (option PyDate.date * option PyDate.date) :=
  let! start_date_obj :=
    if PyText.truthy start_date then validate_input_date start_date
    else OK None in
  let! end_date_obj :=
    if PyText.truthy end_date then validate_input_date end_date
    else OK None in
  match start_date_obj, end_date_obj with
  | Some s, Some e =>
      if Extractor.date_ltb e s then Raise ValueError
      else OK (start_date_obj, end_date_obj)
  | _, _ => OK (start_date_obj, end_date_obj)
  end.

(** The part of [ConfigurationManager.collect_inputs] that sets
    [self.start_date] and [self.end_date], which are [None] before. *)
Definition collect_dates : result (option PyDate.date * option PyDate.date) :=
  let start_date :=
    input "START_DATE"
      "Start Date (YYYY-MM-DD). Leave empty to avoid filtering by date" in
  let end_date :=
    input "END_DATE"
      "End Date (YYYY-MM-DD). Leave empty to avoid filtering by date" in
  if PyText.truthy start_date && PyText.truthy end_date
  then process_input_dates start_date end_date
  else OK (None, None).

End Input.
End Config.

(** ** The technology detector ([TechnologyDetector]) *)

Module Detector.
Local Open Scope string_scope.

(** [TechnologyDetector._get_unique_file_extensions]; the counts are in a
    [defaultdict(int)]. *)
Definition count_extension (extension_count : list (string * Z))
    (file : string) : list (string * Z) :=
  let ext := (PyText.splitext file).2 in
  if PyText.truthy ext
  then dict_set ext (default 0 (dict_get ext extension_count) + 1)%Z
         extension_count
  else extension_count.

Definition get_unique_file_extensions (files : list string)
  : list (string * Z) :=
  fold_left count_extension files [].

(** What [detect] and [CVGenerator._llm_processing] do to an answer before
    they parse it: [response.strip("```json").strip("```").strip()]. *)
Definition clean_response (response : string) : string :=
  PyStr.strip (PyText.strip_chars "```" (PyText.strip_chars "```json" response)).

(** The repair that [detect] tries on an answer that does not parse: the
    commas at the end are dropped and a closing brace is added unless there
    is one. *)
Definition repair_response (response : string) : string :=
  let response :=
    if PyText.endswith (PyStr.strip response) ","
    then PyText.rstrip_chars "," (PyStr.strip response)
    else response in
  if negb (PyText.endswith (PyStr.strip response) "}")
  then response ++ "}"
  else response.

(** The sentence about the project in the prompt of [detect]. *)
Definition main_technologies (project_context : list string) : string :=
  match project_context with
  | [] => "Not defined"
  | _ =>
      "The project is primarily based on the following technologies: "
      ++ PyStr.join ", " project_context ++ "."
  end.

Section Detect.
(** What [json.loads] returns; [None] stands for [json.JSONDecodeError]. *)
Context {J : Type}.
Variable generate : string -> result string.
Variable json_loads : string -> option J.
Variable empty_object : J.
(** The text of the prompt of [detect], with its two placeholders, and the
    two prompts of [get_project_context]. *)
Variable PROMPT : string.
Variable readme_prompt : string -> string -> string.
Variable structure_prompt : string -> string.

(** [TechnologyDetector.get_project_context]; [readme_files] holds the
    contents of the files, in the order of the dictionary. *)
Definition get_project_context (readme_files : list (string * string))
    (project_structure : string) : result (list string) :=
  let combined_readme_content :=
    PyStr.join (String "010" ("---" ++ String "010" ""))
      (dict_values readme_files) in
  let prompt :=
    if PyText.truthy (PyStr.strip combined_readme_content)
    then readme_prompt combined_readme_content project_structure
    else structure_prompt project_structure in
  let! response := generate prompt in
  OK (map PyStr.strip (PyText.split ","%char response)).

Definition detect_prompt (files : list string) (project_context : list string)
  : string :=
  let unique_extensions := get_unique_file_extensions files in
  let formatted_extensions :=
    PyStr.join (String "010" "")
      (map (fun item => item.1 ++ ": " ++ pretty item.2) unique_extensions) in
  PyStr.replace "[unique_extensions]" formatted_extensions
    (PyStr.replace "[main_technologies]" (main_technologies project_context)
       PROMPT).

(** [TechnologyDetector.detect] *)
Definition detect (files : list string) (project_context : list string)
  : result J :=
  let! response := generate (detect_prompt files project_context) in
  let cleaned_response := clean_response response in
  match json_loads (PyStr.strip cleaned_response) with
  | Some technologies => OK technologies
  | None =>
      match json_loads (repair_response response) with
      | Some technologies => OK technologies
      | None => OK empty_object
      end
  end.

End Detect.
End Detector.

(** ** The model providers ([Openai], [Googlegenai], [Ollama])

    The three providers have the same text of [generate]: a look-up in the
    cache, then up to [max_retries] requests, with a pause after each
    request that the service refuses for its rate limit.  The handler of a
    refused request calls [logging.warning] and [time.sleep];
    [openai.py] and [googlegenai.py] import both modules, [ollama.py]
    imports neither, and there the handler raises [NameError] at its first
    call, which nothing catches. *)

Module Provider.

(** What a request to the service comes to: a response, the error that is
    retried ([openai.RateLimitError], [exceptions.ResourceExhausted],
    [ollama.ResponseError] or [RequestException]), or any other exception. *)
Inductive api_outcome : Type :=
  | Completed (response : string)
  | RateLimited
  | Failed (reason : string).

(** The three classes. *)
Inductive provider : Type :=
  | Openai
  | Googlegenai
  | Ollama.

(** Whether the module of the provider imports [logging] and [time]. *)
Definition imports_logging (who : provider) : bool :=
  match who with
  | Openai | Googlegenai => true
  | Ollama => false
  end.

(** The exceptions that leave [generate]: the two it raises, and the
    [NameError] of a name that is not defined. *)
Inductive generate_error : Type :=
  | UnexpectedError (reason : string)
  | RetriesExhausted
  | NameError (name : string).

Section Generate.
(** The cache manager and its two methods. *)
Context {C : Type}.
(** The class whose [generate] is called. *)
Variable who : provider.
Variable cache_get : C -> string -> option string.
Variable cache_set : C -> string -> string -> C.
(** The outcome of the [n]-th request sent to the service, for its prompt. *)
Variable create : nat -> string -> api_outcome.

(** The cache, the number of requests sent so far, and the pauses made so
    far, in seconds. *)
Record state : Type := {
  cache : C;
  requests : nat;
  sleeps : list Q
}.

Definition max_retries : nat := 15.

(** The [while retry_count < max_retries] loop; [remaining] is
    [max_retries - retry_count]. *)
Fixpoint retry_loop (remaining : nat) (initial_delay : Q) (prompt : string)
    (use_cache : bool) (st : state) : (string + generate_error) * state :=
  match remaining with
  | O => (inr RetriesExhausted, st)
  | S remaining' =>
      let outcome := create (requests st) prompt in
      let st := {| cache := cache st; requests := S (requests st);
                   sleeps := sleeps st |} in
      match outcome with
      | Completed response =>
          let st :=
            if use_cache
            then {| cache := cache_set (cache st) prompt response;
                    requests := requests st; sleeps := sleeps st |}
            else st in
          (inl response, st)
      | RateLimited =>
          (* [retry_count += 1], then [logging.warning(...)] *)
          if imports_logging who then
            let st := {| cache := cache st; requests := requests st;
                         sleeps := sleeps st ++ [initial_delay] |} in
            retry_loop remaining' (initial_delay * (1 # 2))%Q prompt
              use_cache st
          else (inr (NameError "logging"), st)
      | Failed reason => (inr (UnexpectedError reason), st)
      end
  end.

(** [generate(prompt, cache=use_cache)] *)
Definition generate (prompt : string) (use_cache : bool) (st : state)
  : (string + generate_error) * state :=
  let cached_response := cache_get (cache st) prompt in
  match cached_response with
  | Some response =>
      if use_cache then (inl response, st)
      else retry_loop max_retries 5%Q prompt use_cache st
  | None => retry_loop max_retries 5%Q prompt use_cache st
  end.

End Generate.

Arguments cache {C}. Arguments requests {C}. Arguments sleeps {C}.

(** The pauses of [n] refused requests in a row: 5 seconds, then half of
    the pause before. *)
Fixpoint delays (n : nat) (initial_delay : Q) : list Q :=
  match n with
  | O => []
  | S n' => initial_delay :: delays n' (initial_delay * (1 # 2))%Q
  end.

Definition total (pauses : list Q) : Q := fold_right Qplus 0%Q pauses.

End Provider.

(** ** More sample data *)

Module MoreSamples.
Import FileCache.
Local Open Scope string_scope.

(** Results that are texts, stored as they are. *)
#[export] Instance text_json : Json string :=
  {| dumps := fun text => OK text; loads := fun text => OK text |}.

Definition sample_parent (path : string) : string := "data".

(** The index of the last ["/"] of a path, counted from [i]. *)
Fixpoint last_slash (path : string) (i : nat) : option nat :=
  match path with
  | EmptyString => None
  | String c rest =>
      match last_slash rest (S i) with
      | Some j => Some j
      | None => if Ascii.eqb c "/" then Some i else None
      end
  end.

(** [PurePosixPath(path).parent], for a path with single slashes and none
    at its end: the root and the path without a directory are their own
    parents. *)
Definition posix_parent (path : string) : string :=
  match last_slash path 0 with
  | None => "."
  | Some O => "/"
  | Some i => String.substring 0 i path
  end.

Definition empty_fs : file_system := {| dirs := ∅; files := ∅ |}.

(** Stages that count their runs. *)
Definition sample_daily_stage (runs : nat) : result string * nat :=
  (OK "dailies", S runs).

Definition sample_weekly_stage (dailies : string) (runs : nat)
  : result string * nat :=
  (OK ("weeklies of " ++ dailies), S runs).

Definition failing_weekly_stage (dailies : string) (runs : nat)
  : result string * nat :=
  (Raise CollaboratorError, S runs).

Definition sample_monthly_stage (weeklies : string) (runs : nat)
  : result string * nat :=
  (OK ("monthlies of " ++ weeklies), S runs).

(** A cache that keeps every response, and a service that refuses the
    first two requests. *)
Definition sample_cache_get (c : gmap string string) (prompt : string)
  : option string := c !! prompt.

Definition sample_cache_set (c : gmap string string) (prompt response : string)
  : gmap string string := <[prompt := response]> c.

Definition sample_create (n : nat) (prompt : string) : Provider.api_outcome :=
  if (n <? 2)%nat then Provider.RateLimited
  else Provider.Completed ("answer to " ++ prompt).

Definition busy_create (n : nat) (prompt : string) : Provider.api_outcome :=
  Provider.RateLimited.

Definition broken_create (n : nat) (prompt : string) : Provider.api_outcome :=
  if (n <? 1)%nat then Provider.RateLimited
  else Provider.Failed "connection reset".

Definition fresh_state : Provider.state :=
  {| Provider.cache := (∅ : gmap string string);
     Provider.requests := 0; Provider.sleeps := [] |}.

(** A daily bucket of the last week of the calendar. *)
Definition late_daily : @Summarizer.daily_summary float :=
  {| Summarizer.d_date := PyDate.mkdate 9999 12 29;
     Summarizer.d_commit_count := 1;
     Summarizer.d_technologies := [("Python", 100%float)];
     Summarizer.d_descriptions := "Work on the resolver." |}.

(** A weekly bucket of December 9999: Monday the 20th to Sunday the 26th. *)
Definition late_weekly : @Summarizer.weekly_summary float :=
  {| Summarizer.w_start_date := PyDate.mkdate 9999 12 20;
     Summarizer.w_end_date := PyDate.mkdate 9999 12 26;
     Summarizer.w_commit_count := 1;
     Summarizer.w_technologies := [("Python", 100%float)];
     Summarizer.w_descriptions := "Work on the resolver." |}.

End MoreSamples.

(** ** Sample answers of the user *)

Module ConfigSamples.
Local Open Scope string_scope.

(** Nothing is set in the environment. *)
Definition no_env (env_key : string) : option string := None.

(** The user gives a start date and leaves the end date empty. *)
Definition lone_start (label : string) : string :=
  if String.prefix "Start Date" label then "2024-03-01" else "".

(** The user gives both dates. *)
Definition both_dates (label : string) : string :=
  if String.prefix "Start Date" label then "2024-03-01" else "2024-03-31".

(** A parser that knows the two dates of the samples. *)
Definition sample_strptime (text : string) : option PyDate.date :=
  if String.eqb text "2024-03-01" then Some (PyDate.mkdate 2024 3 1)
  else if String.eqb text "2024-03-31" then Some (PyDate.mkdate 2024 3 31)
  else None.

End ConfigSamples.

(** ** Sample answers of the model *)

Module DetectorSamples.
Local Open Scope string_scope.

Definition quote : string := String "034" "".
Definition line_feed : string := String "010" "".

(** The inside of an object with one technology. *)
Definition sample_middle : string := quote ++ "Python" ++ quote ++ ": 100".

Definition sample_object : string := "{" ++ sample_middle ++ "}".

(** The object between two fences. *)
Definition fenced_answer : string :=
  "```json" ++ (line_feed ++ sample_object ++ line_feed) ++ "```".

Definition fenced_generate (prompt : string) : result string :=
  OK fenced_answer.

Definition empty_generate (prompt : string) : result string := OK "".

(** An answer that stops after the comma of its first entry. *)
Definition truncated_answer : string :=
  "{" ++ sample_middle ++ "," ++ line_feed.

Definition truncated_generate (prompt : string) : result string :=
  OK truncated_answer.

(** A parser that knows the sample object. *)
Definition sample_json_loads (text : string) : option (list (string * Z)) :=
  if String.eqb text sample_object then Some [("Python", 100%Z)] else None.

End DetectorSamples.

(** * Properties *)

(** ** The calendar *)

Module PyDateFacts.
Import PyDate.

Lemma valid_dateb_spec d : valid_dateb d = true <-> valid_date d.
Proof.
  unfold valid_dateb, valid_date. rewrite !andb_true_iff, !Z.leb_le. tauto.
Qed.

Lemma days_before_year_succ y :
  days_before_year (y + 1) = days_before_year y + 365 + b2z (is_leap y).
Proof.
  unfold days_before_year, is_leap, b2z.
  replace (y + 1 - 1) with y by lia.
  destruct (y mod 4 =? 0) eqn:E4; destruct (y mod 100 =? 0) eqn:E100;
    destruct (y mod 400 =? 0) eqn:E400; simpl;
    rewrite ?Z.eqb_eq, ?Z.eqb_neq in *;
    Z.div_mod_to_equations; lia.
Qed.

Lemma days_before_year_mono y1 y2 :
  y1 <= y2 -> days_before_year y1 <= days_before_year y2.
Proof.
  unfold days_before_year. intros H. Z.div_mod_to_equations. lia.
Qed.

Lemma month_day_table :
  forallb (fun k => month_day_ok false (Z.of_nat k)) (seq 0 365) &&
  forallb (fun k => month_day_ok true (Z.of_nat k)) (seq 0 366) = true.
Proof. vm_compute. reflexivity. Qed.

Lemma month_day_spec leap n :
  0 <= n < 365 + b2z leap ->
  1 <= fst (month_day leap n) <= 12 /\
  1 <= snd (month_day leap n) <= days_in_month_of leap (fst (month_day leap n)) /\
  days_before_month_of leap (fst (month_day leap n)) + snd (month_day leap n)
    = n + 1.
Proof.
  intros Hn.
  assert (Hok : month_day_ok leap n = true).
  { pose proof month_day_table as T. apply andb_true_iff in T as [T0 T1].
    rewrite forallb_forall in T0, T1.
    rewrite <- (Z2Nat.id n) by lia.
    destruct leap; [apply T1 | apply T0]; apply in_seq; unfold b2z in Hn; lia. }
  unfold month_day_ok in Hok. destruct (month_day leap n) as [m d]. simpl.
  rewrite !andb_true_iff, !Z.leb_le, Z.eqb_eq in Hok. lia.
Qed.

Lemma cycles_of N :
  0 <= N ->
  cycles N (N / 146097) (N mod 146097 / 36524)
    ((N mod 146097) mod 36524 / 1461)
    (((N mod 146097) mod 36524) mod 1461 / 365)
    ((((N mod 146097) mod 36524) mod 1461) mod 365).
Proof.
  intros HN. split; Z.div_mod_to_equations; lia.
Qed.

Lemma days_before_year_cycles N a b c e r4 :
  cycles N a b c e r4 ->
  days_before_year (a * 400 + 1 + b * 100 + c * 4 + e)
  = if (e =? 4) || (b =? 4) then N + 1 else N - r4.
Proof.
  intros [Hs Hb Hc He Hr Hb4 He4]. unfold days_before_year.
  destruct (e =? 4) eqn:E4; [apply Z.eqb_eq in E4 | apply Z.eqb_neq in E4];
    (destruct (b =? 4) eqn:B4; [apply Z.eqb_eq in B4 | apply Z.eqb_neq in B4]);
    simpl; Z.div_mod_to_equations; lia.
Qed.

Lemma is_leap_cycles N a b c e r4 :
  cycles N a b c e r4 -> e <> 4 -> b <> 4 ->
  is_leap (a * 400 + 1 + b * 100 + c * 4 + e)
  = (e =? 3) && (negb (c =? 24) || (b =? 3)).
Proof.
  intros [Hs Hb Hc He Hr Hb4 He4] E4 B4. unfold is_leap.
  repeat match goal with
         | |- context [?x =? ?y] =>
             let E := fresh "E" in
             destruct (x =? y) eqn:E;
             [apply Z.eqb_eq in E | apply Z.eqb_neq in E]
         end; simpl; try reflexivity; exfalso;
    Z.div_mod_to_equations; lia.
Qed.

Lemma toordinal_fromordinal n :
  1 <= n <= MAXORDINAL ->
  valid_date (fromordinal n) /\ toordinal (fromordinal n) = n.
Proof.
  unfold MAXORDINAL. intros Hn. unfold fromordinal.
  assert (HN : 0 <= n - 1) by lia.
  pose proof (cycles_of (n - 1) HN) as Hcy.
  set (N := n - 1) in *.
  set (a := N / 146097) in *.
  set (b := N mod 146097 / 36524) in *.
  set (c := (N mod 146097) mod 36524 / 1461) in *.
  set (e := ((N mod 146097) mod 36524) mod 1461 / 365) in *.
  set (r4 := (((N mod 146097) mod 36524) mod 1461) mod 365) in *.
  pose proof (days_before_year_cycles _ _ _ _ _ _ Hcy) as Hdby.
  assert (Ha : 0 <= a <= 24) by (subst a; Z.div_mod_to_equations; lia).
  destruct Hcy as [Hs Hb Hc He Hr Hb4 He4].
  destruct ((e =? 4) || (b =? 4)) eqn:Hend.
  - (* the last day of a 4- or 400-year cycle *)
    set (Y := a * 400 + 1 + b * 100 + c * 4 + e) in *.
    assert (HY : 2 <= Y <= 10000).
    { apply orb_true_iff in Hend as [E | B]; apply Z.eqb_eq in E || apply Z.eqb_eq in B;
        subst Y; lia. }
    split.
    + unfold valid_date, MINYEAR, MAXYEAR, days_in_month, days_in_month_of.
      simpl. lia.
    + unfold toordinal, days_before_month, days_before_month_of. simpl.
      pose proof (days_before_year_succ (Y - 1)) as S.
      replace (Y - 1 + 1) with Y in S by lia. lia.
  - apply orb_false_iff in Hend as [E4 B4].
    apply Z.eqb_neq in E4, B4.
    rewrite <- (is_leap_cycles N a b c e r4) by (try split; assumption).
    set (Y := a * 400 + 1 + b * 100 + c * 4 + e) in *.
    pose proof (month_day_spec (is_leap Y) r4) as Hmd.
    destruct (month_day (is_leap Y) r4) as [m d]. simpl in Hmd.
    destruct Hmd as (Hm & Hd & Hsum); [unfold b2z; destruct (is_leap Y); lia |].
    split.
    + unfold valid_date, MINYEAR, MAXYEAR, days_in_month. simpl.
      repeat split; try lia; subst Y; lia.
    + unfold toordinal, days_before_month. simpl. lia.
Qed.

Ltac month_cases m :=
  assert (m = 1 \/ m = 2 \/ m = 3 \/ m = 4 \/ m = 5 \/ m = 6 \/ m = 7 \/
          m = 8 \/ m = 9 \/ m = 10 \/ m = 11 \/ m = 12) as Hcases by lia;
  repeat (destruct Hcases as [-> | Hcases]); [.. | subst m].

Lemma days_before_next_month leap m :
  1 <= m <= 12 ->
  days_before_month_of leap m + days_in_month_of leap m
  = if m =? 12 then 365 + b2z leap else days_before_month_of leap (m + 1).
Proof.
  intros Hm. month_cases m; destruct leap; reflexivity.
Qed.

Lemma days_before_month_mono leap m1 m2 :
  1 <= m1 -> m1 < m2 -> m2 <= 12 ->
  days_before_month_of leap m1 + days_in_month_of leap m1
  <= days_before_month_of leap m2.
Proof.
  intros H1 H12 H2.
  assert (Hm1 : 1 <= m1 <= 12) by lia.
  month_cases m1; assert (Hm2 : 1 <= m2 <= 12) by lia;
    month_cases m2; try lia; destruct leap; cbv; congruence.
Qed.

Lemma toordinal_year_bounds d :
  valid_date d ->
  days_before_year (year d) < toordinal d <= days_before_year (year d + 1).
Proof.
  destruct d as [y m dd]. intros (Hy & Hm & Hd). simpl in *.
  unfold toordinal, days_before_month, days_in_month in *. simpl.
  rewrite days_before_year_succ.
  generalize dependent (is_leap y). intros leap Hd.
  assert (0 <= days_before_month_of leap m /\
          days_before_month_of leap m + days_in_month_of leap m
          <= 365 + b2z leap) as [H0 H1].
  { clear Hd. month_cases m; destruct leap; cbv; split; congruence. }
  lia.
Qed.

Lemma toordinal_range d :
  valid_date d -> 1 <= toordinal d <= MAXORDINAL.
Proof.
  intros Hv. pose proof (toordinal_year_bounds d Hv) as Hb.
  destruct Hv as (Hy & _). unfold MINYEAR, MAXYEAR in Hy.
  pose proof (days_before_year_mono 1 (year d)).
  pose proof (days_before_year_mono (year d + 1) 10000).
  change (days_before_year 1) with 0 in *.
  change (days_before_year 10000) with 3652059 in *.
  unfold MAXORDINAL. lia.
Qed.

Lemma toordinal_inj d1 d2 :
  valid_date d1 -> valid_date d2 -> toordinal d1 = toordinal d2 -> d1 = d2.
Proof.
  intros V1 V2 E.
  pose proof (toordinal_year_bounds d1 V1) as B1.
  pose proof (toordinal_year_bounds d2 V2) as B2.
  assert (Ey : year d1 = year d2).
  { destruct (Z.lt_trichotomy (year d1) (year d2)) as [L | [? | L]]; [| assumption |].
    - pose proof (days_before_year_mono (year d1 + 1) (year d2)). lia.
    - pose proof (days_before_year_mono (year d2 + 1) (year d1)). lia. }
  destruct d1 as [y1 m1 dd1], d2 as [y2 m2 dd2]. simpl in *. subst y2.
  destruct V1 as (_ & Hm1 & Hd1), V2 as (_ & Hm2 & Hd2). simpl in *.
  unfold toordinal, days_before_month, days_in_month in *. simpl in *.
  assert (Em : m1 = m2).
  { destruct (Z.lt_trichotomy m1 m2) as [L | [? | L]]; [| assumption |].
    - pose proof (days_before_month_mono (is_leap y1) m1 m2). lia.
    - pose proof (days_before_month_mono (is_leap y1) m2 m1). lia. }
  subst m2. f_equal. lia.
Qed.

Lemma fromordinal_toordinal d :
  valid_date d -> fromordinal (toordinal d) = d.
Proof.
  intros Hv.
  destruct (toordinal_fromordinal (toordinal d) (toordinal_range d Hv)) as [V E].
  apply toordinal_inj; assumption.
Qed.

End PyDateFacts.

(** ** The commit extractor *)

Module ExtractorFacts.
Import PyDate Extractor.

Section Batches.
Variable author_emails : list string.
Variable start_date end_date : option date.
Variable page_size : Z.
Variable ignore_commit_keywords : option (list string).

Local Abbreviation accept := (accept author_emails start_date end_date ignore_commit_keywords).
Local Abbreviation append_commit := (append_commit page_size).
Local Abbreviation visit_commit :=
  (visit_commit author_emails start_date end_date page_size ignore_commit_keywords).
Local Abbreviation visit_branch :=
  (visit_branch author_emails start_date end_date page_size ignore_commit_keywords).

Lemma visit_commits_append gcs st :
  fold_left visit_commit gcs st = fold_left append_commit (omap accept gcs) st.
Proof.
  revert st. induction gcs as [| gc gcs IH]; intros st; simpl; [reflexivity |].
  unfold Extractor.visit_commit at 2. destruct (accept gc); simpl; apply IH.
Qed.

Lemma visit_branches_append repo bs st :
  fold_left (visit_branch repo) bs st
  = fold_left append_commit
      (flat_map
         (fun branch =>
            if bool_decide (branch ∈ map branch_name (branches repo))
            then omap accept (iter_commits repo branch) else [])
         bs) st.
Proof.
  revert st. induction bs as [| b bs IH]; intros st; simpl; [reflexivity |].
  rewrite fold_left_app, <- IH. f_equal.
  unfold Extractor.visit_branch.
  destruct (bool_decide (b ∈ map branch_name (branches repo))); simpl;
    [apply visit_commits_append | reflexivity].
Qed.

(** The generator only depends on the sequence of surviving commits. *)
Lemma extract_batches repo repo_branches :
  bare repo = false -> branches repo <> [] ->
  extract_commits_by_author author_emails start_date end_date page_size
    ignore_commit_keywords repo repo_branches
  = OK (batches_of page_size
          (surviving author_emails start_date end_date
             ignore_commit_keywords repo repo_branches)).
Proof.
  intros Hb Hne. unfold extract_commits_by_author, batches_of, surviving.
  rewrite Hb.
  assert (Hbs : branches_to_iterate repo repo_branches <> []).
  { unfold branches_to_iterate. revert Hne.
    destruct repo_branches as [[| ? ?] |];
      destruct (branches repo); intros Hne'; simpl;
      first [discriminate | congruence]. }
  destruct (branches repo) as [| b0 bs0] eqn:Hbr; [congruence |].
  simpl orb. cbv iota. rewrite <- Hbr.
  destruct (branches_to_iterate repo repo_branches) as [| b1 bs1] eqn:E;
    [congruence |].
  rewrite visit_branches_append.
  destruct (fold_left _ _ _) as [batch yielded].
  destruct batch; reflexivity.
Qed.

Lemma extract_raises repo repo_branches :
  bare repo = true \/ branches repo = [] ->
  extract_commits_by_author author_emails start_date end_date page_size
    ignore_commit_keywords repo repo_branches = Raise ValueError.
Proof.
  unfold extract_commits_by_author. intros [-> | ->]; [reflexivity |].
  rewrite orb_true_r. reflexivity.
Qed.

(** *** Every yielded batch is non-empty *)

Lemma append_commit_nonempty st c :
  Forall (fun b => b <> []) (snd st) ->
  Forall (fun b => b <> []) (snd (append_commit st c)).
Proof.
  destruct st as [batch yielded]. unfold Extractor.append_commit. simpl.
  intros Hy. destruct (page_size <=? _); simpl; [| assumption].
  apply Forall_app. split; [assumption |].
  constructor; [| constructor]. destruct batch; discriminate.
Qed.

Lemma fold_append_nonempty cs st :
  Forall (fun b => b <> []) (snd st) ->
  Forall (fun b => b <> []) (snd (fold_left append_commit cs st)).
Proof.
  revert st. induction cs as [| c cs IH]; intros st Hst; simpl; [assumption |].
  apply IH, append_commit_nonempty, Hst.
Qed.

Lemma batches_of_nonempty cs :
  Forall (fun b => b <> []) (batches_of page_size cs).
Proof.
  unfold batches_of.
  pose proof (fold_append_nonempty cs ([], []) (List.Forall_nil _)) as Hy.
  destruct (fold_left append_commit cs ([], [])) as [batch yielded]. simpl in Hy.
  destruct batch as [| c batch]; [assumption |].
  apply Forall_app. split; [assumption |]. constructor; [discriminate | constructor].
Qed.

(** *** Full batches, then the remainder *)

Hypothesis page_size_pos : 0 < page_size.

Local Abbreviation batch_inv := (batch_inv page_size).

Lemma append_commit_inv cs st c :
  batch_inv cs st -> batch_inv (cs ++ [c]) (append_commit st c).
Proof.
  destruct st as [batch yielded]. unfold batch_inv, Extractor.append_commit.
  simpl. intros (Hc & Hf & Hl).
  destruct (page_size <=? Z.of_nat (length (batch ++ [c]))) eqn:E; simpl.
  - apply Z.leb_le in E. rewrite length_app in E. simpl in E.
    repeat split.
    + rewrite concat_app. simpl. rewrite !app_nil_r, app_assoc, Hc. reflexivity.
    + apply Forall_app. split; [assumption |]. constructor; [| constructor].
      rewrite length_app. simpl. lia.
    + lia.
  - apply Z.leb_gt in E. repeat split.
    + rewrite app_assoc, Hc. reflexivity.
    + assumption.
    + assumption.
Qed.

Lemma fold_append_inv cs' cs st :
  batch_inv cs st -> batch_inv (cs ++ cs') (fold_left append_commit cs' st).
Proof.
  revert cs st. induction cs' as [| c cs' IH]; intros cs st Hst; simpl.
  - rewrite app_nil_r. assumption.
  - replace (cs ++ c :: cs') with ((cs ++ [c]) ++ cs')
      by (rewrite <- app_assoc; reflexivity).
    apply IH, append_commit_inv, Hst.
Qed.

Lemma length_concat_full (yielded : list (list commit)) :
  Forall (fun b => Z.of_nat (length b) = page_size) yielded ->
  Z.of_nat (length (concat yielded)) = Z.of_nat (length yielded) * page_size.
Proof.
  induction 1 as [| b l Hb Hl IH]; simpl; [reflexivity |].
  rewrite length_app. lia.
Qed.

Lemma batches_of_pages cs :
  let n := Z.of_nat (length cs) in
  concat (batches_of page_size cs) = cs /\
  exists full rest,
    batches_of page_size cs = full ++ rest /\
    Forall (fun b => Z.of_nat (length b) = page_size) full /\
    Z.of_nat (length full) = n / page_size /\
    (if n mod page_size =? 0 then rest = []
     else exists b, rest = [b] /\ Z.of_nat (length b) = n mod page_size).
Proof.
  intros n. unfold batches_of.
  assert (H0 : batch_inv [] ([], [])) by (repeat split; simpl; [constructor | lia]).
  pose proof (fold_append_inv cs [] ([], []) H0) as Hinv. simpl in Hinv.
  destruct (fold_left append_commit cs ([], [])) as [batch yielded].
  destruct Hinv as (Hc & Hf & Hl). simpl in *.
  pose proof (length_concat_full yielded Hf) as Hlen.
  assert (Hn : n = Z.of_nat (length yielded) * page_size + Z.of_nat (length batch)).
  { subst n. rewrite <- Hc, length_app. lia. }
  assert (Hq : n / page_size = Z.of_nat (length yielded) /\
               n mod page_size = Z.of_nat (length batch)).
  { rewrite Hn. split.
    - rewrite Z.div_add_l by lia. rewrite Z.div_small by lia. lia.
    - rewrite Z.add_comm, Z.mod_add by lia. apply Z.mod_small. lia. }
  destruct Hq as [Hq Hr].
  destruct batch as [| c batch].
  - split; [rewrite app_nil_r in Hc; assumption |].
    exists yielded, []. rewrite app_nil_r. repeat split; try assumption; [lia |].
    rewrite Hr. reflexivity.
  - split.
    + rewrite concat_app. simpl. rewrite app_nil_r. assumption.
    + exists yielded, [c :: batch]. repeat split; try assumption; [lia |].
      rewrite Hr. simpl length.
      destruct (Z.of_nat (S (length batch)) =? 0) eqn:E;
        [apply Z.eqb_eq in E; lia |].
      eexists; split; reflexivity.
Qed.

End Batches.

(** [if not batch: continue] never drops a batch. *)
Lemma filter_nonempty_batches (batches : list (list commit)) :
  Forall (fun b => b <> []) batches ->
  List.filter (fun batch => negb (bool_decide (batch = []))) batches = batches.
Proof.
  induction 1 as [| b l Hb _ IH]; simpl; [reflexivity |].
  rewrite bool_decide_eq_false_2 by exact Hb. simpl. rewrite IH. reflexivity.
Qed.

End ExtractorFacts.

Module ExtractorClaims.
Import PyDate Extractor ExtractorFacts Samples.

Lemma full_batches_sizes (full : list (list commit)) (page_size : Z) :
  Forall (fun b => Z.of_nat (length b) = page_size) full ->
  map (fun b => Z.of_nat (length b)) full
  = repeat page_size (length full).
Proof.
  induction 1 as [| b l Hb Hl IH]; simpl; [reflexivity |]. rewrite Hb, IH.
  reflexivity.
Qed.

(** C6. For a positive page size the generator yields the surviving commits
    in traversal order: [n / page_size] batches of exactly [page_size]
    commits, followed by one batch with the [n mod page_size] remaining ones
    when there are any; 250 surviving commits and a page size of 100 give
    three batches of 100, 100 and 50 commits. *)
Theorem extract_yields_full_pages_then_remainder
    (author_emails : list string) (start_date end_date : option date)
    (page_size : Z) (ignore_commit_keywords : option (list string))
    (repo : git_repo) (repo_branches : option (list string)) :
  0 < page_size -> bare repo = false -> branches repo <> [] ->
  let cs := surviving author_emails start_date end_date
              ignore_commit_keywords repo repo_branches in
  let n := Z.of_nat (length cs) in
  exists batches,
    extract_commits_by_author author_emails start_date end_date page_size
      ignore_commit_keywords repo repo_branches = OK batches /\
    concat batches = cs /\
    (exists full rest,
       batches = full ++ rest /\
       Forall (fun b => Z.of_nat (length b) = page_size) full /\
       Z.of_nat (length full) = n / page_size /\
       (if n mod page_size =? 0 then rest = []
        else exists b, rest = [b] /\ Z.of_nat (length b) = n mod page_size)) /\
    (n = 250 -> page_size = 100 ->
     map (fun b => Z.of_nat (length b)) batches = [100; 100; 50]).
Proof.
  intros Hps Hb Hne cs n.
  exists (batches_of page_size cs). split; [apply extract_batches; assumption |].
  destruct (batches_of_pages page_size Hps cs) as (Hc & full & rest & E & Hf & Hl & Hr).
  fold n in Hl, Hr.
  split; [assumption |]. split; [exists full, rest; auto |].
  intros Hn ->. rewrite E, map_app, (full_batches_sizes full 100 Hf).
  rewrite Hn in Hl, Hr. change (250 / 100) with 2 in Hl.
  change (250 mod 100 =? 0) with false in Hr. change (250 mod 100) with 50 in Hr.
  destruct Hr as (b & -> & Hlb).
  replace (length full) with 2%nat by lia. simpl. rewrite Hlb. reflexivity.
Qed.

Lemma extract_yields_full_pages_then_remainder_witness :
  exists batches,
    extract_commits_by_author [dev_email] None None 100 None
      (linear_repo 250) None = OK batches /\
    map (fun b => Z.of_nat (length b)) batches = [100; 100; 50].
Proof.
  destruct (extract_yields_full_pages_then_remainder [dev_email] None None 100
              None (linear_repo 250) None)
    as (batches & He & _ & _ & H250);
    [lia | reflexivity | discriminate |].
  exists batches. split; [exact He |].
  apply H250; [vm_compute; reflexivity | reflexivity].
Defined.

(** C10. Whatever the repository, the filters and the page size (zero and
    negative ones included), no yielded batch is empty, so that the test for
    an empty batch in [CVGenerator._extract_commits] drops nothing: once
    the configuration has given a path and an author address, the method
    yields the batches of the extractor as they are; and a batch can hold
    commits of two branches: in [two_branch_repo] the only batch holds the
    commit of [main] and the commit of [dev]. *)
Theorem extract_batches_nonempty :
  (forall (author_emails : list string) (start_date end_date : option date)
          (page_size : Z) (ignore_commit_keywords : option (list string))
          (repo : git_repo) (repo_branches : option (list string)),
      match extract_commits_by_author author_emails start_date end_date
              page_size ignore_commit_keywords repo repo_branches with
      | OK batches => Forall (fun b => b <> []) batches
      | Raise e =>
          e = ValueError /\ (bare repo = true \/ branches repo = [])
      end) /\
  (forall (config : configuration) (open_repo : string -> git_repo),
      app_extract_commits config open_repo
      = let! repo_path := get_repo_path config in
        let! author_email := get_author_email config in
        extract_commits_by_author author_email (cfg_start_date config)
          (cfg_end_date config) 100 (cfg_ignore_commit_keywords config)
          (open_repo repo_path) (cfg_repo_branches config)) /\
  (forall (repo_path : string) (author_emails : list string)
          (start_date end_date : option date)
          (ignore_commit_keywords : option (list string))
          (repo : git_repo) (repo_branches : option (list string)),
      repo_path <> EmptyString -> author_emails <> [] ->
      app_extract_commits
        {| cfg_repo_path := Some repo_path;
           cfg_repo_branches := repo_branches;
           cfg_start_date := start_date; cfg_end_date := end_date;
           cfg_author_email := Some author_emails;
           cfg_ignore_commit_keywords := ignore_commit_keywords |}
        (fun _ => repo)
      = extract_commits_by_author author_emails start_date end_date 100
          ignore_commit_keywords repo repo_branches) /\
  (exists batch,
      extract_commits_by_author [dev_email] None None 100 None
        two_branch_repo None = OK [batch] /\
      map c_hash batch = ["a1"; "b2"]%string /\
      map (fun b => map hexsha (branch_commits b)) (branches two_branch_repo)
      = [["a1"]; ["b2"]]%string).
Proof.
  assert (Hall : forall author_emails start_date end_date page_size
                        ignore_commit_keywords repo repo_branches,
             match extract_commits_by_author author_emails start_date end_date
                     page_size ignore_commit_keywords repo repo_branches with
             | OK batches => Forall (fun b => b <> []) batches
             | Raise e =>
                 e = ValueError /\ (bare repo = true \/ branches repo = [])
             end).
  { intros. destruct (bare repo) eqn:Hb.
    - rewrite extract_raises by auto. auto.
    - destruct (branches repo) as [| b0 bs] eqn:Hbr.
      + rewrite extract_raises by auto. auto.
      + rewrite extract_batches by (rewrite ?Hbr; auto; discriminate).
        apply batches_of_nonempty. }
  assert (Happ : forall config open_repo,
             app_extract_commits config open_repo
             = let! repo_path := get_repo_path config in
               let! author_email := get_author_email config in
               extract_commits_by_author author_email (cfg_start_date config)
                 (cfg_end_date config) 100 (cfg_ignore_commit_keywords config)
                 (open_repo repo_path) (cfg_repo_branches config)).
  { intros. unfold app_extract_commits.
    destruct (get_repo_path config) as [repo_path | e]; [| reflexivity].
    destruct (get_author_email config) as [author_email | e];
      [| reflexivity].
    cbn [rbind].
    pose proof (Hall author_email (cfg_start_date config)
                  (cfg_end_date config) 100
                  (cfg_ignore_commit_keywords config) (open_repo repo_path)
                  (cfg_repo_branches config)) as Hne.
    destruct (extract_commits_by_author _ _ _ _ _ _ _) as [batches | e];
      simpl; [| reflexivity].
    rewrite filter_nonempty_batches by exact Hne. reflexivity. }
  split; [exact Hall |]. split; [exact Happ |]. split.
  - intros repo_path author_emails start_date end_date
           ignore_commit_keywords repo repo_branches Hpath Hemails.
    rewrite Happ. unfold get_repo_path, get_author_email. cbn.
    destruct repo_path as [| c path]; [congruence |].
    destruct author_emails as [| email emails]; [congruence |].
    reflexivity.
  - eexists. split; [vm_compute; reflexivity |]. split; reflexivity.
Qed.

End ExtractorClaims.

(** ** The relevance filter *)

Module RelevanceClaims.
Import Extractor.

(** The keywords the filter looks for: none when the list is absent or
    empty. *)
Lemma is_relevant_commit_spec (commit_message : string)
    (irrelevant_keywords : option (list string)) :
  is_relevant_commit commit_message irrelevant_keywords = false <->
  (exists keyword,
      In keyword (default [] irrelevant_keywords) /\
      PyStr.contains keyword (PyStr.lower commit_message) = true) \/
  PyStr.len (PyStr.strip commit_message) < 10.
Proof.
  set (hits := existsb
                 (fun keyword => PyStr.contains keyword (PyStr.lower commit_message))
                 (default [] irrelevant_keywords)).
  assert (E : is_relevant_commit commit_message irrelevant_keywords
              = if hits then false
                else if PyStr.len (PyStr.strip commit_message) <? 10 then false
                     else true)
    by (destruct irrelevant_keywords as [[| k ks] |]; reflexivity).
  rewrite E. clear E.
  destruct hits eqn:Hh; subst hits.
  - split; [intros _ | reflexivity]. left. apply existsb_exists in Hh. exact Hh.
  - destruct (PyStr.len (PyStr.strip commit_message) <? 10) eqn:El;
      [apply Z.ltb_lt in El | apply Z.ltb_ge in El].
    + split; [right; assumption | reflexivity].
    + split; [discriminate |]. intros [Hk | Hl]; [| lia].
      apply existsb_exists in Hk. congruence.
Qed.

(** C5. The filter compares the lowercased message with the keywords as
    they are given: the message "typo fix for header" is excluded by the
    keyword "typo" but kept with the keyword "Typo", although its lowercased
    form contains the lowercased keyword. *)
Theorem is_relevant_commit_keyword_case :
  is_relevant_commit "fix" None = false /\
  is_relevant_commit "typo fix for header" (Some ["typo"%string]) = false /\
  is_relevant_commit "Implement caching layer for resolver"
    (Some ["typo"%string]) = true /\
  PyStr.contains (PyStr.lower "Typo") (PyStr.lower "typo fix for header")
  = true /\
  is_relevant_commit "typo fix for header" (Some ["Typo"%string]) = true.
Proof. repeat split; vm_compute; reflexivity. Qed.

End RelevanceClaims.

(** ** The stage cache *)

Module FileCacheClaims.
Import FileCache.

Section Cache.
Context {R : Type} `{Json R} {W : Type}.
Variable parent : string -> string.

(** C9. With a stored file the stage function is not run: the outcome is
    the decoded content of the file, whatever the stage function is, and
    neither the files nor the state of the stage change.  Without one the
    stage function runs; the file is written, with the encoded result,
    only when it has returned a result, and a stage that raises leaves
    the files as they were. *)
Theorem process_and_save_all_or_nothing
    (process_method : W -> result R * W) (file_path : string)
    (fs : file_system) (w : W) :
  let out := process_and_save parent process_method file_path (fs, w) in
  match files fs !! file_path with
  | Some text =>
      out.1 = loads text /\ files out.2.1 = files fs /\ out.2.2 = w /\
      forall other : W -> result R * W,
        process_and_save parent other file_path (fs, w) = out
  | None =>
      out.2.2 = (process_method w).2 /\
      match (process_method w).1 with
      | Raise e => out.1 = Raise e /\ files out.2.1 = files fs
      | OK result =>
          match dumps result with
          | OK text =>
              out.1 = OK result /\
              files out.2.1 = <[file_path := text]> (files fs)
          | Raise e => out.1 = Raise e /\ files out.2.1 = files fs
          end
      end
  end.
Proof.
  unfold process_and_save. simpl.
  assert (Hf : forall b : bool,
             files (if b then fs
                    else mkdir_parents parent (parent file_path) fs)
             = files fs)
    by (intros []; reflexivity).
  rewrite Hf.
  destruct (files fs !! file_path) as [text |] eqn:Hlook.
  - simpl. rewrite Hf. auto.
  - destruct (process_method w) as [[result | e] w']; simpl.
    + destruct (dumps result) as [text | e]; simpl; rewrite ?Hf; auto.
    + rewrite Hf. auto.
Qed.

End Cache.

Section Stages.
Context {D Wk M : Type} `{Json D} `{Json Wk} `{Json M} {W : Type}.
Variable parent : string -> string.
Variable daily_stage : W -> result D * W.
Variable weekly_stage : D -> W -> result Wk * W.
Variable monthly_stage : Wk -> W -> result M * W.

(** When the first stage has no stored result and raises, the run stops
    there and no file has been written. *)
Lemma summarize_stages_aborts hash fs w e :
  files fs !! ("data/daily-summaries-" ++ hash ++ ".json")%string = None ->
  (daily_stage w).1 = Raise e ->
  let out := summarize_stages parent daily_stage weekly_stage monthly_stage
               hash (fs, w) in
  out.1 = Raise e /\ files out.2.1 = files fs.
Proof.
  intros Hnone Hraise. unfold summarize_stages, process_and_save. simpl.
  assert (Hf : forall b : bool,
             files (if b then fs
                    else mkdir_parents parent
                           (parent ("data/daily-summaries-" ++ hash
                                    ++ ".json")%string) fs)
             = files fs)
    by (intros []; reflexivity).
  rewrite Hf, Hnone.
  destruct (daily_stage w) as [r w']. simpl in Hraise. subst r. simpl.
  rewrite Hf. auto.
Qed.
End Stages.

End FileCacheClaims.

(** ** Grouping *)

Module GroupFacts.
Import Groups.

Lemma rbind_ok {A B : Type} (r : result A) (k : A -> result B) (b : B) :
  rbind r k = OK b -> exists a, r = OK a /\ k a = OK b.
Proof. destruct r as [a | e]; simpl; [eauto | discriminate]. Qed.

Lemma rmap_ok {A B : Type} (f : A -> result B) (xs : list A) (ys : list B) :
  rmap f xs = OK ys -> Forall2 (fun x y => f x = OK y) xs ys.
Proof.
  revert ys. induction xs as [| x xs IH]; simpl; intros ys Hr.
  - injection Hr as <-. constructor.
  - apply rbind_ok in Hr as (y & Hy & Hr).
    apply rbind_ok in Hr as (ys' & Hys & Hr). injection Hr as <-.
    constructor; auto.
Qed.

Lemma rmap_total {A B : Type} (f : A -> result B) (xs : list A) :
  Forall (fun x => exists y, f x = OK y) xs -> exists ys, rmap f xs = OK ys.
Proof.
  induction 1 as [| x xs (y & Hy) _ (ys & Hys)]; simpl; [eauto |].
  rewrite Hy, Hys. simpl. eauto.
Qed.

Lemma sum_counts_from (l : list Z) (a : Z) :
  fold_left Z.add l a = a + sum_counts l.
Proof.
  unfold sum_counts. revert a.
  induction l as [| x l IH]; intros a; simpl; [lia |].
  rewrite (IH (a + x)), (IH (0 + x)). lia.
Qed.

Lemma sum_counts_cons (x : Z) (l : list Z) :
  sum_counts (x :: l) = x + sum_counts l.
Proof. unfold sum_counts at 1. simpl. apply sum_counts_from. Qed.

Lemma sum_counts_app (l1 l2 : list Z) :
  sum_counts (l1 ++ l2)
  = sum_counts l1 + sum_counts l2.
Proof.
  induction l1 as [| x l1 IH]; simpl; [reflexivity |].
  rewrite !sum_counts_cons, IH. lia.
Qed.

Section Groups.
Context {K A : Type} `{EqDecision K}.

Lemma dict_get_set_eq {V : Type} (k : K) (v : V) (d : list (K * V)) :
  dict_get k (dict_set k v d) = Some v.
Proof.
  induction d as [| [k' v'] d IH]; simpl.
  - destruct (decide (k = k)); congruence.
  - destruct (decide (k = k')) as [-> | Hne]; simpl.
    + destruct (decide (k' = k')); congruence.
    + destruct (decide (k = k')); congruence.
Qed.

Lemma dict_get_set_ne {V : Type} (k k0 : K) (v : V) (d : list (K * V)) :
  k0 <> k -> dict_get k0 (dict_set k v d) = dict_get k0 d.
Proof.
  intros Hne. induction d as [| [k' v'] d IH]; simpl.
  - destruct (decide (k0 = k)); congruence.
  - destruct (decide (k = k')) as [-> | Hne']; simpl.
    + destruct (decide (k0 = k')); congruence.
    + destruct (decide (k0 = k')); congruence.
Qed.

Lemma dict_keys_set {V : Type} (k : K) (v : V) (d : list (K * V)) :
  dict_keys (dict_set k v d)
  = match dict_get k d with
    | Some _ => dict_keys d
    | None => dict_keys d ++ [k]
    end.
Proof.
  unfold dict_keys. induction d as [| [k' v'] d IH]; simpl; [reflexivity |].
  destruct (decide (k = k')) as [-> | Hne]; simpl; [reflexivity |].
  rewrite IH. destruct (dict_get k d); reflexivity.
Qed.

Lemma dict_get_None_keys {V : Type} (k : K) (d : list (K * V)) :
  dict_get k d = None <-> ~ In k (dict_keys d).
Proof.
  unfold dict_keys. induction d as [| [k' v'] d IH]; simpl; [tauto |].
  destruct (decide (k = k')) as [-> | Hne].
  - split; [discriminate | tauto].
  - rewrite IH. split; [intros Hn [? | ?]; [congruence | tauto] | tauto].
Qed.

Lemma dict_get_In {V : Type} (k : K) (v : V) (d : list (K * V)) :
  dict_get k d = Some v -> In (k, v) d.
Proof.
  induction d as [| [k' v'] d IH]; simpl; [discriminate |].
  destruct (decide (k = k')) as [-> | Hne]; [intros [= ->]; auto | auto].
Qed.

Lemma dict_In_get {V : Type} (k : K) (v : V) (d : list (K * V)) :
  NoDup (dict_keys d) -> In (k, v) d -> dict_get k d = Some v.
Proof.
  unfold dict_keys. induction d as [| [k' v'] d IH]; simpl; [tauto |].
  intros Hnd [[= -> ->] | Hin].
  - destruct (decide (k = k)); congruence.
  - apply NoDup_cons in Hnd as [Hk Hnd].
    destruct (decide (k = k')) as [-> | Hne]; [| auto].
    exfalso. apply Hk. apply list_elem_of_In.
    change k' with (fst (k', v)). apply in_map, Hin.
Qed.

Lemma dict_set_NoDup {V : Type} (k : K) (v : V) (d : list (K * V)) :
  NoDup (dict_keys d) -> NoDup (dict_keys (dict_set k v d)).
Proof.
  intros Hnd. rewrite dict_keys_set.
  destruct (dict_get k d) eqn:E; [assumption |].
  apply dict_get_None_keys in E.
  apply NoDup_app. repeat split; [assumption | | apply NoDup_singleton].
  intros x Hx Hx'. apply list_elem_of_In in Hx. apply list_elem_of_In in Hx'.
  destruct Hx' as [<- | []]. contradiction.
Qed.

Lemma groups_total_set (f : A -> Z) (k : K) (g : list A) (d : list (K * list A)) :
  groups_total f (dict_set k g d)
  = groups_total f d
    - sum_counts (map f (default [] (dict_get k d)))
    + sum_counts (map f g).
Proof.
  unfold groups_total. induction d as [| [k' g'] d IH]; simpl.
  - rewrite sum_counts_cons. unfold sum_counts. simpl. lia.
  - destruct (decide (k = k')) as [-> | Hne]; simpl.
    + rewrite !sum_counts_cons. simpl. lia.
    + rewrite !sum_counts_cons, IH. simpl. lia.
Qed.

Lemma groups_total_append (f : A -> Z) (k : K) (x : A) (d : list (K * list A)) :
  groups_total f (dict_append k x d) = groups_total f d + f x.
Proof.
  unfold dict_append. destruct (dict_get k d) as [xs |] eqn:E;
    rewrite groups_total_set, E; simpl.
  - rewrite map_app, sum_counts_app. simpl. rewrite sum_counts_cons.
    unfold sum_counts at 3. simpl. lia.
  - rewrite sum_counts_cons. unfold sum_counts. simpl. lia.
Qed.

Lemma grouped_append (keyed : A -> K -> Prop) (k : K) (x : A)
    (d : list (K * list A)) :
  keyed x k -> grouped keyed d -> grouped keyed (dict_append k x d).
Proof.
  intros Hx [Hnd Hg]. unfold dict_append.
  assert (Hset : forall g0,
             (forall y, In y g0 -> keyed y k) -> g0 <> [] ->
             grouped keyed (dict_set k g0 d)).
  { intros g0 Hg0 Hne. split; [apply dict_set_NoDup, Hnd |].
    intros k' g Hin.
    apply dict_In_get in Hin; [| apply dict_set_NoDup, Hnd].
    destruct (decide (k' = k)) as [-> | Hk].
    - rewrite dict_get_set_eq in Hin. injection Hin as <-. auto.
    - rewrite dict_get_set_ne in Hin by assumption.
      apply dict_get_In in Hin. auto. }
  destruct (dict_get k d) as [xs |] eqn:E.
  - apply Hset.
    + intros y Hy. apply in_app_or in Hy as [Hy | [<- | []]]; [| assumption].
      apply dict_get_In in E. apply (Hg _ _ E). assumption.
    + destruct xs; discriminate.
  - apply Hset; [intros y [<- | []]; assumption | discriminate].
Qed.

Lemma dict_append_member (k : K) (x : A) (d : list (K * list A)) :
  exists g, dict_get k (dict_append k x d) = Some g /\ In x g.
Proof.
  unfold dict_append. destruct (dict_get k d) as [xs |];
    rewrite dict_get_set_eq; eexists; split; try reflexivity.
  - apply in_or_app. right. left. reflexivity.
  - left. reflexivity.
Qed.

Lemma dict_append_keeps (k k0 : K) (x y : A) (d : list (K * list A)) :
  (exists g, dict_get k0 d = Some g /\ In y g) ->
  exists g, dict_get k0 (dict_append k x d) = Some g /\ In y g.
Proof.
  intros (g & Hg & Hy). unfold dict_append.
  destruct (decide (k0 = k)) as [-> | Hne].
  - rewrite Hg. rewrite dict_get_set_eq. eexists; split; [reflexivity |].
    apply in_or_app. left. assumption.
  - destruct (dict_get k d); rewrite dict_get_set_ne by assumption; eauto.
Qed.

Lemma group_by_total (key : A -> result K) (xs : list A) (d : list (K * list A)) :
  Forall (fun x => exists k, key x = OK k) xs ->
  exists d', group_by key xs d = OK d'.
Proof.
  unfold group_by. intros Hk. revert d.
  induction Hk as [| x xs (k & Hx) _ IH]; intros d; simpl; [eauto |].
  rewrite Hx. simpl. apply IH.
Qed.

(** The groups after the loop: every element is in the group of its key,
    the groups are well formed and their members are the elements of the
    groups before and of the list. *)
Lemma group_by_spec (key : A -> result K) (f : A -> Z) (xs : list A)
    (d d' : list (K * list A)) :
  group_by key xs d = OK d' ->
  grouped (fun x k => key x = OK k) d ->
  grouped (fun x k => key x = OK k) d' /\
  (forall x, In x xs ->
     exists k g, key x = OK k /\ dict_get k d' = Some g /\ In x g) /\
  (forall k x, (exists g, dict_get k d = Some g /\ In x g) ->
     exists g, dict_get k d' = Some g /\ In x g) /\
  groups_total f d' = groups_total f d + sum_counts (map f xs).
Proof.
  unfold group_by. revert d.
  induction xs as [| x xs IH]; intros d Hr Hg; simpl in Hr.
  - injection Hr as <-.
    split; [exact Hg |]. split; [intros ? [] |]. split; [auto |].
    simpl map. change (sum_counts []) with 0. lia.
  - apply rbind_ok in Hr as (s1 & Hs1 & Hr).
    apply rbind_ok in Hs1 as (k & Hk & Hs1). injection Hs1 as <-.
    destruct (IH _ Hr) as (Hg' & Hin & Hkeep & Htot);
      [apply grouped_append; assumption |].
    split; [exact Hg' |]. split; [| split].
    + intros y [<- | Hy]; [| auto].
      exists k. destruct (Hkeep k x (dict_append_member k x d)) as (g & ? & ?).
      eauto.
    + intros k0 y Hy. apply Hkeep, dict_append_keeps, Hy.
    + rewrite Htot, groups_total_append. simpl map. rewrite sum_counts_cons. lia.
Qed.

(** The counts of the buckets add up to the count of the grouped elements
    when every bucket counts the members of its group. *)
Lemma bucket_counts {B : Type} (f : A -> Z) (cnt : B -> Z)
    (d : list (K * list A)) (bs : list B) :
  Forall2 (fun entry b => cnt b = sum_counts (map f entry.2)) d bs ->
  sum_counts (map cnt bs) = groups_total f d.
Proof.
  unfold groups_total. induction 1 as [| entry b d bs Hb _ IH]; simpl;
    [reflexivity |].
  rewrite !sum_counts_cons, IH, Hb. reflexivity.
Qed.

End Groups.
End GroupFacts.

(** ** Weeks and months *)

Module DateArithFacts.
Import PyDate PyDateFacts Summarizer.

Lemma add_days_ok d k :
  1 <= toordinal d + k <= MAXORDINAL ->
  exists d', add_days d k = OK d' /\ valid_date d' /\
             toordinal d' = toordinal d + k.
Proof.
  intros Hr. unfold add_days.
  replace ((0 <? toordinal d + k) && (toordinal d + k <=? MAXORDINAL)) with true
    by (symmetry; apply andb_true_iff; rewrite Z.ltb_lt, Z.leb_le; lia).
  destruct (toordinal_fromordinal _ Hr) as [Hv Ho]. eauto.
Qed.

Lemma add_days_overflow d k :
  ~ 1 <= toordinal d + k <= MAXORDINAL -> add_days d k = Raise OverflowError.
Proof.
  intros Hr. unfold add_days.
  destruct ((0 <? toordinal d + k) && (toordinal d + k <=? MAXORDINAL)) eqn:E;
    [| reflexivity].
  apply andb_true_iff in E. rewrite Z.ltb_lt, Z.leb_le in E. lia.
Qed.

Lemma add_days_inv d k d' :
  add_days d k = OK d' ->
  1 <= toordinal d + k <= MAXORDINAL /\ valid_date d' /\
  toordinal d' = toordinal d + k.
Proof.
  intros Ha.
  destruct (Z_le_dec 1 (toordinal d + k)) as [H1 |];
    [destruct (Z_le_dec (toordinal d + k) MAXORDINAL) as [H2 |] |].
  - destruct (add_days_ok d k) as (d'' & E & Hv & Ho); [lia |].
    rewrite E in Ha. injection Ha as <-. auto.
  - rewrite add_days_overflow in Ha by lia. discriminate.
  - rewrite add_days_overflow in Ha by lia. discriminate.
Qed.

Lemma weekday_range d : 0 <= weekday d <= 6.
Proof. unfold weekday. Z.div_mod_to_equations. lia. Qed.

(** The start of the week of a date exists, is a Monday and lies at most
    six days before the date. *)
Lemma week_start_of_ok d :
  valid_date d ->
  exists ws, week_start_of d = OK ws /\ valid_date ws /\ weekday ws = 0 /\
             toordinal ws = toordinal d - weekday d.
Proof.
  intros Hv. pose proof (toordinal_range d Hv) as Hr.
  unfold week_start_of.
  assert (Hw : 0 <= weekday d <= 6 /\ weekday d <= toordinal d - 1)
    by (unfold weekday; Z.div_mod_to_equations; lia).
  destruct (add_days_ok d (- weekday d)) as (ws & E & Hvw & Ho); [lia |].
  exists ws. repeat split; try assumption; try lia; try apply Hvw.
  unfold weekday in *. rewrite Ho. Z.div_mod_to_equations. lia.
Qed.

Lemma days_in_month_range y m : 1 <= m <= 12 -> 28 <= days_in_month y m <= 31.
Proof.
  intros Hm. unfold days_in_month. destruct (is_leap y);
    month_cases m; cbv; split; congruence.
Qed.

Lemma replace_day_ok d k :
  valid_date d -> 1 <= k <= days_in_month (year d) (month d) ->
  replace_day d k = OK (mkdate (year d) (month d) k) /\
  valid_date (mkdate (year d) (month d) k).
Proof.
  intros (Hy & Hm & Hd) Hk. unfold replace_day.
  assert (Hv : valid_date (mkdate (year d) (month d) k))
    by (unfold valid_date; simpl; auto).
  apply valid_dateb_spec in Hv as Hb. rewrite Hb. auto.
Qed.

Lemma toordinal_next_month y m :
  1 <= m <= 12 ->
  toordinal (next_month_start y m)
  = toordinal (mkdate y m (days_in_month y m)) + 1.
Proof.
  intros Hm. unfold next_month_start, toordinal, days_before_month, days_in_month.
  pose proof (days_before_next_month (is_leap y) m Hm) as Hn.
  destruct (m =? 12) eqn:E; simpl.
  - rewrite days_before_year_succ.
    unfold days_before_month_of at 1. simpl. lia.
  - lia.
Qed.

Lemma add_days_to d k d' :
  valid_date d' -> toordinal d' = toordinal d + k -> add_days d k = OK d'.
Proof.
  intros Hv Ho. pose proof (toordinal_range d' Hv) as Hr.
  destruct (add_days_ok d k) as (d'' & E & Hv' & Ho'); [lia |].
  rewrite E. f_equal. apply toordinal_inj; [assumption .. | lia].
Qed.

Lemma last_day_of_month_spec d :
  valid_date d ->
  last_day_of_month d
  = if (year d =? 9999) && (month d =? 12) then Raise OverflowError
    else OK (mkdate (year d) (month d) (days_in_month (year d) (month d))).
Proof.
  intros Hv. destruct d as [y m dd]. simpl.
  pose proof Hv as (Hy & Hm & Hd). simpl in Hy, Hm, Hd.
  unfold MINYEAR, MAXYEAR in Hy.
  pose proof (days_in_month_range y m Hm) as HD.
  unfold last_day_of_month.
  destruct (replace_day_ok (mkdate y m dd) 28 Hv) as [E28 V28]; [simpl; lia |].
  simpl in E28, V28. rewrite E28. simpl rbind.
  destruct ((y =? 9999) && (m =? 12)) eqn:Elast.
  - apply andb_true_iff in Elast as [Ey Em].
    apply Z.eqb_eq in Ey, Em. subst y m. reflexivity.
  - set (D := days_in_month y m) in *.
    set (nm := next_month_start y m).
    set (X := mkdate (year nm) (month nm) (32 - D)).
    assert (Hnm : valid_date nm /\ day nm = 1 /\
                  28 <= days_in_month (year nm) (month nm)).
    { subst nm. unfold next_month_start.
      destruct (m =? 12) eqn:E12; simpl.
      - apply Z.eqb_eq in E12. subst m. rewrite andb_true_r in Elast.
        apply Z.eqb_neq in Elast.
        unfold valid_date, MINYEAR, MAXYEAR. simpl.
        pose proof (days_in_month_range (y + 1) 1). lia.
      - apply Z.eqb_neq in E12.
        unfold valid_date, MINYEAR, MAXYEAR. simpl.
        pose proof (days_in_month_range y (m + 1)). lia. }
    destruct Hnm as (Vnm & Dnm & Lnm).
    assert (VX : valid_date X).
    { destruct Vnm as (? & ? & ?). unfold valid_date, X. simpl. lia. }
    assert (Onm : toordinal nm = toordinal (mkdate y m D) + 1)
      by apply toordinal_next_month, Hm.
    assert (OX : toordinal X = toordinal (mkdate y m 28) + 4).
    { unfold toordinal in *. simpl in *. lia. }
    rewrite (add_days_to _ _ X VX OX). simpl rbind.
    destruct (replace_day_ok X 1 VX) as [E1 V1]; [simpl; lia |].
    rewrite E1. simpl rbind.
    assert (VD : valid_date (mkdate y m D)).
    { unfold valid_date, MINYEAR, MAXYEAR. simpl. fold D. lia. }
    apply add_days_to; [exact VD |].
    unfold toordinal in *. simpl in *. lia.
Qed.

End DateArithFacts.

(** ** The summarizers *)

Module SummarizerFacts.
Import PyDate PyDateFacts DateArithFacts Extractor Normalizer Summarizer.
Import Groups GroupFacts.

Lemma week_start_of_inv d ws :
  week_start_of d = OK ws ->
  valid_date ws /\ weekday ws = 0 /\ toordinal ws = toordinal d - weekday d.
Proof.
  unfold week_start_of. intros Ha.
  apply add_days_inv in Ha as (_ & Hv & Ho).
  split; [assumption |]. split; [| lia].
  unfold weekday in *. rewrite Ho. Z.div_mod_to_equations. lia.
Qed.

Lemma sum_counts_ones {A : Type} (l : list A) :
  sum_counts (map (fun _ => 1) l) = Z.of_nat (length l).
Proof.
  induction l as [| x l IH]; [reflexivity |].
  simpl map. rewrite sum_counts_cons, IH. simpl length. lia.
Qed.

Lemma fold_append_total {K A : Type} `{EqDecision K} (key : A -> K)
    (f : A -> Z) (xs : list A) (d : list (K * list A)) :
  groups_total f (fold_left (fun d x => dict_append (key x) x d) xs d)
  = groups_total f d + sum_counts (map f xs).
Proof.
  revert d. induction xs as [| x xs IH]; intros d; simpl.
  - change (sum_counts []) with 0. lia.
  - rewrite IH, groups_total_append, sum_counts_cons. lia.
Qed.

Lemma daily_groups_concat (commits_generator : list (list commit)) :
  daily_groups commits_generator
  = fold_left (fun d c => dict_append (c_date c) c d)
      (concat commits_generator) [].
Proof.
  unfold daily_groups. generalize (@nil (date * list commit)).
  induction commits_generator as [| batch bs IH]; intros d; simpl;
    [reflexivity |].
  rewrite fold_left_app. apply IH.
Qed.

Section Counts.
Context {F : Type} `{PyNum F}.
Variable generate : string -> result string.
Variable estimate_tokens : string -> Z.
Variable detect : list string -> list string -> result (@WeightMap F).

Lemma daily_counts PROMPT commits_generator project_context ds :
  daily_summarize generate estimate_tokens detect PROMPT commits_generator
    project_context = OK ds ->
  sum_counts (map d_commit_count ds)
  = Z.of_nat (length (concat commits_generator)).
Proof.
  unfold daily_summarize. intros Hr. apply rmap_ok in Hr.
  rewrite (bucket_counts (fun _ => 1) d_commit_count
             (daily_groups commits_generator) ds).
  - rewrite daily_groups_concat, fold_append_total, sum_counts_ones.
    reflexivity.
  - eapply Forall2_impl; [exact Hr |].
    intros [k g] b Hb. unfold daily_bucket in Hb.
    apply rbind_ok in Hb as (t & _ & Hb). apply rbind_ok in Hb as (sm & _ & Hb).
    injection Hb as <-. simpl. symmetry. apply sum_counts_ones.
Qed.

Lemma weekly_buckets PROMPT data buckets :
  weekly_summarize generate estimate_tokens PROMPT data = OK buckets ->
  exists summaries,
    weekly_groups data = OK summaries /\
    Forall2 (fun entry b =>
               w_start_date b = entry.1 /\
               add_days entry.1 6 = OK (w_end_date b) /\
               w_commit_count b = sum_counts (map d_commit_count entry.2))
            summaries buckets.
Proof.
  unfold weekly_summarize. intros Hr.
  apply rbind_ok in Hr as (summaries & Hg & Hr). exists summaries.
  split; [assumption |]. apply rmap_ok in Hr.
  eapply Forall2_impl; [exact Hr |].
  intros [k g] b Hb. unfold weekly_bucket in Hb.
  apply rbind_ok in Hb as (t & _ & Hb). apply rbind_ok in Hb as (we & Hwe & Hb).
  apply rbind_ok in Hb as (sm & _ & Hb). injection Hb as <-. simpl. auto.
Qed.

Lemma weekly_counts PROMPT data buckets :
  weekly_summarize generate estimate_tokens PROMPT data = OK buckets ->
  sum_counts (map w_commit_count buckets) = sum_counts (map d_commit_count data).
Proof.
  intros Hr. apply weekly_buckets in Hr as (summaries & Hg & Hb).
  rewrite (bucket_counts d_commit_count w_commit_count summaries buckets)
    by (eapply Forall2_impl; [exact Hb |]; intros ? ? (_ & _ & E); exact E).
  destruct (group_by_spec (fun item => week_start_of (d_date item))
              d_commit_count data [] summaries Hg) as (_ & _ & _ & Ht).
  - split; [constructor | intros ? ? []].
  - rewrite Ht. reflexivity.
Qed.

Lemma monthly_buckets PROMPT data buckets :
  monthly_summarize generate estimate_tokens PROMPT data = OK buckets ->
  exists summaries,
    monthly_groups data = OK summaries /\
    Forall2 (fun entry b =>
               m_start_date b = entry.1 /\
               m_month b = (year entry.1, month entry.1) /\
               last_day_of_month entry.1 = OK (m_end_date b) /\
               m_commit_count b = sum_counts (map w_commit_count entry.2))
            summaries buckets.
Proof.
  unfold monthly_summarize. intros Hr.
  apply rbind_ok in Hr as (summaries & Hg & Hr). exists summaries.
  split; [assumption |]. apply rmap_ok in Hr.
  eapply Forall2_impl; [exact Hr |].
  intros [k g] b Hb. unfold monthly_bucket in Hb.
  apply rbind_ok in Hb as (t & _ & Hb). apply rbind_ok in Hb as (me & Hme & Hb).
  apply rbind_ok in Hb as (sm & _ & Hb). injection Hb as <-. simpl. auto.
Qed.

Lemma monthly_counts PROMPT data buckets :
  monthly_summarize generate estimate_tokens PROMPT data = OK buckets ->
  sum_counts (map m_commit_count buckets) = sum_counts (map w_commit_count data).
Proof.
  intros Hr. apply monthly_buckets in Hr as (summaries & Hg & Hb).
  rewrite (bucket_counts w_commit_count m_commit_count summaries buckets)
    by (eapply Forall2_impl; [exact Hb |]; intros ? ? (_ & _ & _ & E); exact E).
  destruct (group_by_spec (fun item => replace_day (w_start_date item) 1)
              w_commit_count data [] summaries Hg) as (_ & _ & _ & Ht).
  - split; [constructor | intros ? ? []].
  - rewrite Ht. reflexivity.
Qed.

End Counts.
End SummarizerFacts.

Module SummarizerClaims.
Import PyDate PyDateFacts DateArithFacts Extractor Normalizer Summarizer.
Import Groups GroupFacts SummarizerFacts Samples Binary64.

Section Claims.
Context {F : Type} `{PyNum F}.
Variable generate : string -> result string.
Variable estimate_tokens : string -> Z.
Variable detect : list string -> list string -> result (@WeightMap F).

(** C3. The commit counts of the daily buckets add up to the number of
    commits in the batches; the counts of the weekly buckets made from them
    and of the monthly buckets made from those add up to the same number. *)
Theorem commit_count_conserved
    (DAILY_PROMPT WEEKLY_PROMPT MONTHLY_PROMPT : string)
    (commits_generator : list (list commit)) (project_context : list string)
    (dailies : list daily_summary) (weeklies : list weekly_summary)
    (monthlies : list monthly_summary) :
  daily_summarize generate estimate_tokens detect DAILY_PROMPT
    commits_generator project_context = OK dailies ->
  weekly_summarize generate estimate_tokens WEEKLY_PROMPT dailies
  = OK weeklies ->
  monthly_summarize generate estimate_tokens MONTHLY_PROMPT weeklies
  = OK monthlies ->
  let N := Z.of_nat (length (concat commits_generator)) in
  sum_counts (map d_commit_count dailies) = N /\
  sum_counts (map w_commit_count weeklies) = N /\
  sum_counts (map m_commit_count monthlies) = N.
Proof.
  intros Hd Hw Hm N.
  apply daily_counts in Hd. apply weekly_counts in Hw.
  apply monthly_counts in Hm. subst N. repeat split; congruence.
Qed.

(** C7. The weekly aggregation puts every daily bucket in the group of the
    Monday on or before its date; every weekly bucket it produces belongs
    to one of these groups, starts on that Monday and ends six days later,
    on the Sunday; a Sunday and the Monday after it are in different
    groups. *)
Theorem weekly_buckets_run_monday_to_sunday
    (PROMPT : string) (data : list daily_summary) :
  Forall (fun item => valid_date (d_date item)) data ->
  exists summaries,
    weekly_groups data = OK summaries /\
    NoDup (dict_keys summaries) /\
    (forall item, In item data ->
       exists monday group,
         week_start_of (d_date item) = OK monday /\
         dict_get monday summaries = Some group /\ In item group /\
         weekday monday = 0 /\
         toordinal monday <= toordinal (d_date item) <= toordinal monday + 6) /\
    (forall buckets,
       weekly_summarize generate estimate_tokens PROMPT data = OK buckets ->
       map w_start_date buckets = dict_keys summaries /\
       Forall (fun b =>
                 weekday (w_start_date b) = 0 /\
                 valid_date (w_end_date b) /\
                 toordinal (w_end_date b) = toordinal (w_start_date b) + 6 /\
                 weekday (w_end_date b) = 6) buckets) /\
    (forall sunday monday,
       In sunday data -> In monday data ->
       weekday (d_date sunday) = 6 ->
       toordinal (d_date monday) = toordinal (d_date sunday) + 1 ->
       week_start_of (d_date sunday) <> week_start_of (d_date monday)).
Proof.
  intros Hvalid.
  destruct (group_by_total (fun item => week_start_of (d_date item)) data [])
    as [summaries Hg].
  { eapply Forall_impl; [exact Hvalid |]. simpl. intros item Hv.
    destruct (week_start_of_ok _ Hv) as (ws & E & _). eauto. }
  exists summaries. split; [exact Hg |].
  destruct (group_by_spec (fun item => week_start_of (d_date item))
              d_commit_count data [] summaries Hg)
    as ([Hnd Hkeys] & Hin & _ & _);
    [split; [constructor | intros ? ? []] |].
  split; [exact Hnd |]. split; [| split].
  - intros item Hitem. destruct (Hin item Hitem) as (k & g & Hk & Hget & Hmem).
    exists k, g. pose proof (week_start_of_inv _ _ Hk) as (_ & Hw & Ho).
    pose proof (weekday_range (d_date item)). repeat split; auto; lia.
  - intros buckets Hb. apply weekly_buckets in Hb as (summaries' & Hg' & Hb).
    assert (summaries' = summaries) as ->
      by (unfold weekly_groups in Hg'; congruence).
    split.
    + unfold dict_keys. clear -Hb.
      induction Hb as [| e b l l' (E & _) _ IH]; simpl; [reflexivity |].
      rewrite E, IH. reflexivity.
    + assert (Hmonday : Forall (fun entry : date * list daily_summary =>
                                  weekday entry.1 = 0) summaries).
      { apply Forall_forall. intros [k g] Hkg.
        apply list_elem_of_In in Hkg.
        destruct (Hkeys k g Hkg) as [Hne Hmem].
        destruct g as [| x g]; [congruence |].
        pose proof (Hmem x (or_introl eq_refl)) as Hx.
        apply week_start_of_inv in Hx. simpl. tauto. }
      clear -Hb Hmonday.
      induction Hb as [| e b l l' (E & Hend & _) _ IH]; [constructor |].
      apply Forall_cons in Hmonday as [He Hl].
      constructor; [| apply IH, Hl].
      apply add_days_inv in Hend as (_ & Hv & Ho). rewrite E.
      split; [exact He |]. split; [exact Hv |]. split; [exact Ho |].
      unfold weekday in *. rewrite Ho. Z.div_mod_to_equations. lia.
  - intros a b Ha Hb Hsun Hnext Heq.
    rewrite Forall_forall in Hvalid.
    destruct (week_start_of_ok _ (Hvalid a (proj2 (list_elem_of_In _ _) Ha)))
      as (wa & Ea & _ & _ & Oa).
    destruct (week_start_of_ok _ (Hvalid b (proj2 (list_elem_of_In _ _) Hb)))
      as (wb & Eb & _ & _ & Ob).
    rewrite Ea, Eb in Heq. injection Heq as ->.
    unfold weekday in *. rewrite Hnext in Ob. Z.div_mod_to_equations. lia.
Qed.

Lemma replace_day_inv d k d' :
  replace_day d k = OK d' ->
  d' = mkdate (year d) (month d) k /\ valid_date d'.
Proof.
  unfold replace_day.
  destruct (valid_dateb (mkdate (year d) (month d) k)) eqn:E; [| discriminate].
  intros [= <-]. split; [reflexivity |]. apply valid_dateb_spec, E.
Qed.

(** The rollover rule away from December 9999: the end date is the last
    day of the month of the start date: the 31st, the 30th, or the 28th or
    29th of February, the day before the first of the next month.  Weekly
    buckets are grouped under the first day of the month of their start
    date, so that different months give different monthly buckets, and
    every monthly bucket produced starts on the first and ends on the last
    day of its month. *)
Theorem monthly_buckets_span_the_month
    (PROMPT : string) (d : date) (data : list weekly_summary) :
  valid_date d ->
  (year d =? 9999) && (month d =? 12) = false ->
  Forall (fun item => valid_date (w_start_date item)) data ->
  let last := mkdate (year d) (month d) (days_in_month (year d) (month d)) in
  (last_day_of_month d = OK last /\
   valid_date last /\
   toordinal (next_month_start (year d) (month d)) = toordinal last + 1 /\
   day last = match month d with
              | 2 => if is_leap (year d) then 29 else 28
              | 4 | 6 | 9 | 11 => 30
              | _ => 31
              end) /\
  exists summaries,
    monthly_groups data = OK summaries /\
    NoDup (dict_keys summaries) /\
    (forall item, In item data ->
       exists group,
         dict_get (mkdate (year (w_start_date item))
                          (month (w_start_date item)) 1) summaries
         = Some group /\ In item group) /\
    (forall a b : @weekly_summary F,
       (year (w_start_date a), month (w_start_date a))
       <> (year (w_start_date b), month (w_start_date b)) ->
       mkdate (year (w_start_date a)) (month (w_start_date a)) 1
       <> mkdate (year (w_start_date b)) (month (w_start_date b)) 1) /\
    (forall buckets,
       monthly_summarize generate estimate_tokens PROMPT data = OK buckets ->
       map m_start_date buckets = dict_keys summaries /\
       Forall (fun b =>
                 day (m_start_date b) = 1 /\
                 m_end_date b
                 = mkdate (year (m_start_date b)) (month (m_start_date b))
                     (days_in_month (year (m_start_date b))
                                    (month (m_start_date b)))) buckets).
Proof.
  intros Hv Hnot Hvalid last. split.
  - rewrite (last_day_of_month_spec d Hv), Hnot.
    pose proof Hv as (Hy & Hm & Hd).
    pose proof (days_in_month_range (year d) (month d) Hm) as HD.
    split; [reflexivity |]. split; [| split].
    + unfold valid_date, last. simpl. lia.
    + apply toordinal_next_month, Hm.
    + unfold last, days_in_month. simpl. clear -Hm.
      destruct (is_leap (year d)); destruct d as [y m dd]; simpl in *;
        month_cases m; reflexivity.
  - destruct (group_by_total (fun item => replace_day (w_start_date item) 1)
                data []) as [summaries Hg].
    { eapply Forall_impl; [exact Hvalid |]. simpl. intros item Hi.
      destruct (replace_day_ok _ 1 Hi) as [E _]; [| eauto].
      destruct Hi as (_ & Hm & _).
      pose proof (days_in_month_range (year (w_start_date item)) _ Hm). lia. }
    exists summaries. split; [exact Hg |].
    destruct (group_by_spec (fun item => replace_day (w_start_date item) 1)
                w_commit_count data [] summaries Hg)
      as ([Hnd Hkeys] & Hin & _ & _);
      [split; [constructor | intros ? ? []] |].
    split; [exact Hnd |]. split; [| split].
    + intros item Hitem.
      destruct (Hin item Hitem) as (k & g & Hk & Hget & Hmem).
      apply replace_day_inv in Hk as [-> _]. eauto.
    + intros a b Hab E. injection E as Ey Em. apply Hab. congruence.
    + intros buckets Hb. apply monthly_buckets in Hb as (summaries' & Hg' & Hb).
      assert (summaries' = summaries) as ->
        by (unfold monthly_groups in Hg'; congruence).
      split.
      * unfold dict_keys. clear -Hb.
        induction Hb as [| e b l l' (E & _) _ IH]; simpl; [reflexivity |].
        rewrite E, IH. reflexivity.
      * assert (Hfirst : Forall (fun entry : date * list weekly_summary =>
                                   valid_date entry.1 /\ day entry.1 = 1)
                           summaries).
        { apply Forall_forall. intros [k g] Hkg.
          apply list_elem_of_In in Hkg.
          destruct (Hkeys k g Hkg) as [Hne Hmem].
          destruct g as [| x g]; [congruence |].
          pose proof (Hmem x (or_introl eq_refl)) as Hx.
          apply replace_day_inv in Hx as [-> Hx]. simpl. auto. }
        clear -Hb Hfirst.
        induction Hb as [| e b l l' (E & _ & Hend & _) _ IH]; [constructor |].
        apply Forall_cons in Hfirst as [[He1 He2] Hl].
        constructor; [| apply IH, Hl].
        rewrite E. split; [exact He2 |].
        rewrite (last_day_of_month_spec _ He1) in Hend.
        destruct ((year e.1 =? 9999) && (month e.1 =? 12)); congruence.
Qed.

End Claims.

Lemma commit_count_conserved_witness :
  sum_counts (map d_commit_count sample_dailies) = 4 /\
  sum_counts (map w_commit_count sample_weeklies) = 4 /\
  sum_counts (map m_commit_count sample_monthlies) = 4.
Proof.
  apply (commit_count_conserved sample_generate sample_estimate_tokens
           sample_detect "[MESSAGES]" "[MESSAGES]" "[MESSAGES]"
           sample_batches [] sample_dailies sample_weeklies sample_monthlies);
    vm_compute; reflexivity.
Defined.

Lemma sample_dailies_valid :
  Forall (fun item => valid_date (d_date item)) sample_dailies.
Proof.
  repeat apply Forall_cons_2; try apply List.Forall_nil;
    apply valid_dateb_spec; reflexivity.
Defined.

Lemma weekly_buckets_run_monday_to_sunday_witness :
  weekly_summarize sample_generate sample_estimate_tokens "[MESSAGES]"
    sample_dailies = OK sample_weeklies /\
  map w_start_date sample_weeklies = [mkdate 2024 2 26; mkdate 2024 3 4] /\
  Forall (fun b =>
            weekday (w_start_date b) = 0 /\
            valid_date (w_end_date b) /\
            toordinal (w_end_date b) = toordinal (w_start_date b) + 6 /\
            weekday (w_end_date b) = 6) sample_weeklies.
Proof.
  destruct (weekly_buckets_run_monday_to_sunday sample_generate
              sample_estimate_tokens "[MESSAGES]" sample_dailies
              sample_dailies_valid) as (summaries & Hg & _ & _ & Hbuckets & _).
  assert (Hrun : weekly_summarize sample_generate sample_estimate_tokens
                   "[MESSAGES]" sample_dailies = OK sample_weeklies)
    by (vm_compute; reflexivity).
  destruct (Hbuckets sample_weeklies Hrun) as [_ Hall].
  split; [exact Hrun |]. split; [reflexivity | exact Hall].
Defined.

Lemma sample_weeklies_valid :
  Forall (fun item => valid_date (w_start_date item)) sample_weeklies.
Proof.
  repeat apply Forall_cons_2; try apply List.Forall_nil;
    apply valid_dateb_spec; reflexivity.
Defined.

Lemma monthly_buckets_span_the_month_witness :
  last_day_of_month (mkdate 2024 2 1) = OK (mkdate 2024 2 29) /\
  exists summaries, monthly_groups sample_weeklies = OK summaries.
Proof.
  destruct (monthly_buckets_span_the_month sample_generate
              sample_estimate_tokens "[MESSAGES]" (mkdate 2024 2 1)
              sample_weeklies)
    as ((Hlast & _) & summaries & Hg & _);
    [apply valid_dateb_spec; reflexivity | reflexivity
    | exact sample_weeklies_valid |].
  split; [exact Hlast | exists summaries; exact Hg].
Defined.

(** C8. The end date of a monthly bucket is to be the last day of the month
    of its start date, and [_last_day_of_month] is documented to return the
    last day of the month of a given date.  For December 9999 it does not:
    31 December 9999 is a date, but the rollover passes through the fourth
    day after the 28th, which is outside the range of [date], and raises
    [OverflowError]; the monthly aggregation of a week of that month raises
    with it.  (For every other month the rule gives the last day, as
    [monthly_buckets_span_the_month] shows.) *)
Theorem last_day_of_month_december_9999 :
  valid_date (mkdate 9999 12 1) /\
  valid_date (mkdate 9999 12 31) /\
  days_in_month 9999 12 = 31 /\
  last_day_of_month (mkdate 9999 12 1) = Raise OverflowError /\
  last_day_of_month (mkdate 9999 12 1) <> OK (mkdate 9999 12 31) /\
  weekday (w_start_date MoreSamples.late_weekly) = 0 /\
  monthly_groups [MoreSamples.late_weekly]
  = OK [(mkdate 9999 12 1, [MoreSamples.late_weekly])] /\
  monthly_summarize sample_generate sample_estimate_tokens "[MESSAGES]"
    [MoreSamples.late_weekly]
  = Raise OverflowError.
Proof.
  split; [apply valid_dateb_spec; reflexivity |].
  split; [apply valid_dateb_spec; reflexivity |].
  split; [reflexivity |].
  split; [reflexivity |].
  split; [discriminate |].
  split; [reflexivity |].
  split; vm_compute; reflexivity.
Qed.

End SummarizerClaims.

(** ** Sorting *)

Module SortFacts.

Section Insert.
Context {A : Type} (lt : A -> A -> bool).

Lemma sort_insert_perm (x : A) (l : list A) :
  Permutation (x :: l) (sort_insert lt x l).
Proof.
  induction l as [| y l IH]; simpl; [reflexivity |].
  destruct (lt y x); [| reflexivity].
  rewrite perm_swap. constructor. exact IH.
Qed.

Lemma py_sorted_perm (l : list A) : Permutation l (py_sorted lt l).
Proof.
  induction l as [| x l IH]; simpl; [reflexivity |].
  rewrite <- sort_insert_perm. constructor. exact IH.
Qed.

Lemma py_sorted_rev_fold (l : list A) :
  py_sorted lt (rev l) = fold_left (fun acc x => sort_insert lt x acc) l [].
Proof. unfold py_sorted. apply fold_left_rev_right. Qed.

(** An element above all the others goes last. *)
Lemma sort_insert_last (x : A) (l : list A) :
  (forall y, In y l -> lt y x = true) -> sort_insert lt x l = l ++ [x].
Proof.
  induction l as [| y l IH]; intros Hall; simpl; [reflexivity |].
  rewrite (Hall y) by (left; reflexivity).
  rewrite IH by (intros z Hz; apply Hall; right; exact Hz). reflexivity.
Qed.

(** An element that is not above the last one goes before it. *)
Lemma sort_insert_before_last (x b : A) (l : list A) :
  lt b x = false -> exists l', sort_insert lt x (l ++ [b]) = l' ++ [b].
Proof.
  intros Hb. induction l as [| y l (l' & IH)]; simpl.
  - rewrite Hb. exists [x]. reflexivity.
  - destruct (lt y x).
    + rewrite IH. exists (y :: l'). reflexivity.
    + exists (x :: y :: l). reflexivity.
Qed.

(** From here on the elements that are sorted are among those that [lt]
    orders. *)
Variable ordered : A -> Prop.
Hypothesis lt_order : strict_weak_order_on ordered lt.

Lemma first_largest_singleton (x : A) : ordered x -> first_largest lt [x] x.
Proof.
  intros Hx. exists [], []. split; [reflexivity |]. split; [intros ? [] |].
  intros y [<- | []]. apply (swo_irrefl _ _ lt_order), Hx.
Qed.

Lemma first_largest_In (l : list A) (b : A) : first_largest lt l b -> In b l.
Proof.
  intros (before & after & -> & _). apply in_or_app. right. left. reflexivity.
Qed.

Lemma first_largest_snoc_above (l : list A) (b x : A) :
  (forall y, In y (l ++ [x]) -> ordered y) ->
  first_largest lt l b -> lt b x = true -> first_largest lt (l ++ [x]) x.
Proof.
  intros Hord Hb Hbx. pose proof (first_largest_In _ _ Hb) as Hbl.
  destruct Hb as (before & after & -> & Hbefore & Hmax).
  assert (Hox : ordered x)
    by (apply Hord, in_or_app; right; left; reflexivity).
  assert (Hol : forall y, In y (before ++ b :: after) -> ordered y)
    by (intros y Hy; apply Hord, in_or_app; left; exact Hy).
  assert (Hbelow : forall y, In y (before ++ b :: after) -> lt y x = true).
  { intros y Hy.
    destruct (swo_negtrans _ _ lt_order b y x (Hol b Hbl) (Hol y Hy) Hox Hbx)
      as [Hby | Hyx]; [| exact Hyx].
    rewrite (Hmax y Hy) in Hby. discriminate. }
  exists (before ++ b :: after), []. split; [reflexivity |].
  split; [exact Hbelow |].
  intros y Hy.
  apply in_app_or in Hy as [Hy | [<- | []]];
    [| apply (swo_irrefl _ _ lt_order), Hox].
  destruct (lt x y) eqn:E; [| reflexivity].
  pose proof (swo_trans _ _ lt_order _ _ _ (Hol y Hy) Hox (Hol y Hy)
                (Hbelow y Hy) E) as Hyy.
  rewrite (swo_irrefl _ _ lt_order y (Hol y Hy)) in Hyy. discriminate.
Qed.

Lemma first_largest_snoc_keep (l : list A) (b x : A) :
  first_largest lt l b -> lt b x = false -> first_largest lt (l ++ [x]) b.
Proof.
  intros (before & after & -> & Hbefore & Hmax) Hbx.
  exists before, (after ++ [x]). split; [rewrite <- app_assoc; reflexivity |].
  split; [exact Hbefore |].
  intros y Hy. apply in_app_or in Hy as [Hy | [<- | []]]; auto.
Qed.

(** Inserting the elements of a list one after the other leaves the first
    of the largest in the last place. *)
Lemma fold_insert_last (rest seen acc : list A) (b : A) :
  (forall y, In y (seen ++ rest) -> ordered y) ->
  first_largest lt seen b ->
  (forall y, In y (acc ++ [b]) -> In y seen) ->
  exists acc' b',
    fold_left (fun acc x => sort_insert lt x acc) rest (acc ++ [b])
    = acc' ++ [b'] /\
    first_largest lt (seen ++ rest) b'.
Proof.
  revert seen acc b.
  induction rest as [| x rest IH]; intros seen acc b Hord Hb Hin.
  - exists acc, b. rewrite app_nil_r. split; [reflexivity | exact Hb].
  - simpl fold_left.
    assert (Hsplit : seen ++ x :: rest = (seen ++ [x]) ++ rest)
      by (rewrite <- app_assoc; reflexivity).
    rewrite Hsplit in Hord |- *.
    assert (Hord' : forall y, In y (seen ++ [x]) -> ordered y)
      by (intros y Hy; apply Hord, in_or_app; left; exact Hy).
    destruct (lt b x) eqn:Hbx.
    + rewrite sort_insert_last.
      * apply IH;
          [exact Hord | eapply first_largest_snoc_above; eassumption |].
        intros y Hy. apply in_app_or in Hy as [Hy | [<- | []]];
          apply in_or_app; [left; apply Hin, Hy | right; left; reflexivity].
      * intros y Hy. pose proof (first_largest_In _ _ Hb) as Hbl.
        destruct Hb as (before & after & -> & _ & Hmax).
        assert (Hos : forall z, In z (before ++ b :: after) -> ordered z)
          by (intros z Hz; apply Hord', in_or_app; left; exact Hz).
        assert (Hox : ordered x)
          by (apply Hord', in_or_app; right; left; reflexivity).
        destruct (swo_negtrans _ _ lt_order b y x (Hos b Hbl)
                    (Hos y (Hin y Hy)) Hox Hbx)
          as [Hby | Hyx]; [| exact Hyx].
        rewrite (Hmax y (Hin y Hy)) in Hby. discriminate.
    + destruct (sort_insert_before_last x b acc Hbx) as (acc' & E).
      rewrite E.
      apply IH; [exact Hord | apply first_largest_snoc_keep; assumption |].
      intros y Hy. apply in_or_app.
      assert (Hy' : In y (sort_insert lt x (acc ++ [b]))) by (rewrite E; exact Hy).
      apply (Permutation_in _ (Permutation_sym (sort_insert_perm x (acc ++ [b]))))
        in Hy' as [<- | Hy']; [right; left; reflexivity | left; apply Hin, Hy'].
Qed.

(** [sorted(l, reverse=True)[0]] is the first of the largest elements. *)
Lemma py_sorted_reverse_head (l : list A) :
  (forall y, In y l -> ordered y) ->
  l <> [] ->
  exists x tail, py_sorted_reverse lt l = x :: tail /\ first_largest lt l x.
Proof.
  destruct l as [| x0 l]; [congruence |]. intros Hord _.
  unfold py_sorted_reverse. rewrite py_sorted_rev_fold. simpl fold_left.
  destruct (fold_insert_last l [x0] [] x0) as (acc' & b' & E & Hb');
    [exact Hord
    | apply first_largest_singleton, Hord; left; reflexivity
    | intros y Hy; exact Hy |].
  simpl app in E. rewrite E. exists b', (rev acc').
  split; [rewrite rev_app_distr; reflexivity | exact Hb'].
Qed.

End Insert.
End SortFacts.

(** ** The consolidation of weights *)

Module NormalizerFacts.
Import Normalizer Groups GroupFacts SortFacts.

Section MapValues.
Context {K V V' : Type} `{EqDecision K} (f : V -> V').

Lemma dict_get_map_values (k : K) (d : list (K * V)) :
  dict_get k (map (fun item => (item.1, f item.2)) d) = f <$> dict_get k d.
Proof.
  induction d as [| [k' v] d IH]; simpl; [reflexivity |].
  destruct (decide (k = k')); [reflexivity | exact IH].
Qed.

Lemma dict_keys_map_values (d : list (K * V)) :
  dict_keys (map (fun item => (item.1, f item.2)) d) = dict_keys d.
Proof.
  unfold dict_keys. rewrite map_map. apply map_ext. intros [k v]. reflexivity.
Qed.
End MapValues.

Lemma dict_get_perm {K V : Type} `{EqDecision K} (k : K) (d d' : list (K * V)) :
  Permutation d d' -> NoDup (dict_keys d) -> dict_get k d' = dict_get k d.
Proof.
  intros Hp Hnd.
  assert (Hnd' : NoDup (dict_keys d'))
    by (unfold dict_keys in *; rewrite <- Hp; exact Hnd).
  destruct (dict_get k d) as [v |] eqn:E.
  - apply dict_In_get; [exact Hnd' |].
    apply (Permutation_in _ Hp), dict_get_In, E.
  - destruct (dict_get k d') as [v |] eqn:E'; [| reflexivity].
    apply dict_get_In in E'. apply (Permutation_in _ (Permutation_sym Hp)) in E'.
    apply dict_In_get in E'; [congruence | exact Hnd].
Qed.

Lemma sort_insert_map {A B : Type} (lt : B -> B -> bool) (g : A -> B)
    (x : A) (l : list A) :
  sort_insert lt (g x) (map g l)
  = map g (sort_insert (fun a b => lt (g a) (g b)) x l).
Proof.
  induction l as [| y l IH]; simpl; [reflexivity |].
  destruct (lt (g y) (g x)); simpl; [rewrite IH |]; reflexivity.
Qed.

Lemma py_sorted_reverse_map {A B : Type} (lt : B -> B -> bool) (g : A -> B)
    (l : list A) :
  py_sorted_reverse lt (map g l)
  = map g (py_sorted_reverse (fun a b => lt (g a) (g b)) l).
Proof.
  unfold py_sorted_reverse. rewrite <- map_rev.
  rewrite (map_rev g (py_sorted _ (rev l))). f_equal.
  unfold py_sorted. induction (rev l) as [| x m IH]; simpl; [reflexivity |].
  rewrite IH. apply sort_insert_map.
Qed.

Section Facts.
Context {F : Type} `{PyNum F}.

Lemma add_weight_NoDup (tw : WeightMap) (item : string * F) :
  NoDup (dict_keys tw) -> NoDup (dict_keys (add_weight tw item)).
Proof.
  destruct item as [tech weight]. unfold add_weight.
  destruct (dict_get tech tw); apply dict_set_NoDup.
Qed.

Lemma collect_weights_NoDup (group : list WeightMap) :
  NoDup (dict_keys (collect_weights group)).
Proof.
  unfold collect_weights.
  assert (Hin : forall technologies (tw : WeightMap),
             NoDup (dict_keys tw) ->
             NoDup (dict_keys (fold_left add_weight technologies tw))).
  { induction technologies as [| item l IH]; intros tw Hnd; simpl;
      [exact Hnd | apply IH, add_weight_NoDup, Hnd]. }
  assert (Hout : forall (group : list WeightMap) (tw : WeightMap),
             NoDup (dict_keys tw) ->
             NoDup (dict_keys
                      (fold_left (fun tw technologies =>
                                    fold_left add_weight technologies tw)
                                 group tw))).
  { induction group0 as [| technologies group0 IH]; intros tw Hnd; simpl;
      [exact Hnd | apply IH, Hin, Hnd]. }
  apply Hout. constructor.
Qed.

Lemma compute_percentages_keys (tw : WeightMap) (total : F) (pct : WeightMap) :
  compute_percentages tw total = OK pct -> dict_keys pct = dict_keys tw.
Proof.
  unfold compute_percentages. intros Hr. apply rmap_ok in Hr.
  unfold dict_keys. induction Hr as [| [t w] [t' p] l l' Hx _ IH]; simpl;
    [reflexivity |].
  apply rbind_ok in Hx as (q & _ & Hx). injection Hx as <- <-.
  rewrite IH. reflexivity.
Qed.

(** With a non-zero total no division raises. *)
Lemma compute_percentages_total (tw : WeightMap) (total : F) :
  num_eqb total num_zero = false ->
  exists pct, compute_percentages tw total = OK pct.
Proof.
  intros Hz. unfold compute_percentages. apply rmap_total.
  apply Forall_forall. intros [t w] _. unfold py_div. rewrite Hz. simpl. eauto.
Qed.

(** With a zero total the first division raises. *)
Lemma compute_percentages_zero (tw : WeightMap) (total : F) :
  num_eqb total num_zero = true -> tw <> [] ->
  compute_percentages tw total = Raise ZeroDivisionError.
Proof.
  intros Hz Hne. destruct tw as [| [t w] tw]; [congruence |].
  unfold compute_percentages, py_div. simpl. rewrite Hz. reflexivity.
Qed.

Lemma decimal_diff_ok (p d : F) :
  decimal_diff p = OK d -> d = fractional_remainder p.
Proof.
  unfold decimal_diff. intros Hd.
  apply rbind_ok in Hd as (floored & Hf & Hd). injection Hd as <-.
  unfold py_floor in Hf.
  destruct (num_is_inf _); [discriminate |].
  destruct (num_is_nan _); [discriminate |].
  injection Hf as <-. reflexivity.
Qed.

Lemma decimal_diffs_ok (percentages dd : WeightMap) :
  decimal_diffs percentages = OK dd ->
  dd = map (fun item => (item.1, fractional_remainder item.2)) percentages.
Proof.
  unfold decimal_diffs. intros Hr. apply rmap_ok in Hr.
  induction Hr as [| [t p] [t' d] l l' Hx _ IH]; simpl; [reflexivity |].
  apply rbind_ok in Hx as (d' & Hd & Hx). injection Hx as <- <-.
  rewrite (decimal_diff_ok _ _ Hd), IH. reflexivity.
Qed.

(** When the remainders are computed, no floor has raised. *)
Lemma decimal_diffs_floor (percentages dd : WeightMap) (p : F) :
  decimal_diffs percentages = OK dd -> In p (dict_values percentages) ->
  num_is_inf (num_mul p num_hundred) = false /\
  num_is_nan (num_mul p num_hundred) = false.
Proof.
  unfold decimal_diffs. intros Hr Hin. apply rmap_ok in Hr.
  induction Hr as [| [t q] [t' d] l l' Hx _ IH]; [destruct Hin |].
  destruct Hin as [<- | Hin]; [| apply IH, Hin].
  apply rbind_ok in Hx as (d' & Hd & _). unfold decimal_diff in Hd.
  apply rbind_ok in Hd as (floored & Hf & _). unfold py_floor in Hf.
  simpl. destruct (num_is_inf _); [discriminate |].
  destruct (num_is_nan _); [discriminate | auto].
Qed.

(** The comparison of two items by their remainders orders the items whose
    remainders are ordered. *)
Lemma remainder_order `{!PyNumOrder F} :
  strict_weak_order_on
    (fun x : string * F => num_ordered (fractional_remainder x.2))
    (fun x y =>
       num_ltb (fractional_remainder x.2) (fractional_remainder y.2)).
Proof.
  destruct num_ltb_order as [Hi Ht Hn]. split.
  - intros x. apply Hi.
  - intros x y z. apply Ht.
  - intros x y z. apply Hn.
Qed.

(** What the adjustment returns. *)
Lemma adjust_spec `{!PyNumOrder F} (percentages adjusted : WeightMap) :
  NoDup (dict_keys percentages) ->
  (forall dd, decimal_diffs percentages = OK dd ->
     forall p, In p (dict_values percentages) ->
               num_ordered (fractional_remainder p)) ->
  adjust percentages (round_percentages percentages) = OK adjusted ->
  let rounded := round_percentages percentages in
  let current_sum := py_sum (dict_values rounded) in
  if num_eqb current_sum num_hundred then adjusted = rounded
  else
    exists t0 p0,
      first_largest
        (fun x y =>
           num_ltb (fractional_remainder x.2) (fractional_remainder y.2))
        percentages (t0, p0) /\
      adjusted
      = dict_set t0 (num_add (num_round2 p0) (num_sub num_hundred current_sum))
          rounded.
Proof.
  intros Hnd Hord Ha rounded current_sum. unfold adjust in Ha.
  fold rounded current_sum in Ha.
  destruct (num_eqb current_sum num_hundred); simpl in Ha;
    [congruence |].
  apply rbind_ok in Ha as (dd & Hdd & Ha). specialize (Hord dd Hdd).
  apply decimal_diffs_ok in Hdd. subst dd.
  assert (Hne : percentages <> []).
  { intros ->. discriminate. }
  destruct (py_sorted_reverse_head
              (fun x y : string * F =>
                 num_ltb (fractional_remainder x.2)
                         (fractional_remainder y.2))
              (fun x : string * F => num_ordered (fractional_remainder x.2))
              remainder_order percentages)
    as ([t0 p0] & tail & Hs & Hfirst); [| exact Hne |].
  { intros [t p] Hy. apply Hord. unfold dict_values.
    apply (in_map snd) in Hy. exact Hy. }
  assert (Hst : sorted_techs
                  (map (fun item : string * F =>
                          (item.1, fractional_remainder item.2))
                       percentages)
                = t0 :: dict_keys
                          (map (fun item : string * F =>
                                  (item.1, fractional_remainder item.2)) tail)).
  { unfold sorted_techs.
    rewrite (py_sorted_reverse_map
               (fun x y : string * F => num_ltb x.2 y.2)
               (fun item : string * F => (item.1, fractional_remainder item.2))
               percentages).
    simpl. rewrite Hs. reflexivity. }
  rewrite Hst in Ha.
  assert (Hget : dict_get t0 rounded = Some (num_round2 p0)).
  { unfold rounded, round_percentages. rewrite dict_get_map_values.
    destruct Hfirst as (before & after & E & _).
    rewrite (dict_In_get t0 p0 percentages Hnd)
      by (rewrite E; apply in_or_app; right; left; reflexivity).
    reflexivity. }
  rewrite Hget in Ha. injection Ha as <-. exists t0, p0. auto.
Qed.

Lemma py_floor_raises (x : F) (e : py_error) :
  py_floor x = Raise e -> e = OverflowError \/ e = ValueError.
Proof.
  unfold py_floor. destruct (num_is_inf x); [intros [= <-]; auto |].
  destruct (num_is_nan x); [intros [= <-]; auto | discriminate].
Qed.

Lemma decimal_diffs_raises (percentages : WeightMap) (e : py_error) :
  decimal_diffs percentages = Raise e -> e = OverflowError \/ e = ValueError.
Proof.
  unfold decimal_diffs.
  induction percentages as [| [t p] l IH]; simpl; [discriminate |].
  unfold decimal_diff at 1.
  destruct (py_floor (num_mul p num_hundred)) as [floored | e'] eqn:Hf; simpl.
  - destruct (rmap _ l) as [ys | e'']; simpl; [discriminate |].
    intros [= <-]. apply IH. reflexivity.
  - intros [= <-]. eapply py_floor_raises, Hf.
Qed.

(** After the percentages are computed nothing divides any more. *)
Lemma adjust_no_division (percentages rounded : @WeightMap F)
    (k : @WeightMap F -> result (@WeightMap F)) :
  (forall adjusted, k adjusted <> Raise ZeroDivisionError) ->
  (let! adjusted := adjust percentages rounded in k adjusted)
  <> Raise ZeroDivisionError.
Proof.
  intros Hk. unfold adjust.
  destruct (negb _); simpl; [| apply Hk].
  destruct (decimal_diffs percentages) as [dd | e] eqn:Hdd; simpl.
  - destruct (sorted_techs dd) as [| t0 ?]; simpl; [discriminate |].
    destruct (dict_get t0 rounded); simpl; [apply Hk | discriminate].
  - apply decimal_diffs_raises in Hdd as [-> | ->]; discriminate.
Qed.

Lemma sorted_items_get (tech : string) (d : @WeightMap F) :
  NoDup (dict_keys d) -> dict_get tech (sorted_items d) = dict_get tech d.
Proof.
  intros Hnd. unfold sorted_items. apply dict_get_perm; [| exact Hnd].
  apply py_sorted_perm.
Qed.

Lemma weekly_consolidate_inv (group : list (@WeightMap F))
    (result : @WeightMap F) :
  weekly_consolidate_technologies group = OK result ->
  exists percentages adjusted,
    compute_percentages (collect_weights group)
      (py_sum (dict_values (collect_weights group))) = OK percentages /\
    adjust percentages (round_percentages percentages) = OK adjusted /\
    result = sorted_items adjusted.
Proof.
  unfold weekly_consolidate_technologies. intros Hr.
  apply rbind_ok in Hr as (pct & Hp & Hr).
  apply rbind_ok in Hr as (adj & Ha & Hr). injection Hr as <-. eauto.
Qed.

Lemma monthly_consolidate_inv (group : list (@WeightMap F))
    (result : @WeightMap F) :
  num_eqb (py_sum (dict_values (collect_weights group))) num_zero = false ->
  monthly_consolidate_technologies group = OK result ->
  exists percentages adjusted,
    compute_percentages (collect_weights group)
      (py_sum (dict_values (collect_weights group))) = OK percentages /\
    adjust percentages (round_percentages percentages) = OK adjusted /\
    result = sorted_items adjusted.
Proof.
  unfold monthly_consolidate_technologies. intros Hz Hr. rewrite Hz in Hr.
  apply rbind_ok in Hr as (pct & Hp & Hr).
  apply rbind_ok in Hr as (adj & Ha & Hr). injection Hr as <-. eauto.
Qed.

(** The monthly consolidation of weights that add up to zero is the empty
    map. *)
Lemma monthly_consolidate_zero (group : list (@WeightMap F)) :
  num_eqb (py_sum (dict_values (collect_weights group))) num_zero = true ->
  monthly_consolidate_technologies group = OK [].
Proof.
  unfold monthly_consolidate_technologies. intros ->. reflexivity.
Qed.

End Facts.
End NormalizerFacts.

(** ** The order of the floats *)

Module Binary64Facts.
Import Binary64.

Lemma SFltb_key (x y : spec_float) :
  x <> S754_nan -> y <> S754_nan ->
  SFltb x y = true <-> key_lt (order_key x) (order_key y).
Proof.
  intros Hx Hy. unfold SFltb, key_lt.
  destruct x as [sx | sx | | sx mx ex], y as [sy | sy | | sy my ey];
    try congruence; try destruct sx; try destruct sy; simpl;
    try (split; intros; solve [reflexivity | discriminate | lia]).
  - change (Pos.compare_cont Eq mx my) with (Pos.compare mx my).
    destruct (Z.compare_spec ex ey), (Pos.compare_spec mx my); simpl;
      split; intros; solve [reflexivity | discriminate | lia].
  - change (Pos.compare_cont Eq mx my) with (Pos.compare mx my).
    destruct (Z.compare_spec ex ey), (Pos.compare_spec mx my); simpl;
      split; intros; solve [reflexivity | discriminate | lia].
Qed.

Lemma is_nan_false (x : float) :
  PrimFloat.is_nan x = false -> Prim2SF x <> S754_nan.
Proof.
  unfold PrimFloat.is_nan. rewrite FloatAxioms.eqb_spec. intros Hn E.
  rewrite E in Hn. discriminate.
Qed.

Lemma ltb_key (x y : float) :
  PrimFloat.is_nan x = false -> PrimFloat.is_nan y = false ->
  PrimFloat.ltb x y = true
  <-> key_lt (order_key (Prim2SF x)) (order_key (Prim2SF y)).
Proof.
  intros Hx Hy. rewrite ltb_spec. apply SFltb_key; apply is_nan_false; assumption.
Qed.

(** *** No NaN among the remainders

    Rounding a mantissa that is not negative never gives NaN; so the
    difference of two finite floats, the quotient of a float by a finite
    one and the float of an integer are not NaN, and neither is the
    remainder of a percentage whose floor is taken without an exception. *)

Lemma shr_1_nonneg mrs : 0 <= shr_m mrs -> 0 <= shr_m (shr_1 mrs).
Proof.
  destruct mrs as [m r s]. simpl. destruct m as [| [p | p |] | p]; simpl; lia.
Qed.

Lemma iter_pos_inv {A : Type} (P : A -> Prop) (f : A -> A) :
  (forall x, P x -> P (f x)) -> forall n x, P x -> P (SpecFloat.iter_pos f n x).
Proof.
  intros Hf. induction n as [n IH | n IH |]; intros x Hx; simpl; auto.
Qed.

Lemma shr_nonneg mrs e n : 0 <= shr_m mrs -> 0 <= shr_m (shr mrs e n).1.
Proof.
  intros Hm. unfold shr. destruct n as [| p | p]; simpl; try exact Hm.
  apply (iter_pos_inv (fun mrs => 0 <= shr_m mrs));
    [apply shr_1_nonneg | exact Hm].
Qed.

Lemma shr_fexp_nonneg m e l :
  0 <= m -> 0 <= shr_m (shr_fexp prec emax m e l).1.
Proof.
  intros Hm. unfold shr_fexp. apply shr_nonneg.
  destruct l as [| []]; exact Hm.
Qed.

Lemma round_nearest_even_nonneg mx lx :
  0 <= mx -> 0 <= round_nearest_even mx lx.
Proof.
  intros Hm. destruct lx as [| []]; simpl; try lia.
  destruct (Z.even mx); lia.
Qed.

Lemma binary_round_aux_not_nan sx mx ex lx :
  0 <= mx -> binary_round_aux prec emax sx mx ex lx <> S754_nan.
Proof.
  intros Hm. unfold binary_round_aux.
  pose proof (shr_fexp_nonneg mx ex lx Hm) as H1.
  destruct (shr_fexp prec emax mx ex lx) as [mrs' e']. simpl in H1.
  pose proof (shr_fexp_nonneg _ e' loc_Exact
                (round_nearest_even_nonneg _ (loc_of_shr_record mrs') H1))
    as H2.
  destruct (shr_fexp prec emax _ e' loc_Exact) as [mrs'' e'']. simpl in H2.
  destruct (shr_m mrs'') as [| m | m]; [discriminate | | lia].
  destruct (e'' <=? emax - prec); discriminate.
Qed.

Lemma binary_normalize_not_nan m e s :
  binary_normalize prec emax m e s <> S754_nan.
Proof.
  unfold binary_normalize, binary_round.
  destruct m as [| m | m]; [discriminate | |];
    destruct (shl_align _ _ _) as [mz ez]; apply binary_round_aux_not_nan; lia.
Qed.

Lemma SFsub_not_nan x y :
  finite_or_zero x -> y <> S754_nan -> SFsub prec emax x y <> S754_nan.
Proof.
  intros Hx Hy.
  destruct x as [sx | sx | | sx mx ex], y as [sy | sy | | sy my ey];
    try contradiction; try congruence; simpl; try discriminate.
  - destruct sx, sy; discriminate.
  - apply binary_normalize_not_nan.
Qed.

Lemma SFdiv_finite_not_nan x sy my ey :
  x <> S754_nan -> SFdiv prec emax x (S754_finite sy my ey) <> S754_nan.
Proof.
  intros Hx. destruct x as [sx | sx | | sx mx ex]; try congruence; simpl;
    try discriminate.
  unfold SFdiv_core_binary.
  set (m' := match _ with Z0 => _ | Z.pos _ => _ | Z.neg _ => _ end).
  assert (Hm' : 0 <= m').
  { subst m'. destruct (_ - _ - _) as [| s | s]; try lia.
    apply Z.shiftl_nonneg. lia. }
  pose proof (Z.div_eucl_eq m' (Z.pos my) ltac:(lia)) as He.
  pose proof (Z.mod_pos_bound m' (Z.pos my) ltac:(lia)) as Hb.
  unfold Z.modulo in Hb.
  destruct (Z.div_eucl m' (Z.pos my)) as [q r] eqn:E.
  apply binary_round_aux_not_nan. nia.
Qed.

Lemma SFmul_finite_inv x sy my ey :
  finite_or_zero (SFmul prec emax x (S754_finite sy my ey)) -> finite_or_zero x.
Proof. destruct x as [sx | sx | | sx mx ex]; simpl; auto. Qed.

Lemma Prim2SF_nan (x : float) :
  Prim2SF x = S754_nan <-> PrimFloat.is_nan x = true.
Proof.
  unfold Prim2SF. destruct (PrimFloat.is_nan x); [tauto |].
  split; [| discriminate].
  destruct (is_zero x); [discriminate |].
  destruct (is_infinity x); [discriminate |].
  destruct (Z.frexp x) as [r exp].
  destruct (shr_fexp _ _ _ _ _) as [shr e'].
  destruct (shr_m shr); discriminate.
Qed.

Lemma Prim2SF_infinity (x : float) :
  PrimFloat.is_nan x = false -> PrimFloat.is_infinity x = false ->
  finite_or_zero (Prim2SF x).
Proof.
  intros Hn Hi. unfold Prim2SF. rewrite Hn.
  destruct (is_zero x); [exact I |]. rewrite Hi.
  destruct (Z.frexp x) as [r exp].
  destruct (shr_fexp _ _ _ _ _) as [shr e'].
  destruct (shr_m shr); exact I.
Qed.

Lemma of_Z_not_nan (n : Z) : Prim2SF (of_Z n) <> S754_nan.
Proof.
  unfold of_Z. destruct (n <? 0).
  - rewrite opp_spec, of_uint63_spec.
    pose proof (binary_normalize_not_nan
                  (Uint63.to_Z (Uint63.of_Z (- n))) 0 false).
    destruct (binary_normalize _ _ _ _ _); simpl; congruence.
  - rewrite of_uint63_spec. apply binary_normalize_not_nan.
Qed.

Lemma floor_not_nan (x : float) :
  Prim2SF x <> S754_nan -> Prim2SF (floor x) <> S754_nan.
Proof.
  intros Hx. unfold floor.
  destruct (Prim2SF x) as [s | s | | s m e] eqn:E; try (rewrite E; exact Hx).
  - vm_compute. discriminate.
  - destruct (0 <=? e); [rewrite E; discriminate | apply of_Z_not_nan].
Qed.

Lemma remainder_not_nan (p : float) :
  PrimFloat.is_infinity (p * 100)%float = false ->
  PrimFloat.is_nan (p * 100)%float = false ->
  PrimFloat.is_nan (p - floor (p * 100) / 100)%float = false.
Proof.
  intros Hi Hn.
  pose proof (Prim2SF_infinity _ Hn Hi) as Hfz.
  assert (H100 : Prim2SF 100%float = S754_finite false 7036874417766400 (-46))
    by reflexivity.
  rewrite mul_spec, H100 in Hfz. apply SFmul_finite_inv in Hfz.
  destruct (PrimFloat.is_nan (p - _)%float) eqn:En; [| reflexivity].
  apply Prim2SF_nan in En. rewrite sub_spec in En.
  exfalso. revert En. apply SFsub_not_nan; [exact Hfz |].
  rewrite div_spec, H100. apply SFdiv_finite_not_nan.
  apply floor_not_nan. rewrite Prim2SF_nan, Hn. discriminate.
Qed.

(** [<] is a strict weak order on the floats other than NaN. *)
Lemma float_ltb_order :
  strict_weak_order_on (fun x => PrimFloat.is_nan x = false) PrimFloat.ltb.
Proof.
  split.
  - intros x Hx. destruct (PrimFloat.ltb x x) eqn:E; [| reflexivity].
    apply ltb_key in E; [| assumption ..]. unfold key_lt in E. lia.
  - intros x y z Hx Hy Hz. rewrite !ltb_key by assumption.
    unfold key_lt. lia.
  - intros x y z Hx Hy Hz. rewrite !ltb_key by assumption.
    unfold key_lt. lia.
Qed.

#[export] Instance Float_PyNumOrder : PyNumOrder float := {|
  num_ordered := fun x => PrimFloat.is_nan x = false;
  num_ltb_order := float_ltb_order
|}.

End Binary64Facts.

Module NormalizerClaims.
Import Normalizer Groups GroupFacts SortFacts NormalizerFacts Binary64
  Binary64Facts.

(** The adjustment over any numbers: when the rounded percentages do not
    add up to 100 and the remainders that are computed are numbers that
    [<] orders, the whole difference goes to the first of the technologies
    with the largest remainder. *)
Lemma adjusted_is_first_largest_remainder
    {F : Type} `{PyNumOrder F} (group : list (@WeightMap F))
    (result : @WeightMap F) :
  let tech_weights := collect_weights group in
  let total := py_sum (dict_values tech_weights) in
  let remainder := fun p : F =>
    num_sub p (num_div (num_floor (num_mul p num_hundred)) num_hundred) in
  (forall percentages dd p,
      compute_percentages tech_weights total = OK percentages ->
      decimal_diffs percentages = OK dd ->
      In p (dict_values percentages) -> num_ordered (remainder p)) ->
  weekly_consolidate_technologies group = OK result \/
  (num_eqb total num_zero = false /\
   monthly_consolidate_technologies group = OK result) ->
  exists percentages,
    compute_percentages tech_weights total = OK percentages /\
    dict_keys percentages = dict_keys tech_weights /\
    let rounded := round_percentages percentages in
    let current_sum := py_sum (dict_values rounded) in
    let diff := num_sub num_hundred current_sum in
    if num_eqb current_sum num_hundred
    then forall tech, dict_get tech result = dict_get tech rounded
    else
      exists t0 p0,
        first_largest
          (fun x y => num_ltb (remainder x.2) (remainder y.2))
          percentages (t0, p0) /\
        dict_get t0 rounded = Some (num_round2 p0) /\
        dict_get t0 result = Some (num_add (num_round2 p0) diff) /\
        forall tech, tech <> t0 -> dict_get tech result = dict_get tech rounded.
Proof.
  intros tech_weights total remainder Hord Hres.
  assert (Hinv : exists percentages adjusted,
             compute_percentages tech_weights total = OK percentages /\
             adjust percentages (round_percentages percentages) = OK adjusted /\
             result = sorted_items adjusted).
  { destruct Hres as [Hw | [Hz Hm]];
      [apply weekly_consolidate_inv, Hw | apply monthly_consolidate_inv; assumption]. }
  destruct Hinv as (percentages & adjusted & Hp & Ha & ->).
  exists percentages. split; [exact Hp |].
  pose proof (compute_percentages_keys _ _ _ Hp) as Hkeys.
  split; [exact Hkeys |].
  assert (Hnd : NoDup (dict_keys percentages))
    by (rewrite Hkeys; apply collect_weights_NoDup).
  assert (Hndr : NoDup (dict_keys (round_percentages percentages)))
    by (unfold round_percentages; rewrite dict_keys_map_values; exact Hnd).
  pose proof (adjust_spec percentages adjusted Hnd
                (fun dd Hdd p => Hord _ dd p Hp Hdd) Ha) as Hadj.
  cbv zeta in *.
  destruct (num_eqb (py_sum (dict_values (round_percentages percentages)))
              num_hundred).
  - subst adjusted. intros tech. apply sorted_items_get, Hndr.
  - destruct Hadj as (t0 & p0 & Hfirst & ->). exists t0, p0.
    split; [exact Hfirst |].
    assert (Hget : dict_get t0 (round_percentages percentages)
                   = Some (num_round2 p0)).
    { unfold round_percentages. rewrite dict_get_map_values.
      destruct Hfirst as (before & after & E & _).
      rewrite (dict_In_get t0 p0 percentages Hnd)
        by (rewrite E; apply in_or_app; right; left; reflexivity).
      reflexivity. }
    split; [exact Hget |]. split.
    + rewrite sorted_items_get by apply dict_set_NoDup, Hndr.
      apply dict_get_set_eq.
    + intros tech Hne.
      rewrite sorted_items_get by apply dict_set_NoDup, Hndr.
      apply dict_get_set_ne, Hne.
Qed.

(** C4. When the percentages, rounded to two decimals, do not add up to
    100, the whole difference [100 - sum] is added to one technology: the
    first, in the order of the keys of the percentages, which is that of
    the collected weights, of those with the largest remainder
    [p - floor(p * 100) / 100]; the rounded values of all the others are
    returned unchanged.  When they add up to 100 nothing changes.  This is
    so on the floats for every group for which the weekly or the monthly
    consolidation returns. *)
Theorem residual_goes_to_first_largest_remainder
    (group : list (@WeightMap float)) (result : @WeightMap float) :
  let tech_weights := collect_weights group in
  let total := py_sum (dict_values tech_weights) in
  let remainder := fun p : float =>
    PrimFloat.sub p
      (PrimFloat.div (Binary64.floor (PrimFloat.mul p 100%float)) 100%float) in
  weekly_consolidate_technologies group = OK result \/
  (PrimFloat.eqb total 0%float = false /\
   monthly_consolidate_technologies group = OK result) ->
  exists percentages,
    compute_percentages tech_weights total = OK percentages /\
    dict_keys percentages = dict_keys tech_weights /\
    let rounded := round_percentages percentages in
    let current_sum := py_sum (dict_values rounded) in
    let diff := PrimFloat.sub 100%float current_sum in
    if PrimFloat.eqb current_sum 100%float
    then forall tech, dict_get tech result = dict_get tech rounded
    else
      exists t0 p0,
        first_largest
          (fun x y => PrimFloat.ltb (remainder x.2) (remainder y.2))
          percentages (t0, p0) /\
        dict_get t0 rounded = Some (Binary64.round2 p0) /\
        dict_get t0 result = Some (PrimFloat.add (Binary64.round2 p0) diff) /\
        forall tech, tech <> t0 -> dict_get tech result = dict_get tech rounded.
Proof.
  intros tech_weights total remainder Hres.
  refine (adjusted_is_first_largest_remainder (F := float) group result
            _ Hres).
  intros percentages dd p _ Hdd Hin.
  destruct (decimal_diffs_floor percentages dd p Hdd Hin) as [Hinf Hnan].
  apply remainder_not_nan; assumption.
Qed.

(** The weights 37, 55 and 52: the shares round to 25.69, 38.19 and 36.11,
    which add up to 99.99; the remainders of ["a"] and ["b"], equal as
    fractions, differ as floats, that of ["b"] being the larger, and ["b"]
    takes the difference. *)
Lemma residual_goes_to_first_largest_remainder_witness :
  let result :=
    [("a"%string, 25.69%float); ("b"%string, 38.2%float);
     ("c"%string, 36.11%float)] in
  let remainder := fun p : float =>
    PrimFloat.sub p
      (PrimFloat.div (Binary64.floor (PrimFloat.mul p 100%float)) 100%float) in
  exists percentages p0,
    compute_percentages
      (collect_weights
         [[("a"%string, 37%float); ("b"%string, 55%float);
           ("c"%string, 52%float)]])
      144%float = OK percentages /\
    first_largest
      (fun x y => PrimFloat.ltb (remainder x.2) (remainder y.2))
      percentages ("b"%string, p0) /\
    dict_get "b"%string result
    = Some (PrimFloat.add (Binary64.round2 p0)
              (PrimFloat.sub 100%float
                 (py_sum (dict_values (round_percentages percentages))))) /\
    dict_get "a"%string result
    = dict_get "a"%string (round_percentages percentages) /\
    dict_get "c"%string result
    = dict_get "c"%string (round_percentages percentages).
Proof.
  intros result remainder.
  destruct (residual_goes_to_first_largest_remainder
              [[("a"%string, 37%float); ("b"%string, 55%float);
                ("c"%string, 52%float)]] result)
    as (percentages & Hp & _ & Hres).
  - left. vm_compute. reflexivity.
  - exists percentages.
    change (py_sum _) with 144%float in Hp.
    assert (Hpct : OK percentages
                   = OK [("a"%string, 0x1.9b1c71c71c71cp+4%float);
                         ("b"%string, 0x1.318e38e38e38ep+5%float);
                         ("c"%string, 0x1.20e38e38e38e3p+5%float)])
      by (rewrite <- Hp; vm_compute; reflexivity).
    injection Hpct as ->.
    cbv zeta in Hres.
    change (PrimFloat.eqb _ _) with false in Hres.
    destruct Hres as (t0 & p0 & Hfirst & _ & Hget & Hother).
    assert (Ht0 : t0 = "b"%string).
    { destruct Hfirst as (before & after & E & Hbefore & Hmax).
      destruct before as [| x0 [| x1 [| x2 before]]]; simpl in E.
      - injection E as <- <- <-.
        specialize (Hmax ("b"%string, 0x1.318e38e38e38ep+5%float)
                      (or_intror (or_introl eq_refl))).
        vm_compute in Hmax. discriminate Hmax.
      - injection E as _ <- _. reflexivity.
      - injection E as _ _ <- <- <-.
        specialize (Hmax ("a"%string, 0x1.9b1c71c71c71cp+4%float)
                      (or_introl eq_refl)).
        vm_compute in Hmax. discriminate Hmax.
      - apply (f_equal (@List.length _)) in E. simpl in E.
        rewrite length_app in E. simpl in E. lia. }
    subst t0. exists p0. split; [exact Hp |]. split; [exact Hfirst |].
    split; [exact Hget |].
    split; apply Hother; discriminate.
Defined.

(** Three technologies with equal weights: every share rounds to 33.33 and
    the first key of the collected weights, ["b"], takes the missing 0.01
    and becomes 33.34.  The weights 37, 55 and 52: ["b"] becomes 38.2. *)
Example consolidate_three_equal_shares :
  weekly_consolidate_technologies
    [[("b"%string, 1%float); ("a"%string, 1%float)]; [("c"%string, 1%float)]]
  = OK [("a"%string, 33.33%float); ("b"%string, 33.34%float);
        ("c"%string, 33.33%float)] /\
  monthly_consolidate_technologies
    [[("b"%string, 1%float); ("a"%string, 1%float)]; [("c"%string, 1%float)]]
  = weekly_consolidate_technologies
      [[("b"%string, 1%float); ("a"%string, 1%float)];
       [("c"%string, 1%float)]] /\
  weekly_consolidate_technologies
    [[("a"%string, 37%float); ("b"%string, 55%float); ("c"%string, 52%float)]]
  = OK [("a"%string, 25.69%float); ("b"%string, 38.2%float);
        ("c"%string, 36.11%float)].
Proof. repeat split; vm_compute; reflexivity. Qed.

(** C1. The consolidation is to return percentages that add up to 100
    (within [1e-9]) whenever the total weight is positive; the code means
    it (its comment reads: adjust so that the summation is exactly 100) and
    misses it where the adjustment is lost in the rounding of the addition.
    The weights 3e15 and -2999999999999999 add up to 1; the shares are
    3e17 and about -2.999999999999999e17, whose sum is 128; the difference
    -28 is added to 3e17, where it is absorbed; and the weekly and the
    monthly consolidation return percentages that add up to 128.  The
    three equal shares of the specification, 33.33, 33.34 and 33.33, do
    add up to 100. *)
Theorem consolidate_sum_misses_100 :
  let group := [[("a"%string, 3e15%float);
                 ("b"%string, (-2999999999999999)%float)]] in
  let result := [("a"%string, 3e17%float);
                 ("b"%string, (-0x1.0a741a46277fep+58)%float)] in
  py_sum (dict_values (collect_weights group)) = 1%float /\
  compute_percentages (collect_weights group) 1%float = OK result /\
  round_percentages result = result /\
  weekly_consolidate_technologies group = OK result /\
  monthly_consolidate_technologies group = OK result /\
  num_add (num_round2 3e17%float) (num_sub num_hundred 128%float)
  = 3e17%float /\
  py_sum (dict_values result) = 128%float /\
  sums_to_100 (dict_values result) = false /\
  sums_to_100 [33.33%float; 33.34%float; 33.33%float] = true.
Proof. repeat split; vm_compute; reflexivity. Qed.

(** C2. The monthly consolidation never raises [ZeroDivisionError] and
    returns the empty map for weights that add up to zero; the weekly one,
    which has no test of the total, raises for them: [ZeroDivisionError] at
    the first division when there is a technology, [IndexError] at
    [sorted_techs[0]] when all the maps are empty.  On the floats this is
    what two empty maps and a single weight of zero give. *)
Theorem weekly_consolidate_zero_weight_raises :
  (forall (F : Type) (N : PyNum F) (group : list (@WeightMap F)),
      monthly_consolidate_technologies group <> Raise ZeroDivisionError /\
      (num_eqb (py_sum (dict_values (collect_weights group))) num_zero = true ->
       monthly_consolidate_technologies group = OK [] /\
       (collect_weights group <> [] ->
        weekly_consolidate_technologies group = Raise ZeroDivisionError) /\
       (collect_weights group = [] ->
        num_eqb (num_zero (F := F)) num_hundred = false ->
        weekly_consolidate_technologies group = Raise IndexError))) /\
  weekly_consolidate_technologies (F := float) [[]; []] = Raise IndexError /\
  weekly_consolidate_technologies [[("Python"%string, 0%float)]]
  = Raise ZeroDivisionError /\
  monthly_consolidate_technologies (F := float) [[]; []] = OK [] /\
  monthly_consolidate_technologies [[("Python"%string, 0%float)]] = OK [].
Proof.
  split; [| repeat split; vm_compute; reflexivity].
  intros F N group. split.
  - unfold monthly_consolidate_technologies.
    destruct (num_eqb (py_sum (dict_values (collect_weights group))) num_zero)
      eqn:Hz; [discriminate |].
    destruct (compute_percentages_total (collect_weights group) _ Hz)
      as [pct ->].
    simpl. apply adjust_no_division. discriminate.
  - intros Hz. split; [apply monthly_consolidate_zero, Hz |]. split.
    + intros Hne. unfold weekly_consolidate_technologies.
      rewrite compute_percentages_zero by assumption. reflexivity.
    + intros Hempty Hneq. unfold weekly_consolidate_technologies.
      rewrite Hempty. simpl. unfold adjust. simpl.
      unfold py_sum. simpl. rewrite Hneq. reflexivity.
Qed.

End NormalizerClaims.

(** * Further properties *)

(** ** The commit extractor: filters, page sizes and branches *)

Module ExtractorMore.
Import PyDate Extractor ExtractorFacts Samples.

Section Content.
Variable author_emails : list string.
Variable start_date end_date : option date.
Variable page_size : Z.
Variable ignore_commit_keywords : option (list string).

Local Abbreviation accept :=
  (accept author_emails start_date end_date ignore_commit_keywords).
Local Abbreviation append_commit := (append_commit page_size).
Local Abbreviation surviving :=
  (surviving author_emails start_date end_date ignore_commit_keywords).
Local Abbreviation extract :=
  (extract_commits_by_author author_emails start_date end_date page_size
     ignore_commit_keywords).

(** Whatever the page size, the batches hold the appended commits in
    order. *)
Lemma fold_append_content (cs : list commit) (st : gen_state) :
  let st' := fold_left append_commit cs st in
  concat (snd st') ++ fst st' = concat (snd st) ++ fst st ++ cs.
Proof.
  revert st. induction cs as [| c cs IH]; intros [batch yielded]; simpl.
  - rewrite app_nil_r. reflexivity.
  - rewrite IH. unfold Extractor.append_commit.
    destruct (page_size <=? _); simpl.
    + rewrite concat_app. simpl. rewrite app_nil_r, <- !app_assoc. reflexivity.
    + rewrite <- !app_assoc. reflexivity.
Qed.

Lemma concat_batches_of (cs : list commit) :
  concat (batches_of page_size cs) = cs.
Proof.
  unfold batches_of. pose proof (fold_append_content cs ([], [])) as Hc.
  simpl in Hc. destruct (fold_left append_commit cs ([], [])) as [batch yielded].
  simpl in Hc. destruct batch as [| c batch].
  - rewrite app_nil_r in Hc. exact Hc.
  - rewrite concat_app. simpl. rewrite app_nil_r. exact Hc.
Qed.

(** A result means that the repository was usable. *)
Lemma extract_ok_inv repo repo_branches batches :
  extract repo repo_branches = OK batches ->
  bare repo = false /\ branches repo <> [] /\
  batches = batches_of page_size (surviving repo repo_branches).
Proof.
  intros He. destruct (bare repo) eqn:Hb.
  - rewrite extract_raises in He by auto. discriminate.
  - destruct (branches repo) as [| b0 bs] eqn:Hbr.
    + rewrite extract_raises in He by auto. discriminate.
    + rewrite extract_batches in He by (rewrite ?Hbr; auto; discriminate).
      injection He as <-. repeat split; discriminate || reflexivity.
Qed.

(** What [accept] lets through. *)
Lemma accept_inv (gc : git_commit) (c : commit) :
  accept gc = Some c ->
  (length (parents gc) <= 1)%nat /\
  In (author_email gc) author_emails /\
  (forall sd, start_date = Some sd -> date_ltb (committed_day gc) sd = false) /\
  (forall ed, end_date = Some ed -> date_ltb ed (committed_day gc) = false) /\
  is_relevant_commit (PyStr.strip (message gc)) ignore_commit_keywords = true /\
  c = {| c_hash := hexsha gc; c_author := author_name gc;
         c_email := author_email gc; c_date := committed_day gc;
         c_message := PyStr.strip (message gc); c_files := stats_files gc |}.
Proof.
  unfold Extractor.accept.
  destruct (1 <? Z.of_nat (length (parents gc))) eqn:Hp; [discriminate |].
  apply Z.ltb_ge in Hp.
  destruct (match start_date with
            | Some sd => date_ltb (committed_day gc) sd
            | None => false
            end) eqn:Hs; [discriminate |].
  destruct (match end_date with
            | Some ed => date_ltb ed (committed_day gc)
            | None => false
            end) eqn:He; [discriminate |].
  destruct (bool_decide (author_email gc ∈ author_emails)) eqn:Ha;
    simpl; [| discriminate].
  apply bool_decide_eq_true_1, list_elem_of_In in Ha.
  destruct (is_relevant_commit _ _) eqn:Hr; simpl; [| discriminate].
  intros [= <-]. split; [lia |]. split; [exact Ha |].
  split; [intros sd ->; exact Hs |]. split; [intros ed ->; exact He |].
  split; reflexivity.
Qed.

(** X1. Every commit of every yielded batch was built from a commit of a
    visited branch that is not a merge, whose author is one of the given
    addresses, whose day is not before the start date nor after the end
    date, and whose stripped message the relevance filter accepts. *)
Theorem extract_commits_pass_filters repo repo_branches batches batch c :
  extract repo repo_branches = OK batches ->
  In batch batches -> In c batch ->
  exists branch gc,
    In branch (branches_to_iterate repo repo_branches) /\
    In branch (map branch_name (branches repo)) /\
    In gc (iter_commits repo branch) /\
    (length (parents gc) <= 1)%nat /\
    In (author_email gc) author_emails /\
    (forall sd, start_date = Some sd -> date_ltb (committed_day gc) sd = false) /\
    (forall ed, end_date = Some ed -> date_ltb ed (committed_day gc) = false) /\
    is_relevant_commit (PyStr.strip (message gc)) ignore_commit_keywords = true /\
    c = {| c_hash := hexsha gc; c_author := author_name gc;
           c_email := author_email gc; c_date := committed_day gc;
           c_message := PyStr.strip (message gc); c_files := stats_files gc |}.
Proof.
  intros He Hbatch Hc. apply extract_ok_inv in He as (_ & _ & ->).
  assert (Hin : In c (surviving repo repo_branches)).
  { rewrite <- (concat_batches_of (surviving repo repo_branches)).
    apply in_concat. eauto. }
  unfold Extractor.surviving in Hin. apply in_flat_map in Hin as (branch & Hb & Hin).
  destruct (bool_decide (branch ∈ map branch_name (branches repo))) eqn:Hex;
    [| destruct Hin].
  apply bool_decide_eq_true_1, list_elem_of_In in Hex.
  apply list_elem_of_In, list_elem_of_omap in Hin as (gc & Hgc & Hacc).
  apply list_elem_of_In in Hgc.
  exists branch, gc. split; [exact Hb |]. split; [exact Hex |].
  split; [exact Hgc |]. apply accept_inv, Hacc.
Qed.

Lemma fold_append_singletons (cs : list commit) (yielded : list (list commit)) :
  page_size <= 1 ->
  fold_left append_commit cs ([], yielded)
  = ([], yielded ++ map (fun c => [c]) cs).
Proof.
  intros Hps.
  assert (Hstep : forall c y,
             append_commit ([], y) c = ([], y ++ [[c]])).
  { intros c y. unfold Extractor.append_commit. simpl.
    change (Z.of_nat 1) with 1.
    destruct (Z.leb_spec page_size 1); [reflexivity | lia]. }
  revert yielded.
  induction cs as [| c cs IH]; intros yielded.
  - simpl. rewrite app_nil_r. reflexivity.
  - change (fold_left append_commit (c :: cs) ([], yielded))
      with (fold_left append_commit cs (append_commit ([], yielded) c)).
    rewrite Hstep, IH, <- app_assoc. reflexivity.
Qed.

(** X2. With a page size of one, zero or less every surviving commit is
    yielded as a batch of its own. *)
Theorem extract_page_size_at_most_one repo repo_branches batches :
  page_size <= 1 ->
  extract repo repo_branches = OK batches ->
  batches = map (fun c => [c]) (surviving repo repo_branches).
Proof.
  intros Hps He. apply extract_ok_inv in He as (_ & _ & ->).
  unfold batches_of. rewrite fold_append_singletons by exact Hps. reflexivity.
Qed.

Lemma branches_to_iterate_some repo (bs : list string) :
  bs <> [] -> branches_to_iterate repo (Some bs) = bs.
Proof. destruct bs; [congruence | reflexivity]. Qed.

Lemma surviving_app repo (bs1 bs2 : list string) :
  bs1 <> [] -> bs2 <> [] ->
  surviving repo (Some (bs1 ++ bs2))
  = surviving repo (Some bs1) ++ surviving repo (Some bs2).
Proof.
  intros H1 H2. unfold Extractor.surviving.
  rewrite !branches_to_iterate_some by (try assumption; destruct bs1; simpl; congruence).
  apply flat_map_app.
Qed.

(** X3. A listed branch that the repository does not have is skipped: the
    batches are those of the list without it.  When none of the listed
    branches exists nothing is yielded, and nothing is raised. *)
Theorem extract_skips_unknown_branches repo (bs1 bs2 : list string)
    (unknown : string) :
  bare repo = false -> branches repo <> [] ->
  ~ In unknown (map branch_name (branches repo)) ->
  (bs1 ++ bs2 <> [] ->
   extract_commits_by_author author_emails start_date end_date page_size
     ignore_commit_keywords repo (Some (bs1 ++ unknown :: bs2))
   = extract_commits_by_author author_emails start_date end_date page_size
       ignore_commit_keywords repo (Some (bs1 ++ bs2))) /\
  extract_commits_by_author author_emails start_date end_date page_size
    ignore_commit_keywords repo (Some [unknown]) = OK [].
Proof.
  intros Hb Hne Hun.
  assert (Hskip : bool_decide (unknown ∈ map branch_name (branches repo)) = false).
  { apply bool_decide_eq_false_2. rewrite list_elem_of_In. exact Hun. }
  split.
  - intros Hrest. rewrite !extract_batches by assumption. do 2 f_equal.
    unfold Extractor.surviving.
    rewrite !branches_to_iterate_some
      by (try assumption; destruct bs1; simpl; congruence).
    rewrite !flat_map_app. simpl. rewrite Hskip. reflexivity.
  - rewrite extract_batches by assumption.
    unfold Extractor.surviving. simpl. rewrite Hskip. reflexivity.
Qed.

(** X4. The traversal of several branches yields what the traversal of each
    yields, one after the other: a commit that two listed branches share,
    or a branch listed twice, is yielded once for each. *)
Theorem extract_does_not_deduplicate repo (bs1 bs2 : list string)
    (batches1 batches2 : list (list commit)) :
  bs1 <> [] -> bs2 <> [] ->
  extract repo (Some bs1) = OK batches1 ->
  extract repo (Some bs2) = OK batches2 ->
  exists batches,
    extract repo (Some (bs1 ++ bs2)) = OK batches /\
    concat batches = concat batches1 ++ concat batches2.
Proof.
  intros H1 H2 He1 He2.
  apply extract_ok_inv in He1 as (Hb & Hne & ->).
  apply extract_ok_inv in He2 as (_ & _ & ->).
  eexists. split; [apply extract_batches; assumption |].
  rewrite !concat_batches_of. apply surviving_app; assumption.
Qed.

End Content.

Lemma extract_commits_pass_filters_witness :
  exists branch gc,
    In gc (iter_commits two_branch_repo branch) /\
    (length (parents gc) <= 1)%nat /\ hexsha gc = "a1"%string.
Proof.
  destruct (extract_commits_pass_filters [dev_email] None None 100 None
              two_branch_repo None
              [[sample_commit "a1" "Implement caching layer for resolver"
                  (mkdate 2024 3 3);
                sample_commit "b2" "Add retry policy to the fetcher"
                  (mkdate 2024 3 4)]]
              [sample_commit "a1" "Implement caching layer for resolver"
                 (mkdate 2024 3 3);
               sample_commit "b2" "Add retry policy to the fetcher"
                 (mkdate 2024 3 4)]
              (sample_commit "a1" "Implement caching layer for resolver"
                 (mkdate 2024 3 3)))
    as (branch & gc & _ & _ & Hgc & Hp & _ & _ & _ & _ & Hc);
    [vm_compute; reflexivity | left; reflexivity | left; reflexivity |].
  exists branch, gc. split; [exact Hgc |]. split; [exact Hp |].
  injection Hc as Hsha _. symmetry. exact Hsha.
Defined.

Lemma extract_page_size_at_most_one_witness :
  extract_commits_by_author [dev_email] None None 0 None two_branch_repo None
  = OK [[sample_commit "a1" "Implement caching layer for resolver"
           (mkdate 2024 3 3)];
        [sample_commit "b2" "Add retry policy to the fetcher"
           (mkdate 2024 3 4)]].
Proof.
  pose proof (extract_page_size_at_most_one [dev_email] None None 0 None
                two_branch_repo None
                [[sample_commit "a1" "Implement caching layer for resolver"
                    (mkdate 2024 3 3)];
                 [sample_commit "b2" "Add retry policy to the fetcher"
                    (mkdate 2024 3 4)]]) as Hone.
  assert (Hrun : extract_commits_by_author [dev_email] None None 0 None
                   two_branch_repo None
                 = OK [[sample_commit "a1" "Implement caching layer for resolver"
                          (mkdate 2024 3 3)];
                       [sample_commit "b2" "Add retry policy to the fetcher"
                          (mkdate 2024 3 4)]])
    by (vm_compute; reflexivity).
  specialize (Hone ltac:(lia) Hrun). exact Hrun.
Defined.

Lemma extract_skips_unknown_branches_witness :
  extract_commits_by_author [dev_email] None None 100 None two_branch_repo
    (Some ["main"; "gone"; "dev"]%string)
  = extract_commits_by_author [dev_email] None None 100 None two_branch_repo
      (Some ["main"; "dev"]%string) /\
  extract_commits_by_author [dev_email] None None 100 None two_branch_repo
    (Some ["gone"]%string) = OK [].
Proof.
  destruct (extract_skips_unknown_branches [dev_email] None None 100 None
              two_branch_repo ["main"%string] ["dev"%string] "gone"%string)
    as [Hskip Hnone];
    [reflexivity | discriminate
    | simpl; intros [H | [H | []]]; discriminate H |].
  split; [apply Hskip; discriminate | exact Hnone].
Defined.

Lemma extract_does_not_deduplicate_witness :
  exists batches,
    extract_commits_by_author [dev_email] None None 100 None two_branch_repo
      (Some ["main"; "main"]%string) = OK batches /\
    map c_hash (concat batches) = ["a1"; "a1"]%string.
Proof.
  destruct (extract_does_not_deduplicate [dev_email] None None 100 None
              two_branch_repo ["main"%string] ["main"%string]
              [[sample_commit "a1" "Implement caching layer for resolver"
                  (mkdate 2024 3 3)]]
              [[sample_commit "a1" "Implement caching layer for resolver"
                  (mkdate 2024 3 3)]])
    as (batches & He & Hc);
    [discriminate | discriminate | vm_compute; reflexivity
    | vm_compute; reflexivity |].
  exists batches. split; [exact He |]. rewrite Hc. reflexivity.
Defined.

End ExtractorMore.

(** ** The grouping loops *)

Module BucketFacts.
Import Groups GroupFacts Buckets.

Section Facts.
Context {K A : Type} `{EqDecision K}.

Lemma first_seen_In (ks : list K) (k : K) : In k (first_seen ks) <-> In k ks.
Proof.
  induction ks as [| k0 ks IH]; simpl; [tauto |].
  rewrite filter_In, IH, negb_true_iff, bool_decide_eq_false.
  destruct (decide (k = k0)) as [-> | Hne]; [tauto |].
  split; [intros [? | [? _]]; auto | intros [? | ?]; auto].
Qed.

Lemma filter_ne_snoc (k k0 : K) (l : list K) :
  List.filter (fun k' => negb (bool_decide (k' = k0))) (l ++ [k])
  = List.filter (fun k' => negb (bool_decide (k' = k0))) l
    ++ (if decide (k = k0) then [] else [k]).
Proof.
  rewrite List.filter_app. simpl.
  destruct (decide (k = k0)) as [-> | Hne].
  - rewrite bool_decide_eq_true_2 by reflexivity. reflexivity.
  - rewrite bool_decide_eq_false_2 by exact Hne. reflexivity.
Qed.

(** One more element at the end: a new key goes last, a known one changes
    nothing. *)
Lemma first_seen_snoc (ks : list K) (k : K) :
  first_seen (ks ++ [k])
  = if decide (k ∈ ks) then first_seen ks else first_seen ks ++ [k].
Proof.
  induction ks as [| k0 ks IH]; simpl.
  - destruct (decide (k ∈ [])) as [Hin | _]; [| reflexivity].
    apply list_elem_of_In in Hin. destruct Hin.
  - rewrite IH.
    destruct (decide (k ∈ ks)) as [Hin | Hnin];
      destruct (decide (k ∈ k0 :: ks)) as [Hor | Hnor];
      rewrite ?list_elem_of_In in *; simpl in *.
    + reflexivity.
    + tauto.
    + rewrite filter_ne_snoc.
      destruct (decide (k = k0)) as [-> | Hne]; [| destruct Hor; [congruence | tauto]].
      rewrite app_nil_r. reflexivity.
    + rewrite filter_ne_snoc.
      destruct (decide (k = k0)) as [-> | Hne]; [tauto | reflexivity].
Qed.

Lemma first_seen_NoDup (ks : list K) : List.NoDup (first_seen ks).
Proof.
  induction ks as [| k ks IH]; simpl; constructor.
  - rewrite filter_In, negb_true_iff, bool_decide_eq_false. tauto.
  - apply List.NoDup_filter, IH.
Qed.

Variable key : A -> result K.

Lemma members_snoc (k : K) (xs : list A) (x : A) :
  members key k (xs ++ [x])
  = members key k xs ++ (if decide (key x = OK k) then [x] else []).
Proof.
  unfold members. rewrite List.filter_app. simpl.
  destruct (decide (key x = OK k)) as [E | E].
  - rewrite bool_decide_eq_true_2 by exact E. reflexivity.
  - rewrite bool_decide_eq_false_2 by exact E. reflexivity.
Qed.

Lemma ok_keys_snoc (xs : list A) (x : A) (k : K) :
  key x = OK k -> ok_keys key (xs ++ [x]) = ok_keys key xs ++ [k].
Proof.
  intros E. unfold ok_keys. rewrite omap_app. simpl. rewrite E. reflexivity.
Qed.

Lemma members_nil_iff (k : K) (xs : list A) :
  members key k xs = [] <-> ~ In k (ok_keys key xs).
Proof.
  unfold members, ok_keys. induction xs as [| x xs IH]; simpl; [tauto |].
  destruct (key x) as [k' | e] eqn:E.
  - destruct (decide (k' = k)) as [-> | Hne].
    + rewrite bool_decide_eq_true_2 by reflexivity. simpl.
      split; [discriminate | intros Hn; exfalso; apply Hn; left; reflexivity].
    + rewrite bool_decide_eq_false_2 by congruence. rewrite IH. simpl.
      split; [intros Hn [? | ?]; [congruence | tauto] | tauto].
  - rewrite bool_decide_eq_false_2 by congruence. exact IH.
Qed.

Lemma dict_get_map_first (f : K -> list A) (k : K) (l : list K) :
  dict_get k (map (fun k' => (k', f k')) l)
  = if decide (k ∈ l) then Some (f k) else None.
Proof.
  induction l as [| k0 l IH]; simpl.
  - destruct (decide (k ∈ [])) as [Hin | _]; [| reflexivity].
    apply list_elem_of_In in Hin. destruct Hin.
  - destruct (decide (k = k0)) as [-> | Hne].
    + destruct (decide (k0 ∈ k0 :: l)) as [_ | Hn]; [reflexivity |].
      exfalso. apply Hn. left.
    + rewrite IH. destruct (decide (k ∈ l)) as [Hin | Hnin];
        destruct (decide (k ∈ k0 :: l)) as [Hor | Hnor]; try reflexivity.
      * exfalso. apply Hnor. right. exact Hin.
      * exfalso. apply list_elem_of_In in Hor as [? | Hor]; [congruence |].
        apply Hnin, list_elem_of_In, Hor.
Qed.

Lemma dict_get_grouping (k : K) (xs : list A) :
  dict_get k (grouping key xs)
  = if decide (k ∈ ok_keys key xs) then Some (members key k xs) else None.
Proof.
  unfold grouping. rewrite dict_get_map_first.
  destruct (decide (k ∈ first_seen (ok_keys key xs))) as [Hin | Hnin];
    destruct (decide (k ∈ ok_keys key xs)) as [Hin' | Hnin'];
    try reflexivity; exfalso;
    rewrite !list_elem_of_In, first_seen_In in *; tauto.
Qed.

Lemma dict_set_map_known (f g : K -> list A) (k : K) (l : list K) :
  In k l -> List.NoDup l ->
  (forall k', k' <> k -> g k' = f k') ->
  dict_set k (g k) (map (fun k' => (k', f k')) l)
  = map (fun k' => (k', g k')) l.
Proof.
  intros Hin Hnd Hother. induction l as [| k0 l IH]; simpl; [destruct Hin |].
  apply List.NoDup_cons_iff in Hnd as [Hk0 Hnd].
  destruct (decide (k = k0)) as [-> | Hne].
  - f_equal. apply map_ext_in. intros k1 Hk1. f_equal. symmetry.
    apply Hother. intros ->. tauto.
  - rewrite (Hother k0) by congruence. f_equal. apply IH; [| exact Hnd].
    destruct Hin; [congruence | assumption].
Qed.

Lemma dict_set_map_new (f g : K -> list A) (k : K) (l : list K) :
  ~ In k l ->
  (forall k', k' <> k -> g k' = f k') ->
  dict_set k (g k) (map (fun k' => (k', f k')) l)
  = map (fun k' => (k', g k')) (l ++ [k]).
Proof.
  intros Hnin Hother. induction l as [| k0 l IH]; simpl; [reflexivity |].
  destruct (decide (k = k0)) as [-> | Hne];
    [exfalso; apply Hnin; left; reflexivity |].
  rewrite (Hother k0) by congruence. f_equal. apply IH.
  intros Hl. apply Hnin. right. exact Hl.
Qed.

Lemma members_snoc_other (k k' : K) (xs : list A) (x : A) :
  key x = OK k -> k' <> k -> members key k' (xs ++ [x]) = members key k' xs.
Proof.
  intros E Hne. rewrite members_snoc.
  destruct (decide (key x = OK k')); [congruence | apply app_nil_r].
Qed.

Lemma dict_append_grouping (k : K) (xs : list A) (x : A) :
  key x = OK k ->
  dict_append k x (grouping key xs) = grouping key (xs ++ [x]).
Proof.
  intros E. unfold dict_append. rewrite dict_get_grouping.
  assert (Hmem : members key k (xs ++ [x]) = members key k xs ++ [x]).
  { rewrite members_snoc. destruct (decide (key x = OK k)); congruence. }
  unfold grouping. rewrite (ok_keys_snoc xs x k E), first_seen_snoc.
  destruct (decide (k ∈ ok_keys key xs)) as [Hin | Hnin].
  - rewrite <- Hmem.
    apply (dict_set_map_known (fun k' => members key k' xs)
             (fun k' => members key k' (xs ++ [x])) k
             (first_seen (ok_keys key xs))).
    + apply (proj2 (first_seen_In _ _)), (proj1 (list_elem_of_In _ _)), Hin.
    + apply first_seen_NoDup.
    + intros k' Hne. apply (members_snoc_other k); assumption.
  - assert (Hnil : members key k xs = []).
    { apply members_nil_iff. rewrite <- list_elem_of_In. exact Hnin. }
    assert (Hone : [x] = members key k (xs ++ [x]))
      by (rewrite Hmem, Hnil; reflexivity).
    rewrite Hone at 1.
    apply (dict_set_map_new (fun k' => members key k' xs)
             (fun k' => members key k' (xs ++ [x])) k
             (first_seen (ok_keys key xs))).
    + rewrite first_seen_In, <- list_elem_of_In. exact Hnin.
    + intros k' Hne. apply (members_snoc_other k); assumption.
Qed.

(** The loop, started on the grouping of what came before, ends on the
    grouping of everything. *)
Lemma group_by_grouping_from (rest seen : list A) (d : list (K * list A)) :
  group_by key rest (grouping key seen) = OK d ->
  d = grouping key (seen ++ rest).
Proof.
  unfold group_by. revert seen.
  induction rest as [| x rest IH]; intros seen Hr; simpl in Hr.
  - injection Hr as <-. rewrite app_nil_r. reflexivity.
  - apply rbind_ok in Hr as (d1 & Hd1 & Hr).
    apply rbind_ok in Hd1 as (k & Hk & Hd1). injection Hd1 as <-.
    rewrite (dict_append_grouping k seen x Hk) in Hr.
    apply IH in Hr. rewrite <- app_assoc in Hr. exact Hr.
Qed.

Lemma group_by_grouping (xs : list A) (d : list (K * list A)) :
  group_by key xs [] = OK d -> d = grouping key xs.
Proof. apply (group_by_grouping_from xs []). Qed.

End Facts.
End BucketFacts.

(** ** The buckets of the three summarizers *)

Module SummarizerMore.
Import PyDate PyDateFacts DateArithFacts Extractor Normalizer Summarizer.
Import Groups GroupFacts Buckets BucketFacts SummarizerFacts Samples Binary64.

Lemma group_by_pure {K A : Type} `{EqDecision K} (f : A -> K) (xs : list A)
    (d : list (K * list A)) :
  group_by (fun x => OK (f x)) xs d
  = OK (fold_left (fun d x => dict_append (f x) x d) xs d).
Proof.
  unfold group_by. revert d. induction xs as [| x xs IH]; intros d; simpl;
    [reflexivity | apply IH].
Qed.

Lemma ok_keys_pure {K A : Type} (f : A -> K) (xs : list A) :
  ok_keys (fun x => OK (f x)) xs = map f xs.
Proof.
  unfold ok_keys. induction xs as [| x xs IH]; [reflexivity |].
  exact (f_equal (cons (f x)) IH).
Qed.

Lemma members_pure {K A : Type} `{EqDecision K} (f : A -> K) (k : K)
    (xs : list A) :
  members (fun x => OK (f x)) k xs
  = List.filter (fun x => bool_decide (f x = k)) xs.
Proof.
  unfold members. apply List.filter_ext. intros x.
  apply bool_decide_ext. split; [intros [= ->]; reflexivity | intros ->; reflexivity].
Qed.

(** The group of a key of the grouping is not empty. *)
Lemma members_of_first_seen {K A : Type} `{EqDecision K}
    (key : A -> result K) (k : K) (xs : list A) :
  In k (first_seen (ok_keys key xs)) -> members key k xs <> [].
Proof.
  rewrite first_seen_In. intros Hin Hnil.
  apply members_nil_iff in Hnil. contradiction.
Qed.

(** The buckets made from a grouping, one for each key in its order. *)
Lemma buckets_of_grouping {K A B : Type} `{EqDecision K}
    (key : A -> result K) (mk : K * list A -> result B) (xs : list A)
    (bs : list B) :
  rmap mk (grouping key xs) = OK bs ->
  Forall2 (fun k b => mk (k, members key k xs) = OK b /\
                      members key k xs <> [])
          (first_seen (ok_keys key xs)) bs.
Proof.
  intros Hr. apply rmap_ok in Hr. unfold grouping in Hr.
  assert (Hall : forall k, In k (first_seen (ok_keys key xs)) ->
                           members key k xs <> [])
    by (intros k; apply members_of_first_seen).
  revert bs Hr Hall.
  induction (first_seen (ok_keys key xs)) as [| k l IH]; intros bs Hr Hall;
    simpl in Hr.
  - apply Forall2_nil_inv_l in Hr as ->. constructor.
  - apply Forall2_cons_inv_l in Hr as (b & bs' & Hb & Hr & ->).
    constructor; [split; [exact Hb | apply Hall; left; reflexivity] |].
    apply IH; [exact Hr | intros k' Hk'; apply Hall; right; exact Hk'].
Qed.

Lemma Forall2_keys {K B : Type} (P : K -> B -> Prop) (proj : B -> K)
    (ks : list K) (bs : list B) :
  Forall2 P ks bs -> (forall k b, P k b -> proj b = k) -> map proj bs = ks.
Proof.
  intros HF Hp. induction HF as [| k b ks bs Hkb _ IH]; simpl; [reflexivity |].
  rewrite (Hp k b Hkb), IH. reflexivity.
Qed.

Lemma Forall2_right {K B : Type} (P : K -> B -> Prop) (Q : B -> Prop)
    (ks : list K) (bs : list B) :
  Forall2 P ks bs -> (forall k b, P k b -> Q b) -> Forall Q bs.
Proof.
  intros HF Hp. induction HF as [| k b ks bs Hkb _ IH]; constructor; eauto.
Qed.

Section Buckets.
Context {F : Type} `{PyNum F}.
Variable generate : string -> result string.
Variable estimate_tokens : string -> Z.
Variable detect : list string -> list string -> result (@WeightMap F).

Lemma daily_groups_grouping (commits_generator : list (list commit)) :
  daily_groups commits_generator
  = grouping (fun c => OK (c_date c)) (concat commits_generator).
Proof.
  apply group_by_grouping. rewrite group_by_pure, daily_groups_concat.
  reflexivity.
Qed.

(** X5. The daily summarizer makes one bucket for each day on which there
    is a commit, in the order in which the days occur first in the batches.
    The count of a bucket is the number of commits of its day, at least
    one, and its technologies are what the detector finds in the files of
    these commits. *)
Theorem daily_buckets_by_day PROMPT commits_generator project_context ds :
  daily_summarize generate estimate_tokens detect PROMPT commits_generator
    project_context = OK ds ->
  let commits := concat commits_generator in
  map d_date ds = first_seen (map c_date commits) /\
  Forall (fun b =>
            let day_commits :=
              List.filter (fun c => bool_decide (c_date c = d_date b)) commits in
            d_commit_count b = Z.of_nat (length day_commits) /\
            1 <= d_commit_count b /\
            detect (flat_map c_files day_commits) project_context
            = OK (d_technologies b)) ds.
Proof.
  intros Hr commits. unfold daily_summarize in Hr.
  rewrite daily_groups_grouping in Hr.
  apply buckets_of_grouping in Hr. fold commits in Hr.
  rewrite ok_keys_pure in Hr.
  assert (Hb : forall k b,
             daily_bucket generate estimate_tokens detect PROMPT project_context
               (k, members (fun c => OK (c_date c)) k commits) = OK b /\
             members (fun c => OK (c_date c)) k commits <> [] ->
             d_date b = k /\
             d_commit_count b
             = Z.of_nat (length (List.filter
                                   (fun c => bool_decide (c_date c = k)) commits)) /\
             1 <= d_commit_count b /\
             detect (flat_map c_files
                       (List.filter (fun c => bool_decide (c_date c = k)) commits))
                    project_context = OK (d_technologies b)).
  { intros k b [Hmk Hne]. rewrite members_pure in Hmk, Hne.
    unfold daily_bucket in Hmk.
    apply rbind_ok in Hmk as (t & Ht & Hmk).
    apply rbind_ok in Hmk as (sm & _ & Hmk). injection Hmk as <-. simpl.
    repeat split; try assumption.
    destruct (List.filter _ commits); [congruence | simpl; lia]. }
  split.
  - eapply Forall2_keys; [exact Hr |]. intros k b Hkb. apply (Hb k b Hkb).
  - eapply Forall2_right; [exact Hr |]. intros k b Hkb. cbv zeta.
    destruct (Hb k b Hkb) as (<- & Hrest). exact Hrest.
Qed.

(** X6. The weekly summarizer makes one bucket for each week in which there
    is a daily bucket, in the order in which the weeks occur first in its
    input (not by date).  A bucket adds up the counts of the daily buckets
    of its week and consolidates their technologies. *)
Theorem weekly_buckets_by_week PROMPT data ws :
  weekly_summarize generate estimate_tokens PROMPT data = OK ws ->
  let week_of := fun item : daily_summary => week_start_of (d_date item) in
  map w_start_date ws = first_seen (ok_keys week_of data) /\
  Forall (fun b =>
            let days := members week_of (w_start_date b) data in
            days <> [] /\
            w_commit_count b = sum_counts (map d_commit_count days) /\
            weekly_consolidate_technologies (map d_technologies days)
            = OK (w_technologies b)) ws.
Proof.
  intros Hr week_of. unfold weekly_summarize in Hr.
  apply rbind_ok in Hr as (summaries & Hg & Hr).
  apply group_by_grouping in Hg. subst summaries.
  apply buckets_of_grouping in Hr. fold week_of in Hr.
  assert (Hb : forall k b,
             weekly_bucket generate estimate_tokens PROMPT
               (k, members week_of k data) = OK b /\
             members week_of k data <> [] ->
             w_start_date b = k /\
             members week_of k data <> [] /\
             w_commit_count b
             = sum_counts (map d_commit_count (members week_of k data)) /\
             weekly_consolidate_technologies
               (map d_technologies (members week_of k data))
             = OK (w_technologies b)).
  { intros k b [Hmk Hne]. unfold weekly_bucket in Hmk.
    apply rbind_ok in Hmk as (t & Ht & Hmk).
    apply rbind_ok in Hmk as (we & _ & Hmk).
    apply rbind_ok in Hmk as (sm & _ & Hmk). injection Hmk as <-. simpl.
    repeat split; assumption. }
  split.
  - eapply Forall2_keys; [exact Hr |]. intros k b Hkb. apply (Hb k b Hkb).
  - eapply Forall2_right; [exact Hr |]. intros k b Hkb. cbv zeta.
    destruct (Hb k b Hkb) as (<- & Hrest). exact Hrest.
Qed.

(** X7. The monthly summarizer makes one bucket for each month in which a
    weekly bucket starts, in the order in which the months occur first in
    its input.  A weekly bucket counts for the month of its start date
    alone, also when the week ends in the next month; the label of the
    bucket is the year and the month of its start date. *)
Theorem monthly_buckets_by_month PROMPT data ms :
  monthly_summarize generate estimate_tokens PROMPT data = OK ms ->
  let month_of :=
    fun item : weekly_summary => replace_day (w_start_date item) 1 in
  map m_start_date ms = first_seen (ok_keys month_of data) /\
  Forall (fun b =>
            let weeks := members month_of (m_start_date b) data in
            weeks <> [] /\
            m_month b = (year (m_start_date b), month (m_start_date b)) /\
            m_commit_count b = sum_counts (map w_commit_count weeks) /\
            monthly_consolidate_technologies (map w_technologies weeks)
            = OK (m_technologies b)) ms.
Proof.
  intros Hr month_of. unfold monthly_summarize in Hr.
  apply rbind_ok in Hr as (summaries & Hg & Hr).
  apply group_by_grouping in Hg. subst summaries.
  apply buckets_of_grouping in Hr. fold month_of in Hr.
  assert (Hb : forall k b,
             monthly_bucket generate estimate_tokens PROMPT
               (k, members month_of k data) = OK b /\
             members month_of k data <> [] ->
             m_start_date b = k /\
             members month_of k data <> [] /\
             m_month b = (year k, month k) /\
             m_commit_count b
             = sum_counts (map w_commit_count (members month_of k data)) /\
             monthly_consolidate_technologies
               (map w_technologies (members month_of k data))
             = OK (m_technologies b)).
  { intros k b [Hmk Hne]. unfold monthly_bucket in Hmk.
    apply rbind_ok in Hmk as (t & Ht & Hmk).
    apply rbind_ok in Hmk as (me & _ & Hmk).
    apply rbind_ok in Hmk as (sm & _ & Hmk). injection Hmk as <-. simpl.
    repeat split; assumption. }
  split.
  - eapply Forall2_keys; [exact Hr |]. intros k b Hkb. apply (Hb k b Hkb).
  - eapply Forall2_right; [exact Hr |]. intros k b Hkb. cbv zeta.
    destruct (Hb k b Hkb) as (<- & Hrest). exact Hrest.
Qed.

End Buckets.

Lemma daily_buckets_by_day_witness :
  map d_date sample_dailies
  = [mkdate 2024 3 3; mkdate 2024 3 4; mkdate 2024 2 29] /\
  map d_commit_count sample_dailies = [1; 2; 1].
Proof.
  destruct (daily_buckets_by_day sample_generate sample_estimate_tokens
              sample_detect "[MESSAGES]" sample_batches [] sample_dailies)
    as [Hdays _]; [vm_compute; reflexivity |].
  split; [rewrite Hdays |]; reflexivity.
Defined.

Lemma weekly_buckets_by_week_witness :
  map w_start_date sample_weeklies = [mkdate 2024 2 26; mkdate 2024 3 4] /\
  map w_commit_count sample_weeklies = [2; 2].
Proof.
  destruct (weekly_buckets_by_week sample_generate sample_estimate_tokens
              "[MESSAGES]" sample_dailies sample_weeklies)
    as [Hweeks _]; [vm_compute; reflexivity |].
  split; [rewrite Hweeks; vm_compute |]; reflexivity.
Defined.

(** The week of 26 February 2024 holds a commit of 3 March; the bucket of
    February counts it. *)
Lemma monthly_buckets_by_month_witness :
  map m_start_date sample_monthlies = [mkdate 2024 2 1; mkdate 2024 3 1] /\
  map m_commit_count sample_monthlies = [2; 2].
Proof.
  destruct (monthly_buckets_by_month sample_generate sample_estimate_tokens
              "[MESSAGES]" sample_weeklies sample_monthlies)
    as [Hmonths _]; [vm_compute; reflexivity |].
  split; [rewrite Hmonths; vm_compute |]; reflexivity.
Defined.

End SummarizerMore.

(** ** The relevance filter: the letter case of the keywords *)

Module RelevanceMore.
Import Extractor.

Lemma lower_char_not_upper (c : ascii) :
  PyStr.is_upper (PyStr.lower_char c) = false.
Proof. destruct c as [[] [] [] [] [] [] [] []]; reflexivity. Qed.

Lemma lower_get (s : string) (i : nat) (c : ascii) :
  String.get i (PyStr.lower s) = Some c -> PyStr.is_upper c = false.
Proof.
  revert i. induction s as [| a s IH]; intros i; simpl; [discriminate |].
  destruct i as [| i]; [| apply IH].
  intros [= <-]. apply lower_char_not_upper.
Qed.

Lemma prefix_get (k h : string) (i : nat) (c : ascii) :
  String.prefix k h = true -> String.get i k = Some c -> String.get i h = Some c.
Proof.
  revert h i. induction k as [| a k IH]; intros h i Hp Hg;
    [simpl in Hg; discriminate Hg |].
  destruct h as [| b h]; [discriminate Hp |]. simpl in Hp.
  destruct (ascii_dec a b) as [<- | _]; [| discriminate Hp].
  destruct i as [| i]; simpl in *; [exact Hg | eapply IH; eassumption].
Qed.

(** A needle found in a text only has characters of the text. *)
Lemma contains_get (k h : string) (i : nat) (c : ascii) :
  PyStr.contains k h = true -> String.get i k = Some c ->
  exists j, String.get j h = Some c.
Proof.
  intros Hc Hg. induction h as [| b h IH].
  - change (String.prefix k "" || false = true) in Hc.
    rewrite orb_false_r in Hc. exists i. eapply prefix_get; eassumption.
  - change (String.prefix k (String b h) || PyStr.contains k h = true) in Hc.
    apply orb_true_iff in Hc as [Hp | Hc].
    + exists i. eapply prefix_get; eassumption.
    + destruct (IH Hc) as (j & Hj). exists (S j). exact Hj.
Qed.

Lemma contains_lower_no_upper (keyword commit_message : string) :
  (exists i c, String.get i keyword = Some c /\ PyStr.is_upper c = true) ->
  PyStr.contains keyword (PyStr.lower commit_message) = false.
Proof.
  intros (i & c & Hg & Hu).
  destruct (PyStr.contains keyword (PyStr.lower commit_message)) eqn:E;
    [| reflexivity].
  destruct (contains_get _ _ _ _ E Hg) as (j & Hj).
  apply lower_get in Hj. congruence.
Qed.

Lemma is_relevant_commit_some (commit_message : string) (keywords : list string) :
  is_relevant_commit commit_message (Some keywords)
  = if existsb (fun keyword =>
                  PyStr.contains keyword (PyStr.lower commit_message)) keywords
    then false
    else if PyStr.len (PyStr.strip commit_message) <? 10 then false else true.
Proof. destruct keywords; reflexivity. Qed.

(** X8. A keyword that has an upper-case letter never excludes a commit: the
    message is lowercased before the search and the keyword is not, so the
    filter answers as if the keyword were not in the list. *)
Theorem keyword_with_upper_case_never_excludes
    (commit_message keyword : string) (before after : list string) :
  (exists i c, String.get i keyword = Some c /\ PyStr.is_upper c = true) ->
  is_relevant_commit commit_message (Some (before ++ keyword :: after))
  = is_relevant_commit commit_message (Some (before ++ after)).
Proof.
  intros Hup. rewrite !is_relevant_commit_some, !existsb_app. simpl.
  rewrite (contains_lower_no_upper _ _ Hup). reflexivity.
Qed.

Lemma keyword_with_upper_case_never_excludes_witness :
  is_relevant_commit "typo fix for header" (Some ["wip"; "Typo"]%string)
  = is_relevant_commit "typo fix for header" (Some ["wip"]%string).
Proof.
  apply (keyword_with_upper_case_never_excludes
           "typo fix for header" "Typo" ["wip"%string] []).
  exists 0%nat, "T"%char. split; reflexivity.
Defined.

End RelevanceMore.

(** ** The stage cache: a second run, and what a run leaves alone *)

Module FileCacheMore.
Import FileCache.

Section Cache.
Context {R : Type} `{Json R} {W : Type}.
Variable parent : string -> string.

Lemma ensure_parent_files (fs : file_system) (p : string) :
  files (if bool_decide (p ∈ dirs fs) then fs else mkdir_parents parent p fs)
  = files fs.
Proof. destruct (bool_decide _); reflexivity. Qed.


Lemma ensure_parent_In (fs : file_system) (p : string) :
  p ∈ dirs (if bool_decide (p ∈ dirs fs) then fs
            else mkdir_parents parent p fs).
Proof.
  destruct (bool_decide (p ∈ dirs fs)) eqn:E.
  - apply bool_decide_eq_true in E. exact E.
  - unfold mkdir_parents. cbn [dirs].
    apply elem_of_union_l, elem_of_list_to_set. left.
Qed.


(** X9. After a run that computed and stored a result, a second call for the
    same path runs no stage function: whatever function it is given, it
    returns the decoded text that the first run wrote and changes neither
    the file system nor the state of the stages. *)
Theorem process_and_save_second_run
    (process_method other : W -> result R * W) (file_path : string)
    (fs : file_system) (w : W) (result : R) :
  files fs !! file_path = None ->
  (process_and_save parent process_method file_path (fs, w)).1 = OK result ->
  let st := (process_and_save parent process_method file_path (fs, w)).2 in
  exists text,
    dumps result = OK text /\
    files st.1 !! file_path = Some text /\
    process_and_save parent other file_path st = (loads text, st).
Proof.
  intros Hnone Hok st. subst st. revert Hok. unfold process_and_save.
  cbn beta iota zeta.
  set (fs1 := if bool_decide (parent file_path ∈ dirs fs) then fs else _).
  assert (Hf1 : files fs1 = files fs) by apply ensure_parent_files.
  assert (Hd1 : parent file_path ∈ dirs fs1) by apply ensure_parent_In.
  clearbody fs1. rewrite Hf1, Hnone.
  destruct (process_method w) as [[r | e] w']; [| discriminate].
  destruct (dumps r) as [text | e] eqn:Hdump; [| discriminate].
  cbn [fst snd]. intros [= ->]. exists text.
  split; [exact Hdump |]. split; [apply lookup_insert_eq |].
  cbn [dirs files].
  rewrite bool_decide_eq_true_2 by exact Hd1.
  cbn [files]. rewrite lookup_insert_eq. reflexivity.
Qed.


Lemma process_and_save_stored (process_method : W -> result R * W)
    (file_path : string) (fs : file_system) (w : W) (text : string) :
  files fs !! file_path = Some text ->
  exists fs',
    process_and_save parent process_method file_path (fs, w)
    = (loads text, (fs', w)) /\
    files fs' = files fs.
Proof.
  intros Hl. unfold process_and_save. cbn beta iota zeta.
  set (fs1 := if bool_decide (parent file_path ∈ dirs fs) then fs else _).
  assert (Hf1 : files fs1 = files fs) by apply ensure_parent_files.
  clearbody fs1. rewrite Hf1, Hl. eauto.
Qed.

Lemma process_and_save_computed (process_method : W -> result R * W)
    (file_path : string) (fs : file_system) (w w' : W) (result : R)
    (text : string) :
  files fs !! file_path = None ->
  process_method w = (OK result, w') -> dumps result = OK text ->
  exists fs',
    process_and_save parent process_method file_path (fs, w)
    = (OK result, (fs', w')) /\
    files fs' = <[file_path := text]> (files fs).
Proof.
  intros Hl Hp Hd. unfold process_and_save. cbn beta iota zeta.
  set (fs1 := if bool_decide (parent file_path ∈ dirs fs) then fs else _).
  assert (Hf1 : files fs1 = files fs) by apply ensure_parent_files.
  clearbody fs1. rewrite Hf1, Hl, Hp, Hd. eexists. split; reflexivity.
Qed.

Lemma process_and_save_raised (process_method : W -> result R * W)
    (file_path : string) (fs : file_system) (w w' : W) (e : py_error) :
  files fs !! file_path = None ->
  process_method w = (Raise e, w') ->
  exists fs',
    process_and_save parent process_method file_path (fs, w)
    = (Raise e, (fs', w')) /\
    files fs' = files fs.
Proof.
  intros Hl Hp. unfold process_and_save. cbn beta iota zeta.
  set (fs1 := if bool_decide (parent file_path ∈ dirs fs) then fs else _).
  assert (Hf1 : files fs1 = files fs) by apply ensure_parent_files.
  clearbody fs1. rewrite Hf1, Hl, Hp. eauto.
Qed.

End Cache.

Import MoreSamples.

(** A path three directories deep in an empty file system: every directory
    on the way is made, and nothing else. *)
Example process_and_save_nested_directories :
  ancestors posix_parent 4 "/w/a/b"%string
  = ["/w/a/b"; "/w/a"; "/w"; "/"]%string /\
  posix_parent "/"%string = "/"%string /\
  dirs (process_and_save posix_parent sample_daily_stage
          "/w/a/b/c.json" (empty_fs, 0%nat)).2.1
  = {[ "/w/a/b"; "/w/a"; "/w"; "/" ]}%string.
Proof. repeat split; vm_compute; reflexivity. Qed.

Lemma process_and_save_second_run_witness :
  exists text,
    process_and_save sample_parent
      (fun runs : nat => (Raise CollaboratorError, S runs))
      "data/daily-summaries-h.json"
      (process_and_save sample_parent
         sample_daily_stage "data/daily-summaries-h.json"
         (empty_fs, 0%nat)).2
    = (OK text,
       (process_and_save sample_parent
          sample_daily_stage "data/daily-summaries-h.json"
          (empty_fs, 0%nat)).2).
Proof.
  destruct (process_and_save_second_run sample_parent
              sample_daily_stage
              (fun runs : nat => (Raise CollaboratorError, S runs))
              "data/daily-summaries-h.json" empty_fs 0%nat
              "dailies"%string)
    as (text & _ & _ & Hrun); [apply lookup_empty | reflexivity |].
  exists text. exact Hrun.
Defined.

Section Stages.
Context {D Wk M : Type} `{Json D} `{Json Wk} `{Json M} {W : Type}.
Variable parent : string -> string.
Variable daily_stage : W -> result D * W.
Variable weekly_stage : D -> W -> result Wk * W.
Variable monthly_stage : Wk -> W -> result M * W.

Local Abbreviation daily_path hash :=
  ("data/daily-summaries-" ++ hash ++ ".json")%string.
Local Abbreviation weekly_path hash :=
  ("data/weekly-summaries-" ++ hash ++ ".json")%string.
Local Abbreviation monthly_path hash :=
  ("data/monthly-summaries-" ++ hash ++ ".json")%string.

Lemma stage_paths_differ (hash : string) :
  daily_path hash <> weekly_path hash /\
  daily_path hash <> monthly_path hash /\
  weekly_path hash <> monthly_path hash.
Proof. simpl. repeat split; discriminate. Qed.

(** X11. When the three files of a run are stored and the first two can be
    decoded, no stage is run: the outcome is the decoded monthly file, and
    neither the files nor the state of the stages change. *)
Theorem summarize_stages_all_stored
    (hash : string) (fs : file_system) (w : W) (td tw tm : string)
    (d : D) (wk : Wk) :
  files fs !! daily_path hash = Some td ->
  files fs !! weekly_path hash = Some tw ->
  files fs !! monthly_path hash = Some tm ->
  loads td = OK d -> loads tw = OK wk ->
  let out := summarize_stages parent daily_stage weekly_stage monthly_stage
               hash (fs, w) in
  out.1 = loads tm /\ out.2.2 = w /\ files out.2.1 = files fs.
Proof.
  intros Hd Hw Hm Ld Lw. unfold summarize_stages.
  destruct (process_and_save_stored parent daily_stage _ fs w td Hd)
    as (fs1 & -> & Hf1).
  rewrite Ld. rewrite <- Hf1 in Hw, Hm.
  destruct (process_and_save_stored parent (weekly_stage d) _ fs1 w tw Hw)
    as (fs2 & -> & Hf2).
  rewrite Lw. rewrite <- Hf2 in Hm.
  destruct (process_and_save_stored parent (monthly_stage wk) _ fs2 w tm Hm)
    as (fs3 & -> & Hf3).
  simpl. split; [reflexivity |]. split; [reflexivity |]. congruence.
Qed.

(** X12. In a run with no stored file each stage is given what the stage
    before it returned, the state is threaded through the three stages, and
    the three results are stored, each under its own path. *)
Theorem summarize_stages_fresh_run
    (hash : string) (fs : file_system) (w w1 w2 w3 : W)
    (d : D) (wk : Wk) (m : M) (td tw tm : string) :
  files fs !! daily_path hash = None ->
  files fs !! weekly_path hash = None ->
  files fs !! monthly_path hash = None ->
  daily_stage w = (OK d, w1) -> dumps d = OK td ->
  weekly_stage d w1 = (OK wk, w2) -> dumps wk = OK tw ->
  monthly_stage wk w2 = (OK m, w3) -> dumps m = OK tm ->
  let out := summarize_stages parent daily_stage weekly_stage monthly_stage
               hash (fs, w) in
  out.1 = OK m /\ out.2.2 = w3 /\
  files out.2.1
  = <[monthly_path hash := tm]>
      (<[weekly_path hash := tw]> (<[daily_path hash := td]> (files fs))).
Proof.
  intros Hd Hw Hm Sd Dd Sw Dw Sm Dm. unfold summarize_stages.
  destruct (stage_paths_differ hash) as (Hdw & Hdm & Hwm).
  destruct (process_and_save_computed parent daily_stage _ fs w w1 d td Hd Sd Dd)
    as (fs1 & -> & Hf1).
  assert (Hw1 : files fs1 !! weekly_path hash = None)
    by (rewrite Hf1, lookup_insert_ne; [exact Hw | exact Hdw]).
  destruct (process_and_save_computed parent (weekly_stage d) _ fs1 w1 w2 wk tw
              Hw1 Sw Dw) as (fs2 & -> & Hf2).
  assert (Hm2 : files fs2 !! monthly_path hash = None).
  { rewrite Hf2, lookup_insert_ne by exact Hwm.
    rewrite Hf1, lookup_insert_ne; [exact Hm | exact Hdm]. }
  destruct (process_and_save_computed parent (monthly_stage wk) _ fs2 w2 w3 m tm
              Hm2 Sm Dm) as (fs3 & -> & Hf3).
  simpl. split; [reflexivity |]. split; [reflexivity |].
  rewrite Hf3, Hf2, Hf1. reflexivity.
Qed.

(** X13. When the weekly stage raises after the daily stage has returned,
    the error ends the run, the monthly stage is not run, and the daily
    result stays stored. *)
Theorem summarize_stages_keeps_finished_stage
    (hash : string) (fs : file_system) (w w1 w2 : W)
    (d : D) (td : string) (e : py_error) :
  files fs !! daily_path hash = None ->
  files fs !! weekly_path hash = None ->
  daily_stage w = (OK d, w1) -> dumps d = OK td ->
  weekly_stage d w1 = (Raise e, w2) ->
  let out := summarize_stages parent daily_stage weekly_stage monthly_stage
               hash (fs, w) in
  out.1 = Raise e /\ out.2.2 = w2 /\
  files out.2.1 = <[daily_path hash := td]> (files fs).
Proof.
  intros Hd Hw Sd Dd Sw. unfold summarize_stages.
  destruct (stage_paths_differ hash) as (Hdw & _ & _).
  destruct (process_and_save_computed parent daily_stage _ fs w w1 d td Hd Sd Dd)
    as (fs1 & -> & Hf1).
  assert (Hw1 : files fs1 !! weekly_path hash = None)
    by (rewrite Hf1, lookup_insert_ne; [exact Hw | exact Hdw]).
  destruct (process_and_save_raised parent (weekly_stage d) _ fs1 w1 w2 e Hw1 Sw)
    as (fs2 & -> & Hf2).
  simpl. split; [reflexivity |]. split; [reflexivity |]. congruence.
Qed.

End Stages.

Lemma summarize_stages_all_stored_witness :
  let fs := {| dirs := {[ "data"%string ]};
               files := {[ "data/daily-summaries-h.json"%string := "d"%string;
                           "data/weekly-summaries-h.json"%string := "w"%string;
                           "data/monthly-summaries-h.json"%string := "m"%string ]} |} in
  let out := summarize_stages sample_parent sample_daily_stage
               sample_weekly_stage sample_monthly_stage "h" (fs, 0%nat) in
  out.1 = OK "m"%string /\ out.2.2 = 0%nat /\ files out.2.1 = files fs.
Proof.
  intros fs.
  refine (summarize_stages_all_stored sample_parent sample_daily_stage
            sample_weekly_stage sample_monthly_stage "h" fs 0%nat
            "d" "w" "m" "d"%string "w"%string _ _ _ _ _);
    first [reflexivity | vm_compute; reflexivity].
Defined.

Lemma summarize_stages_fresh_run_witness :
  let out := summarize_stages sample_parent sample_daily_stage
               sample_weekly_stage sample_monthly_stage "h" (empty_fs, 0%nat) in
  out.1 = OK "monthlies of weeklies of dailies"%string /\ out.2.2 = 3%nat /\
  files out.2.1
  = <["data/monthly-summaries-h.json"%string
        := "monthlies of weeklies of dailies"%string]>
      (<["data/weekly-summaries-h.json"%string := "weeklies of dailies"%string]>
         (<["data/daily-summaries-h.json"%string := "dailies"%string]> ∅)).
Proof.
  apply (summarize_stages_fresh_run sample_parent sample_daily_stage
           sample_weekly_stage sample_monthly_stage "h" empty_fs
           0%nat 1%nat 2%nat 3%nat "dailies"%string
           "weeklies of dailies"%string
           "monthlies of weeklies of dailies"%string);
    first [apply lookup_empty | reflexivity].
Defined.

Lemma summarize_stages_keeps_finished_stage_witness :
  let out := summarize_stages sample_parent sample_daily_stage
               failing_weekly_stage sample_monthly_stage "h" (empty_fs, 0%nat) in
  out.1 = Raise CollaboratorError /\ out.2.2 = 2%nat /\
  files out.2.1 = <["data/daily-summaries-h.json"%string := "dailies"%string]> ∅.
Proof.
  apply (summarize_stages_keeps_finished_stage sample_parent sample_daily_stage
           failing_weekly_stage sample_monthly_stage "h" empty_fs
           0%nat 1%nat 2%nat "dailies"%string "dailies"%string CollaboratorError);
    first [apply lookup_empty | reflexivity].
Defined.

End FileCacheMore.

(** ** The consolidation of weights: the keys of the result *)

Module NormalizerMore.
Import Normalizer Groups GroupFacts SortFacts NormalizerFacts Buckets BucketFacts.

(** *** The order of strings *)

Lemma string_ltb_leb (a b : string) : String.ltb b a = negb (String.leb a b).
Proof.
  unfold String.ltb, String.leb. rewrite (String.compare_antisym b a).
  destruct (String.compare a b); reflexivity.
Qed.

Lemma string_leb_trans (a b c : string) :
  String.leb a b = true -> String.leb b c = true -> String.leb a c = true.
Proof.
  intros Hab Hbc. apply Is_true_true.
  apply (@transitivity _ String.le _ a b c); apply Is_true_true; assumption.
Qed.

Lemma string_leb_ne_ltb (a b : string) :
  String.leb a b = true -> a <> b -> String.ltb a b = true.
Proof.
  unfold String.leb, String.ltb. intros Hle Hne.
  destruct (String.compare a b) eqn:E; [| reflexivity | discriminate].
  apply String.compare_eq_iff in E. contradiction.
Qed.

(** *** The insertion sort sorts *)

Section Sorting.
Context {A : Type} (lt : A -> A -> bool).
Hypothesis lt_asym : forall x y, lt x y = true -> lt y x = false.

Lemma sort_insert_HdRel (a x : A) (l : list A) :
  lt x a = false -> HdRel (fun u v => lt v u = false) a l ->
  HdRel (fun u v => lt v u = false) a (sort_insert lt x l).
Proof.
  intros Hax Hl. destruct l as [| y l]; simpl; [constructor; exact Hax |].
  destruct (lt y x); constructor; [| exact Hax].
  inversion Hl; assumption.
Qed.

Lemma sort_insert_Sorted (x : A) (l : list A) :
  Sorted (fun u v => lt v u = false) l ->
  Sorted (fun u v => lt v u = false) (sort_insert lt x l).
Proof.
  induction 1 as [| y l Hs IH Hhd]; simpl; [repeat constructor |].
  destruct (lt y x) eqn:E.
  - constructor; [exact IH |]. apply sort_insert_HdRel; [| exact Hhd].
    apply lt_asym, E.
  - constructor; [constructor; assumption |]. constructor. exact E.
Qed.

Lemma py_sorted_Sorted (l : list A) :
  Sorted (fun u v => lt v u = false) (py_sorted lt l).
Proof.
  unfold py_sorted. induction l as [| x l IH]; simpl; [constructor |].
  apply sort_insert_Sorted, IH.
Qed.
End Sorting.

Lemma py_sorted_map {A B : Type} (lt : B -> B -> bool) (g : A -> B)
    (l : list A) :
  py_sorted lt (map g l) = map g (py_sorted (fun a b => lt (g a) (g b)) l).
Proof.
  unfold py_sorted. induction l as [| x l IH]; simpl; [reflexivity |].
  rewrite IH. apply sort_insert_map.
Qed.

Lemma Sorted_weaken {A : Type} (R R' : A -> A -> Prop) (l : list A) :
  (forall a b, R a b -> R' a b) -> Sorted R l -> Sorted R' l.
Proof.
  intros Himp. induction 1 as [| a l Hs IH Hhd]; constructor; [exact IH |].
  destruct Hhd; constructor. apply Himp. assumption.
Qed.

(** Distinct strings sorted with [<] are in strictly ascending order. *)
Lemma py_sorted_strings (keys : list string) :
  NoDup keys ->
  StronglySorted (fun a b => String.ltb a b = true) (py_sorted String.ltb keys).
Proof.
  intros Hnd.
  assert (Hs : StronglySorted (fun a b => String.leb a b = true)
                 (py_sorted String.ltb keys)).
  { apply Sorted_StronglySorted.
    - intros a b c. apply string_leb_trans.
    - eapply Sorted_weaken; [| apply (py_sorted_Sorted String.ltb)].
      + intros a b. simpl. rewrite string_ltb_leb.
        destruct (String.leb a b); simpl; congruence.
      + intros x y Hxy. rewrite string_ltb_leb.
        assert (Hle : String.leb x y = true).
        { unfold String.ltb in Hxy. unfold String.leb.
          destruct (String.compare x y); congruence. }
        rewrite Hle. reflexivity. }
  assert (Hnd' : NoDup (py_sorted String.ltb keys))
    by (rewrite <- (py_sorted_perm String.ltb keys); exact Hnd).
  induction Hs as [| a l Hl IH Ha]; [constructor |].
  apply NoDup_cons in Hnd' as [Hna Hnl].
  constructor; [apply IH, Hnl |].
  rewrite List.Forall_forall in Ha |- *. intros b Hb.
  apply string_leb_ne_ltb; [apply Ha, Hb |].
  intros ->. apply Hna, list_elem_of_In, Hb.
Qed.

Section Keys.
Context {F : Type} `{PyNum F}.

Lemma sorted_items_keys (d : @WeightMap F) :
  dict_keys (sorted_items d) = py_sorted String.ltb (dict_keys d).
Proof.
  unfold sorted_items, dict_keys. symmetry.
  apply (py_sorted_map String.ltb fst).
Qed.

(** *** The weights that the two loops collect *)

Lemma collect_weights_concat (group : list (@WeightMap F)) :
  collect_weights group = fold_left add_weight (concat group) [].
Proof.
  unfold collect_weights. generalize (@nil (string * F)).
  induction group as [| technologies group IH]; intros tw; simpl;
    [reflexivity |].
  rewrite fold_left_app. apply IH.
Qed.

Lemma add_weight_get (tw : @WeightMap F) (tech t : string) (w : F) :
  dict_get tech (add_weight tw (t, w))
  = if decide (tech = t)
    then Some (num_add (default num_zero (dict_get t tw)) w)
    else dict_get tech tw.
Proof.
  unfold add_weight. destruct (decide (tech = t)) as [-> | Hne].
  - destruct (dict_get t tw); simpl; apply dict_get_set_eq.
  - destruct (dict_get t tw); apply dict_get_set_ne; exact Hne.
Qed.

Lemma fold_add_weight_get (items : list (string * F)) (tw : @WeightMap F)
    (tech : string) :
  dict_get tech (fold_left add_weight items tw)
  = match map snd (List.filter (fun item => bool_decide (item.1 = tech)) items)
    with
    | [] => dict_get tech tw
    | occurrences =>
        Some (fold_left num_add occurrences
                (default num_zero (dict_get tech tw)))
    end.
Proof.
  revert tw. induction items as [| [t w] items IH]; intros tw; [reflexivity |].
  change (fold_left add_weight ((t, w) :: items) tw)
    with (fold_left add_weight items (add_weight tw (t, w))).
  rewrite IH, add_weight_get. cbn [List.filter fst].
  destruct (decide (tech = t)) as [-> | Hne].
  - rewrite bool_decide_eq_true_2 by reflexivity. cbn [map snd].
    destruct (map snd _); reflexivity.
  - rewrite bool_decide_eq_false_2 by congruence. reflexivity.
Qed.

Lemma add_weight_keys (tw : @WeightMap F) (t : string) (w : F) :
  dict_keys (add_weight tw (t, w))
  = if decide (t ∈ dict_keys tw) then dict_keys tw else dict_keys tw ++ [t].
Proof.
  unfold add_weight.
  destruct (dict_get t tw) as [w0 |] eqn:E; rewrite dict_keys_set, E.
  - rewrite decide_True; [reflexivity |].
    apply list_elem_of_In. apply dict_get_In in E.
    change t with (fst (t, w0)). apply in_map, E.
  - rewrite decide_False; [reflexivity |].
    rewrite list_elem_of_In. apply dict_get_None_keys, E.
Qed.

Lemma fold_add_weight_keys (items : list (string * F)) :
  dict_keys (fold_left add_weight items []) = first_seen (map fst items).
Proof.
  induction items as [| [t w] items IH] using rev_ind; [reflexivity |].
  rewrite fold_left_app, map_app. cbn [fold_left map fst].
  rewrite add_weight_keys, first_seen_snoc, IH.
  destruct (decide (t ∈ first_seen (map fst items))) as [Hin | Hnin];
    destruct (decide (t ∈ map fst items)) as [Hin' | Hnin'];
    try reflexivity; exfalso;
    rewrite list_elem_of_In in *; rewrite first_seen_In in *; contradiction.
Qed.

(** X14. The two loops collect the technologies in the order in which they
    first occur in the group, and the weight collected for a technology is
    the sum, from zero and in the order of the group, of the weights it
    occurs with. *)
Theorem collect_weights_by_occurrence (group : list (@WeightMap F))
    (tech : string) :
  let items := concat group in
  let occurrences :=
    map snd (List.filter (fun item => bool_decide (item.1 = tech)) items) in
  dict_keys (collect_weights group) = first_seen (map fst items) /\
  dict_get tech (collect_weights group)
  = match occurrences with
    | [] => None
    | _ => Some (py_sum occurrences)
    end.
Proof.
  intros items occurrences. rewrite collect_weights_concat. fold items.
  split; [apply fold_add_weight_keys |].
  rewrite fold_add_weight_get. fold occurrences.
  destruct occurrences; reflexivity.
Qed.

Lemma collect_weights_keys_In (group : list (@WeightMap F)) (tech : string) :
  In tech (dict_keys (collect_weights group)) <->
  exists technologies, In technologies group /\ In tech (dict_keys technologies).
Proof.
  rewrite collect_weights_concat, fold_add_weight_keys, first_seen_In.
  unfold dict_keys. rewrite concat_map, in_concat. split.
  - intros (ks & Hks & Hin). apply in_map_iff in Hks as (tw & <- & Htw). eauto.
  - intros (tw & Htw & Hin). exists (map fst tw). split; [| exact Hin].
    apply in_map, Htw.
Qed.

Lemma adjust_keys (percentages rounded adjusted : @WeightMap F) :
  adjust percentages rounded = OK adjusted ->
  dict_keys adjusted = dict_keys rounded.
Proof.
  unfold adjust. destruct (negb _); [| congruence].
  destruct (decimal_diffs percentages) as [dd |]; simpl; [| discriminate].
  destruct (sorted_techs dd) as [| t0 ?]; [discriminate |].
  destruct (dict_get t0 rounded) as [r |] eqn:E; [| discriminate].
  intros [= <-]. rewrite dict_keys_set, E. reflexivity.
Qed.

(** The keys after the percentages, the rounding, the adjustment and the
    final sort. *)
Lemma consolidated_keys (group : list (@WeightMap F))
    (percentages adjusted : @WeightMap F) (total : F) :
  compute_percentages (collect_weights group) total = OK percentages ->
  adjust percentages (round_percentages percentages) = OK adjusted ->
  StronglySorted (fun a b => String.ltb a b = true)
    (dict_keys (sorted_items adjusted)) /\
  (forall tech,
     In tech (dict_keys (sorted_items adjusted)) <->
     exists technologies,
       In technologies group /\ In tech (dict_keys technologies)).
Proof.
  intros Hp Ha.
  assert (Hk : dict_keys adjusted = dict_keys (collect_weights group)).
  { rewrite (adjust_keys _ _ _ Ha). unfold round_percentages.
    rewrite dict_keys_map_values. apply (compute_percentages_keys _ _ _ Hp). }
  rewrite sorted_items_keys, Hk. split.
  - apply py_sorted_strings, collect_weights_NoDup.
  - intros tech. rewrite <- collect_weights_keys_In. split; intros Hin.
    + eapply Permutation_in; [| exact Hin].
      apply Permutation_sym, py_sorted_perm.
    + eapply Permutation_in; [| exact Hin]. apply py_sorted_perm.
Qed.

(** X15. When the weekly consolidation returns, the technologies of its
    result are in strictly ascending order, hence without duplicates, and
    they are exactly the technologies that some map of the group names. *)
Theorem weekly_consolidate_keys (group : list (@WeightMap F))
    (result : @WeightMap F) :
  weekly_consolidate_technologies group = OK result ->
  StronglySorted (fun a b => String.ltb a b = true) (dict_keys result) /\
  (forall tech,
     In tech (dict_keys result) <->
     exists technologies,
       In technologies group /\ In tech (dict_keys technologies)).
Proof.
  intros Hr. apply weekly_consolidate_inv in Hr as (pct & adj & Hp & Ha & ->).
  eapply consolidated_keys; eassumption.
Qed.

(** X16. When the monthly consolidation returns, the technologies of its
    result are in strictly ascending order and each of them is named by some
    map of the group; unless the weights add up to zero, every technology
    that the group names is in the result. *)
Theorem monthly_consolidate_keys (group : list (@WeightMap F))
    (result : @WeightMap F) :
  monthly_consolidate_technologies group = OK result ->
  StronglySorted (fun a b => String.ltb a b = true) (dict_keys result) /\
  (forall tech,
     In tech (dict_keys result) ->
     exists technologies,
       In technologies group /\ In tech (dict_keys technologies)) /\
  (num_eqb (py_sum (dict_values (collect_weights group))) num_zero = false ->
   forall technologies tech,
     In technologies group -> In tech (dict_keys technologies) ->
     In tech (dict_keys result)).
Proof.
  intros Hr.
  destruct (num_eqb (py_sum (dict_values (collect_weights group))) num_zero)
    eqn:Hz.
  - rewrite (monthly_consolidate_zero group Hz) in Hr. injection Hr as <-.
    split; [constructor |]. split; [intros tech [] | discriminate].
  - apply (monthly_consolidate_inv group result Hz) in Hr
      as (pct & adj & Hp & Ha & ->).
    destruct (consolidated_keys group pct adj _ Hp Ha) as [Hs Hk].
    split; [exact Hs |]. split.
    + intros tech Hin. apply Hk, Hin.
    + intros _ technologies tech Hg Ht. apply Hk. eauto.
Qed.

End Keys.

Import Binary64.

Lemma weekly_consolidate_keys_witness :
  exists result,
    weekly_consolidate_technologies
      [[("Python"%string, 70%float); ("YAML"%string, 30%float)];
       [("Go"%string, 100%float); ("Python"%string, 50%float)]] = OK result /\
    dict_keys result = ["Go"; "Python"; "YAML"]%string /\
    StronglySorted (fun a b => String.ltb a b = true) (dict_keys result).
Proof.
  eexists. split; [vm_compute; reflexivity |]. split; [reflexivity |].
  apply (weekly_consolidate_keys
           [[("Python"%string, 70%float); ("YAML"%string, 30%float)];
            [("Go"%string, 100%float); ("Python"%string, 50%float)]]).
  vm_compute. reflexivity.
Defined.

Lemma monthly_consolidate_keys_witness :
  exists result,
    monthly_consolidate_technologies
      [[("Python"%string, 70%float); ("YAML"%string, 30%float)];
       [("Go"%string, 100%float); ("Python"%string, 50%float)]] = OK result /\
    dict_keys result = ["Go"; "Python"; "YAML"]%string /\
    StronglySorted (fun a b => String.ltb a b = true) (dict_keys result).
Proof.
  eexists. split; [vm_compute; reflexivity |]. split; [reflexivity |].
  apply (monthly_consolidate_keys
           [[("Python"%string, 70%float); ("YAML"%string, 30%float)];
            [("Go"%string, 100%float); ("Python"%string, 50%float)]]).
  vm_compute. reflexivity.
Defined.

End NormalizerMore.

(** ** Strings: reversal and stripping *)

Module PyStrFacts.
Import PyStr.
Local Open Scope string_scope.

(** Characters of the upper half, written by their code points: the
    capital E with acute accent, U+00C9, becomes the small one, U+00E9; the
    multiplication sign and the sharp s stay; the no-break space and the
    next-line control are stripped; and the length counts characters. *)
Example latin1_characters :
  lower (String "201" "CLAIR du jour") = String "233" "clair du jour" /\
  contains (String "233" "clair") (lower (String "201" "CLAIR du jour"))
  = true /\
  lower (String "215" (String "223" "")) = String "215" (String "223" "") /\
  strip (String "160" " x" ++ String "133" "") = "x" /\
  len (String "233" (String "233" (String "233" ""))) = 3%Z.
Proof. repeat split; reflexivity. Qed.

Lemma append_cons (a : ascii) (s1 s2 : string) :
  String a s1 ++ s2 = String a (s1 ++ s2).
Proof. reflexivity. Qed.

Lemma append_assoc (s1 s2 s3 : string) : (s1 ++ s2) ++ s3 = s1 ++ (s2 ++ s3).
Proof.
  induction s1 as [| a s1 IH]; [reflexivity |].
  rewrite !append_cons, IH. reflexivity.
Qed.

Lemma chars_app (s1 s2 : string) :
  list_ascii_of_string (s1 ++ s2)
  = (list_ascii_of_string s1 ++ list_ascii_of_string s2)%list.
Proof.
  induction s1 as [| a s1 IH]; [reflexivity |].
  rewrite append_cons. simpl. rewrite IH. reflexivity.
Qed.

Lemma rev_app_spec (s acc : string) :
  String.rev_app s acc = String.rev s ++ acc.
Proof.
  unfold String.rev. revert acc.
  induction s as [| a s IH]; intros acc; simpl; [reflexivity |].
  rewrite (IH (String a acc)), (IH (String a "")), append_assoc. reflexivity.
Qed.

Lemma rev_app_app (s1 s2 acc : string) :
  String.rev_app (s1 ++ s2) acc = String.rev_app s2 (String.rev_app s1 acc).
Proof.
  revert acc. induction s1 as [| a s1 IH]; intros acc; [reflexivity |].
  rewrite append_cons. simpl. apply IH.
Qed.

Lemma rev_cons (c : ascii) (s : string) :
  String.rev (String c s) = String.rev s ++ String c "".
Proof. unfold String.rev at 1. simpl. apply rev_app_spec. Qed.

Lemma rev_snoc (s : string) (c : ascii) :
  String.rev (s ++ String c "") = String c (String.rev s).
Proof. unfold String.rev. rewrite rev_app_app. reflexivity. Qed.

Lemma rev_involutive (s : string) : String.rev (String.rev s) = s.
Proof.
  induction s as [| a s IH]; [reflexivity |].
  rewrite rev_cons, rev_snoc, IH. reflexivity.
Qed.

Lemma lstrip_head (s : string) (c : ascii) (t : string) :
  lstrip s = String c t -> is_space c = false.
Proof.
  induction s as [| a s IH]; simpl; [discriminate |].
  destruct (is_space a) eqn:E; [exact IH | congruence].
Qed.

Lemma lstrip_idempotent (s : string) : lstrip (lstrip s) = lstrip s.
Proof.
  induction s as [| a s IH]; simpl; [reflexivity |].
  destruct (is_space a) eqn:E; [exact IH |]. simpl. rewrite E. reflexivity.
Qed.

Lemma lstrip_keeps_last (s : string) (c : ascii) :
  is_space c = false -> exists t, lstrip (s ++ String c "") = t ++ String c "".
Proof.
  intros Hc. induction s as [| a s IH].
  - simpl. rewrite Hc. exists "". reflexivity.
  - rewrite append_cons. simpl.
    destruct (is_space a); [exact IH |]. exists (String a s). reflexivity.
Qed.

Lemma rstrip_idempotent (s : string) : rstrip (rstrip s) = rstrip s.
Proof. unfold rstrip. rewrite rev_involutive, lstrip_idempotent. reflexivity. Qed.

(** Stripping on the right leaves a first character that is not white
    space where it is. *)
Lemma lstrip_rstrip (s : string) :
  lstrip s = s -> lstrip (rstrip s) = rstrip s.
Proof.
  intros Hs. destruct s as [| c s]; [reflexivity |].
  pose proof (lstrip_head _ _ _ Hs) as Hc.
  unfold rstrip. rewrite rev_cons.
  destruct (lstrip_keeps_last (String.rev s) c Hc) as (t & ->).
  rewrite rev_snoc. simpl. rewrite Hc. reflexivity.
Qed.

Lemma strip_idempotent (s : string) : strip (strip s) = strip s.
Proof.
  unfold strip.
  rewrite (lstrip_rstrip (lstrip s)) by apply lstrip_idempotent.
  apply rstrip_idempotent.
Qed.

Lemma sub_newlines_chars (rep : string) (in_run : bool) (s : string)
    (c : ascii) :
  In c (list_ascii_of_string (sub_newlines rep in_run s)) ->
  In c (list_ascii_of_string rep) \/
  (In c (list_ascii_of_string s) /\ c <> "010"%char).
Proof.
  revert in_run. induction s as [| a s IH]; intros in_run; simpl; [tauto |].
  destruct (Ascii.eqb a "010") eqn:E.
  - destruct in_run.
    + intros Hin. destruct (IH _ Hin) as [? | [? ?]]; auto.
    + rewrite chars_app. intros Hin. apply in_app_or in Hin as [Hin | Hin];
        [auto |]. destruct (IH _ Hin) as [? | [? ?]]; auto.
  - apply Ascii.eqb_neq in E. simpl. intros [<- | Hin]; [auto |].
    destruct (IH _ Hin) as [? | [? ?]]; auto.
Qed.

End PyStrFacts.

(** ** The summarizers: the text for the model, and the end of the calendar *)

Module SummarizerEdges.
Import PyDate PyDateFacts Extractor Normalizer Groups GroupFacts.
Import DateArithFacts Summarizer SummarizerFacts PyStrFacts.

Lemma Forall2_In_left {A B : Type} (P : A -> B -> Prop) (l : list A)
    (l' : list B) (x : A) :
  Forall2 P l l' -> In x l -> exists y, In y l' /\ P x y.
Proof.
  induction 1 as [| a b l l' Hab _ IH]; intros Hin; [destruct Hin |].
  destruct Hin as [<- | Hin]; [exists b; simpl; auto |].
  destruct (IH Hin) as (y & Hy & Hp). exists y. simpl. auto.
Qed.

Lemma toordinal_december_9999 (dd : Z) :
  toordinal (mkdate 9999 12 dd) = 3652028 + dd.
Proof. reflexivity. Qed.

Section Edges.
Context {F : Type} `{PyNum F}.
Variable generate : string -> result string.
Variable estimate_tokens : string -> Z.

(** X17. The summary that [_unify_and_summarize] returns is the stripped
    answer of the model to the prompt with the descriptions in place of
    [MESSAGES]: it has no white space around it, so that the second
    [strip()] changes nothing, and the token estimate was not above the
    threshold when there is one. *)
Theorem unify_and_summarize_stripped
    (combined_descriptions prompt : string) (max_token_threshold : option Z)
    (summary : string) :
  unify_and_summarize generate estimate_tokens combined_descriptions prompt
    max_token_threshold = OK summary ->
  (exists answer,
     generate (PyStr.replace "[MESSAGES]" combined_descriptions prompt)
     = OK answer /\
     summary = PyStr.strip answer) /\
  PyStr.strip summary = summary /\
  PyStr.lstrip summary = summary /\ PyStr.rstrip summary = summary /\
  (forall t, max_token_threshold = Some t ->
     estimate_tokens combined_descriptions <= t).
Proof.
  unfold unify_and_summarize. intros Hr.
  destruct (match max_token_threshold with
            | Some t => t <? estimate_tokens combined_descriptions
            | None => false
            end) eqn:Ht; [discriminate |].
  apply rbind_ok in Hr as (answer & Hg & Hr). injection Hr as <-.
  rewrite !strip_idempotent.
  split; [eauto |]. split; [reflexivity |].
  split; [| split].
  - unfold PyStr.strip. apply lstrip_rstrip, lstrip_idempotent.
  - unfold PyStr.strip. apply rstrip_idempotent.
  - intros t ->. apply Z.ltb_ge in Ht. exact Ht.
Qed.

(** X18. The text that the weekly and the monthly summarizer build from the
    descriptions of a group has no line feed in it: it is a single line
    between the two fences. *)
Theorem combine_descriptions_single_line (descriptions : list string) :
  ~ In "010"%char (list_ascii_of_string (combine_descriptions descriptions)).
Proof.
  unfold combine_descriptions. rewrite !chars_app. intros Hin.
  apply in_app_or in Hin as [Hin | Hin];
    [simpl in Hin; repeat destruct Hin as [Hin | Hin]; try discriminate;
     destruct Hin |].
  apply in_app_or in Hin as [Hin | Hin];
    [| simpl in Hin; repeat destruct Hin as [Hin | Hin]; try discriminate;
       destruct Hin].
  apply sub_newlines_chars in Hin as [Hin | [_ Hne]]; [| congruence].
  simpl in Hin. repeat destruct Hin as [Hin | Hin]; try discriminate.
  destruct Hin.
Qed.

(** X19. The weekly summarizer never returns when a daily bucket is dated
    27 to 31 December 9999: the Sunday that would end that week is after
    the last day that a date can hold. *)
Theorem weekly_summarize_last_week_of_9999
    (PROMPT : string) (data : list (@daily_summary F))
    (item : @daily_summary F) (dd : Z) :
  In item data -> d_date item = mkdate 9999 12 dd -> 27 <= dd <= 31 ->
  forall buckets,
    weekly_summarize generate estimate_tokens PROMPT data <> OK buckets.
Proof.
  intros Hin Hd Hdd buckets Hb.
  apply weekly_buckets in Hb as (summaries & Hg & Hb).
  unfold weekly_groups in Hg.
  destruct (group_by_spec (fun item => week_start_of (d_date item))
              d_commit_count data [] summaries Hg)
    as (_ & Hmem & _ & _);
    [split; [constructor | intros ? ? []] |].
  destruct (Hmem item Hin) as (k & g & Hk & Hget & _).
  apply dict_get_In in Hget.
  destruct (Forall2_In_left _ _ _ _ Hb Hget) as (b & _ & _ & Hend & _).
  simpl in Hend. apply add_days_inv in Hend as (Hrange & _ & _).
  apply week_start_of_inv in Hk as (_ & _ & Ho).
  rewrite Hd in Ho. unfold weekday in Ho.
  rewrite toordinal_december_9999 in Ho. unfold MAXORDINAL in Hrange.
  Z.div_mod_to_equations. lia.
Qed.

End Edges.

Import Binary64 Samples MoreSamples.

Lemma unify_and_summarize_stripped_witness :
  PyStr.strip "Work on the resolver." = "Work on the resolver."%string.
Proof.
  apply (unify_and_summarize_stripped sample_generate sample_estimate_tokens
           "```Add retry policy```" "Summarize: [MESSAGES]" (Some 100)
           "Work on the resolver.").
  vm_compute. reflexivity.
Defined.

Lemma weekly_summarize_last_week_of_9999_witness :
  weekly_summarize sample_generate sample_estimate_tokens "[MESSAGES]"
    [late_daily] <> OK [].
Proof.
  apply (weekly_summarize_last_week_of_9999 sample_generate
           sample_estimate_tokens "[MESSAGES]" [late_daily] late_daily 29);
    [left; reflexivity | reflexivity | lia].
Defined.

End SummarizerEdges.

(** ** The model providers: retries, pauses and the cache *)

Module ProviderFacts.
Import Provider.

Lemma total_delays (n : nat) (initial_delay : Q) :
  (0 < initial_delay)%Q ->
  (0 <= total (delays n initial_delay))%Q /\
  (total (delays n initial_delay) < 2 * initial_delay)%Q.
Proof.
  revert initial_delay. induction n as [| n IH]; intros d Hd; unfold total;
    simpl.
  - split; lra.
  - destruct (IH (d * (1 # 2))%Q) as [Hlo Hhi]; [lra |].
    unfold total in Hlo, Hhi. split; lra.
Qed.

Lemma delays_length (n : nat) (initial_delay : Q) :
  length (delays n initial_delay) = n.
Proof.
  revert initial_delay. induction n as [| n IH]; intros d; simpl;
    [reflexivity | rewrite IH; reflexivity].
Qed.

Section Generate.
Context {C : Type}.
Variable who : provider.
Variable cache_get : C -> string -> option string.
Variable cache_set : C -> string -> string -> C.
Variable create : nat -> string -> api_outcome.

Local Abbreviation retry_loop := (retry_loop who cache_set create).
Local Abbreviation generate := (generate who cache_get cache_set create).

(** The loop after [j] refused requests, where the handler of a refused
    request runs. *)
Lemma retry_loop_refused (j n : nat) (initial_delay : Q) (prompt : string)
    (use_cache : bool) (st : state) :
  imports_logging who = true ->
  (forall i, (i < j)%nat -> create (requests st + i) prompt = RateLimited) ->
  exists d',
    retry_loop (j + n) initial_delay prompt use_cache st
    = retry_loop n d' prompt use_cache
        {| cache := cache st; requests := requests st + j;
           sleeps := sleeps st ++ delays j initial_delay |}.
Proof.
  intros Himp. revert initial_delay st.
  induction j as [| j IH]; intros d st Hrl.
  - exists d. simpl. rewrite Nat.add_0_r, app_nil_r. destruct st; reflexivity.
  - pose proof (Hrl 0%nat ltac:(lia)) as H0. rewrite Nat.add_0_r in H0.
    destruct (IH (d * (1 # 2))%Q
                {| cache := cache st; requests := S (requests st);
                   sleeps := sleeps st ++ [d] |}) as (d' & E).
    { intros i Hi. simpl. rewrite <- Nat.add_succ_r. apply Hrl. lia. }
    exists d'. simpl. rewrite H0, Himp. rewrite E. simpl.
    rewrite <- app_assoc, Nat.add_succ_r. reflexivity.
Qed.

(** The first refused request where the handler cannot run. *)
Lemma retry_loop_name_error (n : nat) (initial_delay : Q) (prompt : string)
    (use_cache : bool) (st : state) :
  imports_logging who = false ->
  create (requests st) prompt = RateLimited ->
  retry_loop (S n) initial_delay prompt use_cache st
  = (inr (NameError "logging"),
     {| cache := cache st; requests := S (requests st);
        sleeps := sleeps st |}).
Proof. intros Himp Hrl. simpl. rewrite Hrl, Himp. reflexivity. Qed.

Lemma retry_loop_completed (n : nat) (initial_delay : Q) (prompt : string)
    (use_cache : bool) (st : state) (response : string) :
  create (requests st) prompt = Completed response ->
  retry_loop (S n) initial_delay prompt use_cache st
  = (inl response,
     {| cache := if use_cache then cache_set (cache st) prompt response
                 else cache st;
        requests := S (requests st); sleeps := sleeps st |}).
Proof. intros E. simpl. rewrite E. destruct use_cache; reflexivity. Qed.

Lemma retry_loop_failed (n : nat) (initial_delay : Q) (prompt : string)
    (use_cache : bool) (st : state) (reason : string) :
  create (requests st) prompt = Failed reason ->
  retry_loop (S n) initial_delay prompt use_cache st
  = (inr (UnexpectedError reason),
     {| cache := cache st; requests := S (requests st);
        sleeps := sleeps st |}).
Proof. intros E. simpl. rewrite E. reflexivity. Qed.

(** What the loop leaves behind, whatever the service answers. *)
Lemma retry_loop_bounded (remaining : nat) (initial_delay : Q)
    (prompt : string) (use_cache : bool) (st : state) :
  let out := retry_loop remaining initial_delay prompt use_cache st in
  exists j,
    (j <= remaining)%nat /\
    sleeps out.2 = sleeps st ++ delays j initial_delay /\
    (requests st + j <= requests out.2 <= requests st + remaining)%nat /\
    (out.1 = inr RetriesExhausted ->
     j = remaining /\ requests out.2 = (requests st + remaining)%nat) /\
    (forall response, out.1 = inl response ->
       cache out.2
       = if use_cache then cache_set (cache st) prompt response
         else cache st) /\
    (forall e, out.1 = inr e -> cache out.2 = cache st).
Proof.
  revert initial_delay st. induction remaining as [| n IH]; intros d st.
  - exists 0%nat. simpl. rewrite app_nil_r, Nat.add_0_r.
    repeat split; try lia; try reflexivity; discriminate.
  - simpl. destruct (create (requests st) prompt) as [response | | reason].
    + exists 0%nat. simpl. rewrite app_nil_r.
      split; [lia |]. split; [destruct use_cache; reflexivity |].
      split; [destruct use_cache; simpl; lia |].
      split; [discriminate |]. split; [| discriminate].
      intros r [= <-]. destruct use_cache; reflexivity.
    + destruct (imports_logging who).
      * destruct (IH (d * (1 # 2))%Q
                    {| cache := cache st; requests := S (requests st);
                       sleeps := sleeps st ++ [d] |})
          as (j & Hj & Hs & Hr & Hex & Hok & Herr).
        simpl in Hs, Hr, Hex, Hok, Herr.
        exists (S j). split; [lia |].
        split; [rewrite Hs, <- app_assoc; reflexivity |].
        split; [lia |]. split; [| split; assumption].
        intros He. destruct (Hex He). split; lia.
      * exists 0%nat. simpl. rewrite app_nil_r.
        split; [lia |]. split; [reflexivity |]. split; [lia |].
        split; [discriminate |]. split; [discriminate | reflexivity].
    + exists 0%nat. simpl. rewrite app_nil_r.
      split; [lia |]. split; [reflexivity |]. split; [lia |].
      split; [discriminate |]. split; [discriminate | reflexivity].
Qed.

Lemma generate_miss (prompt : string) (use_cache : bool) (st : state) :
  (use_cache = true -> cache_get (cache st) prompt = None) ->
  generate prompt use_cache st
  = retry_loop max_retries 5 prompt use_cache st.
Proof.
  intros Hmiss. unfold Provider.generate.
  destruct (cache_get (cache st) prompt) eqn:Eg; [| reflexivity].
  destruct use_cache; [| reflexivity].
  specialize (Hmiss eq_refl). discriminate.
Qed.

(** X20. A call of [generate] sends at most fifteen requests and pauses at
    most once after each of them: 5 seconds, then half of the pause before,
    less than 10 seconds in all.  When it gives up for the rate limit it has
    sent fifteen requests and paused fifteen times, the last time before
    raising. *)
Theorem generate_bounded (prompt : string) (use_cache : bool) (st : state) :
  let out := generate prompt use_cache st in
  exists j,
    (j <= 15)%nat /\
    sleeps out.2 = sleeps st ++ delays j 5 /\
    (total (delays j 5) < 10)%Q /\
    (requests st + j <= requests out.2 <= requests st + 15)%nat /\
    (out.1 = inr RetriesExhausted ->
     j = 15%nat /\ requests out.2 = (requests st + 15)%nat).
Proof.
  unfold Provider.generate.
  assert (Hloop :
    let out := retry_loop max_retries 5 prompt use_cache st in
    exists j,
      (j <= 15)%nat /\
      sleeps out.2 = sleeps st ++ delays j 5 /\
      (total (delays j 5) < 10)%Q /\
      (requests st + j <= requests out.2 <= requests st + 15)%nat /\
      (out.1 = inr RetriesExhausted ->
       j = 15%nat /\ requests out.2 = (requests st + 15)%nat)).
  { destruct (retry_loop_bounded max_retries 5 prompt use_cache st)
      as (j & Hj & Hs & Hr & Hex & _).
    exists j. split; [exact Hj |]. split; [exact Hs |].
    split; [| split; [exact Hr | exact Hex]].
    destruct (total_delays j 5) as [_ Hlt]; lra. }
  destruct (cache_get (cache st) prompt) as [response |]; [| exact Hloop].
  destruct use_cache; [| exact Hloop].
  exists 0%nat. simpl. rewrite app_nil_r.
  split; [lia |]. split; [reflexivity |].
  split; [unfold total; simpl; lra |]. split; [lia | discriminate].
Qed.

(** X21. The first request that the service does not refuse for its rate
    limit ends the call: after [j] refused requests, with [j] below
    fifteen, a response is returned, and stored when the cache is in use,
    and any other failure is raised at once, without a further request;
    [j + 1] requests were sent, with a pause after each of the first [j].
    This is so for [Openai] and [Googlegenai], and for [Ollama] when no
    request is refused; a call of [Ollama.generate] whose first request is
    refused ends there with [NameError], after one request and no pause. *)
Theorem generate_stops_at_first_answer
    (prompt : string) (use_cache : bool) (st : state) (j : nat) :
  (use_cache = true -> cache_get (cache st) prompt = None) ->
  (j < 15)%nat ->
  (forall i, (i < j)%nat -> create (requests st + i) prompt = RateLimited) ->
  if imports_logging who || (j =? 0)%nat then
    (forall response,
       create (requests st + j) prompt = Completed response ->
       generate prompt use_cache st
       = (inl response,
          {| cache := if use_cache
                      then cache_set (cache st) prompt response
                      else cache st;
             requests := requests st + S j;
             sleeps := sleeps st ++ delays j 5 |})) /\
    (forall reason,
       create (requests st + j) prompt = Failed reason ->
       generate prompt use_cache st
       = (inr (UnexpectedError reason),
          {| cache := cache st; requests := requests st + S j;
             sleeps := sleeps st ++ delays j 5 |}))
  else
    generate prompt use_cache st
    = (inr (NameError "logging"),
       {| cache := cache st; requests := requests st + 1;
          sleeps := sleeps st |}).
Proof.
  intros Hmiss Hj Hrl.
  rewrite (generate_miss prompt use_cache st Hmiss). unfold max_retries.
  destruct (imports_logging who) eqn:Himp; cbn [orb].
  - replace 15%nat with (j + S (14 - j))%nat by lia.
    destruct (retry_loop_refused j (S (14 - j)) 5 prompt use_cache st Himp Hrl)
      as (d' & ->).
    split; intros r E.
    + rewrite (retry_loop_completed _ _ _ _ _ r) by exact E.
      cbn [cache requests sleeps]. rewrite Nat.add_succ_r. reflexivity.
    + rewrite (retry_loop_failed _ _ _ _ _ r) by exact E.
      cbn [cache requests sleeps]. rewrite Nat.add_succ_r. reflexivity.
  - destruct j as [| j]; cbn [Nat.eqb].
    + rewrite Nat.add_0_r. cbn [delays]. rewrite app_nil_r.
      split; intros r E.
      * rewrite (retry_loop_completed _ _ _ _ _ r) by exact E.
        rewrite Nat.add_1_r. reflexivity.
      * rewrite (retry_loop_failed _ _ _ _ _ r) by exact E.
        rewrite Nat.add_1_r. reflexivity.
    + pose proof (Hrl 0%nat ltac:(lia)) as H0. rewrite Nat.add_0_r in H0.
      rewrite retry_loop_name_error by assumption.
      rewrite Nat.add_1_r. reflexivity.
Qed.

(** X22. When the service refuses every request, the call raises and
    leaves the cache as it was: [Openai] and [Googlegenai] give up after
    fifteen requests, having paused after every one of them, the last
    included; [Ollama] raises [NameError] in the handler of the first
    refused request, after one request and without a pause. *)
Theorem generate_gives_up (prompt : string) (use_cache : bool) (st : state) :
  (use_cache = true -> cache_get (cache st) prompt = None) ->
  (forall i, (i < 15)%nat -> create (requests st + i) prompt = RateLimited) ->
  generate prompt use_cache st
  = if imports_logging who then
      (inr RetriesExhausted,
       {| cache := cache st; requests := requests st + 15;
          sleeps := sleeps st ++ delays 15 5 |})
    else
      (inr (NameError "logging"),
       {| cache := cache st; requests := requests st + 1;
          sleeps := sleeps st |}).
Proof.
  intros Hmiss Hrl.
  rewrite (generate_miss prompt use_cache st Hmiss). unfold max_retries.
  destruct (imports_logging who) eqn:Himp.
  - destruct (retry_loop_refused 15 0 5 prompt use_cache st Himp Hrl)
      as (d' & E).
    exact E.
  - rewrite retry_loop_name_error; [rewrite Nat.add_1_r; reflexivity | exact Himp |].
    rewrite <- (Nat.add_0_r (requests st)). apply Hrl. lia.
Qed.

(** X23. When the cache gives back what was stored in it, a call that
    returned a response with the cache in use is followed by calls that
    return the same response without a request and without a pause. *)
Theorem generate_twice (prompt response : string) (st st1 : state) :
  cache_get (cache_set (cache st) prompt response) prompt = Some response ->
  generate prompt true st = (inl response, st1) ->
  generate prompt true st1 = (inl response, st1).
Proof.
  intros Hlaw Hfirst. unfold Provider.generate in *.
  destruct (cache_get (cache st) prompt) as [r0 |] eqn:Eg.
  - injection Hfirst as <- <-. rewrite Eg. reflexivity.
  - destruct (retry_loop_bounded max_retries 5 prompt true st)
      as (j & _ & _ & _ & _ & Hok & _).
    rewrite Hfirst in Hok. simpl in Hok.
    rewrite (Hok response eq_refl), Hlaw. reflexivity.
Qed.

(** X24. Without the cache ([cache=False]) a call neither reads what the
    cache holds nor stores anything in it: the cache is as before, and the
    outcome, the requests and the pauses are those of a call that starts
    with any other cache. *)
Theorem generate_without_cache (prompt : string) (st : state) (c : C) :
  let out := generate prompt false st in
  let out' := generate prompt false
                {| cache := c; requests := requests st;
                   sleeps := sleeps st |} in
  cache out.2 = cache st /\
  out'.1 = out.1 /\ requests out'.2 = requests out.2 /\
  sleeps out'.2 = sleeps out.2.
Proof.
  assert (Hg : forall s, generate prompt false s
                         = retry_loop max_retries 5 prompt false s).
  { intros s. unfold Provider.generate.
    destruct (cache_get (cache s) prompt); reflexivity. }
  simpl. rewrite !Hg. generalize max_retries, 5%Q. intros n d.
  clear Hg. revert d st c. induction n as [| n IH]; intros d st c; simpl.
  - auto.
  - destruct (create (requests st) prompt) as [response | | reason]; simpl;
      [auto | | auto].
    destruct (imports_logging who); [| simpl; auto].
    destruct (IH (d * (1 # 2))%Q
                {| cache := cache st; requests := S (requests st);
                   sleeps := sleeps st ++ [d] |} c) as (H1 & H2 & H3 & H4).
    simpl in *. auto.
Qed.

End Generate.

Import MoreSamples.

Lemma generate_stops_at_first_answer_witness :
  generate Openai sample_cache_get sample_cache_set sample_create "Summarize"
    true fresh_state
  = (inl "answer to Summarize"%string,
     {| cache := <["Summarize"%string := "answer to Summarize"%string]> ∅;
        requests := 3; sleeps := [5%Q; (5 * (1 # 2))%Q] |}) /\
  generate Ollama sample_cache_get sample_cache_set sample_create "Summarize"
    true fresh_state
  = (inr (NameError "logging"),
     {| cache := ∅; requests := 1; sleeps := [] |}).
Proof.
  split.
  - apply (generate_stops_at_first_answer Openai sample_cache_get
             sample_cache_set sample_create "Summarize" true fresh_state 2).
    + intros _. apply lookup_empty.
    + lia.
    + intros i Hi. destruct i as [| [| i]]; [reflexivity | reflexivity | lia].
    + reflexivity.
  - apply (generate_stops_at_first_answer Ollama sample_cache_get
             sample_cache_set sample_create "Summarize" true fresh_state 2).
    + intros _. apply lookup_empty.
    + lia.
    + intros i Hi. destruct i as [| [| i]]; [reflexivity | reflexivity | lia].
Defined.

Lemma generate_gives_up_witness :
  generate Googlegenai sample_cache_get sample_cache_set busy_create
    "Summarize" true fresh_state
  = (inr RetriesExhausted,
     {| cache := ∅; requests := 15; sleeps := delays 15 5 |}) /\
  generate Ollama sample_cache_get sample_cache_set busy_create
    "Summarize" true fresh_state
  = (inr (NameError "logging"),
     {| cache := ∅; requests := 1; sleeps := [] |}).
Proof.
  split.
  - apply (generate_gives_up Googlegenai sample_cache_get sample_cache_set
             busy_create "Summarize" true fresh_state).
    + intros _. apply lookup_empty.
    + intros i _. reflexivity.
  - apply (generate_gives_up Ollama sample_cache_get sample_cache_set
             busy_create "Summarize" true fresh_state).
    + intros _. apply lookup_empty.
    + intros i _. reflexivity.
Defined.

Lemma generate_twice_witness :
  generate Openai sample_cache_get sample_cache_set sample_create "Summarize"
    true
    {| cache := <["Summarize"%string := "answer to Summarize"%string]> ∅;
       requests := 3; sleeps := [5%Q; (5 * (1 # 2))%Q] |}
  = (inl "answer to Summarize"%string,
     {| cache := <["Summarize"%string := "answer to Summarize"%string]> ∅;
        requests := 3; sleeps := [5%Q; (5 * (1 # 2))%Q] |}).
Proof.
  apply (generate_twice Openai sample_cache_get sample_cache_set sample_create
           "Summarize" "answer to Summarize" fresh_state).
  - apply lookup_insert_eq.
  - reflexivity.
Defined.

End ProviderFacts.

(** ** More of [str]: parts, stripped ends and extensions *)

Module PyTextFacts.
Import PyStr PyText PyStrFacts.
Local Open Scope string_scope.

Local Abbreviation chars := list_ascii_of_string.

Lemma append_nil_r (s : string) : s ++ "" = s.
Proof.
  induction s as [| a s IH]; [reflexivity |].
  rewrite append_cons, IH. reflexivity.
Qed.

Lemma rev_append (s1 s2 : string) :
  String.rev (s1 ++ s2) = String.rev s2 ++ String.rev s1.
Proof.
  unfold String.rev at 1. rewrite rev_app_app, rev_app_spec. reflexivity.
Qed.

Lemma chars_rev (s : string) : chars (String.rev s) = rev (chars s).
Proof.
  induction s as [| a s IH]; [reflexivity |].
  rewrite rev_cons, chars_app, IH. reflexivity.
Qed.

(** A string is empty or has a last character. *)
Lemma string_snoc (s : string) :
  s = "" \/ exists t c, s = t ++ String c "".
Proof.
  rewrite <- (rev_involutive s). destruct (String.rev s) as [| c r].
  - left. reflexivity.
  - right. exists (String.rev r), c. apply rev_cons.
Qed.

Lemma truthy_true (s : string) : truthy s = true <-> s <> "".
Proof. destruct s; simpl; split; congruence. Qed.

(** *** Stripping *)

Lemma lstrip_is_where (s : string) : lstrip s = lstrip_where is_space s.
Proof.
  induction s as [| a s IH]; simpl; [reflexivity |].
  rewrite IH. reflexivity.
Qed.

Lemma rstrip_is_where (s : string) : rstrip s = rstrip_where is_space s.
Proof. unfold rstrip, rstrip_where. rewrite lstrip_is_where. reflexivity. Qed.

Section Where.
Variable drops : ascii -> bool.

Lemma lstrip_where_chars (s : string) (c : ascii) :
  In c (chars (lstrip_where drops s)) -> In c (chars s).
Proof.
  induction s as [| a s IH]; simpl; [tauto |].
  destruct (drops a); simpl; auto.
Qed.

Lemma rstrip_where_chars (s : string) (c : ascii) :
  In c (chars (rstrip_where drops s)) -> In c (chars s).
Proof.
  unfold rstrip_where. rewrite chars_rev, <- in_rev. intros Hin.
  apply lstrip_where_chars in Hin. rewrite chars_rev, <- in_rev in Hin.
  exact Hin.
Qed.

Lemma lstrip_where_all (a b : string) :
  (forall c, In c (chars a) -> drops c = true) ->
  lstrip_where drops (a ++ b) = lstrip_where drops b.
Proof.
  induction a as [| x a IH]; intros Hall; [reflexivity |].
  rewrite append_cons. simpl. rewrite (Hall x) by (left; reflexivity).
  apply IH. intros c Hc. apply Hall. right. exact Hc.
Qed.

Lemma lstrip_where_kept (c : ascii) (s : string) :
  drops c = false -> lstrip_where drops (String c s) = String c s.
Proof. intros Hc. simpl. rewrite Hc. reflexivity. Qed.

Lemma rstrip_where_all (a b : string) :
  (forall c, In c (chars b) -> drops c = true) ->
  rstrip_where drops (a ++ b) = rstrip_where drops a.
Proof.
  intros Hall. unfold rstrip_where. rewrite rev_append, lstrip_where_all;
    [reflexivity |].
  intros c Hc. rewrite chars_rev, <- in_rev in Hc. apply Hall, Hc.
Qed.

Lemma rstrip_where_kept (s : string) (c : ascii) :
  drops c = false ->
  rstrip_where drops (s ++ String c "") = s ++ String c "".
Proof.
  intros Hc. unfold rstrip_where.
  rewrite rev_snoc, lstrip_where_kept by exact Hc.
  rewrite rev_cons, rev_involutive. reflexivity.
Qed.

(** Stripping both ends uncovers a core whose first and last characters
    stay. *)
Lemma strip_where_core (a core b : string) :
  (forall c, In c (chars a) -> drops c = true) ->
  (forall c, In c (chars b) -> drops c = true) ->
  (exists c t, core = String c t /\ drops c = false) ->
  (exists t c, core = t ++ String c "" /\ drops c = false) ->
  rstrip_where drops (lstrip_where drops (a ++ core ++ b)) = core.
Proof.
  intros Ha Hb (c1 & t1 & E1 & K1) (t2 & c2 & E2 & K2).
  rewrite lstrip_where_all by exact Ha.
  assert (Hl : lstrip_where drops (core ++ b) = core ++ b).
  { rewrite E1, append_cons. apply lstrip_where_kept, K1. }
  rewrite Hl, rstrip_where_all by exact Hb.
  rewrite E2. apply rstrip_where_kept, K2.
Qed.

(** White space around a core does not change its ends when the white
    space stays too. *)
Lemma wrapped_first (a core b : string) :
  (forall c, In c (chars a) -> drops c = false) ->
  (exists c t, core = String c t /\ drops c = false) ->
  exists c t, a ++ core ++ b = String c t /\ drops c = false.
Proof.
  intros Ha (c1 & t1 & -> & K1). destruct a as [| x a].
  - exists c1, (t1 ++ b). split; [reflexivity | exact K1].
  - exists x, (a ++ String c1 t1 ++ b). split; [reflexivity |].
    apply Ha. left. reflexivity.
Qed.

Lemma wrapped_last (a core b : string) :
  (forall c, In c (chars b) -> drops c = false) ->
  (exists t c, core = t ++ String c "" /\ drops c = false) ->
  exists t c, a ++ core ++ b = t ++ String c "" /\ drops c = false.
Proof.
  intros Hb (t2 & c2 & -> & K2). destruct (string_snoc b) as [-> | (b' & y & ->)].
  - exists (a ++ t2), c2. rewrite append_nil_r, append_assoc.
    split; [reflexivity | exact K2].
  - exists (a ++ (t2 ++ String c2 "") ++ b'), y.
    rewrite !append_assoc. split; [reflexivity |].
    apply Hb. rewrite chars_app. apply in_or_app. right. left. reflexivity.
Qed.

End Where.

Lemma strip_chars_subset (s : string) (c : ascii) :
  In c (chars (strip s)) -> In c (chars s).
Proof.
  unfold strip. rewrite rstrip_is_where, lstrip_is_where. intros Hin.
  apply rstrip_where_chars, lstrip_where_chars in Hin. exact Hin.
Qed.

(** *** Parts *)

Lemma split_not_nil (sep : ascii) (s : string) : split sep s <> [].
Proof.
  destruct s as [| c s]; simpl; [discriminate |].
  destruct (Ascii.eqb c sep); [discriminate |].
  destruct (split sep s); discriminate.
Qed.

Lemma split_no_sep (sep : ascii) (s part : string) :
  In part (split sep s) -> ~ In sep (chars part).
Proof.
  revert part. induction s as [| c s IH]; intros part; simpl.
  - intros [<- | []]. simpl. tauto.
  - destruct (Ascii.eqb c sep) eqn:E.
    + intros [<- | Hin]; [simpl; tauto | apply IH, Hin].
    + apply Ascii.eqb_neq in E.
      destruct (split sep s) as [| p0 ps] eqn:Es.
      * intros [<- | []]. simpl. intros [? | []]. congruence.
      * intros [<- | Hin].
        -- simpl. intros [? | Hp]; [congruence |].
           apply (IH p0); [left; reflexivity | exact Hp].
        -- apply IH. right. exact Hin.
Qed.

Lemma split_length (sep : ascii) (s : string) :
  length (split sep s) = S (count_occ ascii_dec (chars s) sep).
Proof.
  induction s as [| c s IH]; simpl; [reflexivity |].
  destruct (Ascii.eqb c sep) eqn:E.
  - apply Ascii.eqb_eq in E. subst c.
    destruct (ascii_dec sep sep); [| congruence]. simpl. rewrite IH.
    reflexivity.
  - apply Ascii.eqb_neq in E.
    destruct (ascii_dec c sep); [congruence |].
    rewrite <- IH. destruct (split sep s); [| reflexivity].
    simpl in IH. discriminate.
Qed.

End PyTextFacts.

(** ** The configuration: lists and dates *)

Module ConfigFacts.
Import PyStr PyText PyStrFacts PyTextFacts Config GroupFacts.
Local Open Scope string_scope.

Lemma stripped_parts (s item : string) :
  In item (map strip
             (List.filter (fun part => truthy (strip part)) (split "," s))) ->
  item <> "" /\ strip item = item /\
  ~ In ","%char (list_ascii_of_string item).
Proof.
  intros Hin. apply in_map_iff in Hin as (part & <- & Hpart).
  apply filter_In in Hpart as [Hpart Ht]. apply truthy_true in Ht.
  split; [exact Ht |]. split; [apply strip_idempotent |].
  intros Hc. apply strip_chars_subset in Hc.
  exact (split_no_sep _ _ _ Hpart Hc).
Qed.

Section Input.
Variable getenv : string -> option string.
Variable prompt : string -> string.
Variable strptime : string -> option PyDate.date.

(** X25. Every item of a list read by [_input_list] is a part of the
    answer between two commas with the white space around it removed: it is
    not empty, has no white space at its ends and no comma in it.  An empty
    answer gives the empty list. *)
Theorem input_list_items (env_key label : string) :
  Forall (fun item =>
            item <> "" /\ strip item = item /\
            ~ In ","%char (list_ascii_of_string item))
         (input_list getenv prompt env_key label) /\
  (input getenv prompt env_key label = "" ->
   input_list getenv prompt env_key label = []).
Proof.
  unfold input_list. split.
  - apply List.Forall_forall. intros item. apply stripped_parts.
  - intros ->. reflexivity.
Qed.

Lemma process_input_dates_inv (start_date end_date : string)
    (bounds : option PyDate.date * option PyDate.date) :
  truthy start_date = true -> truthy end_date = true ->
  process_input_dates strptime start_date end_date = OK bounds ->
  exists s e,
    bounds = (Some s, Some e) /\ strptime start_date = Some s /\
    strptime end_date = Some e /\ Extractor.date_ltb e s = false.
Proof.
  intros Hs He. unfold process_input_dates, validate_input_date.
  rewrite Hs, He. simpl.
  destruct (strptime start_date) as [s |]; simpl; [| discriminate].
  destruct (strptime end_date) as [e |]; simpl; [| discriminate].
  destruct (Extractor.date_ltb e s) eqn:E; [discriminate |].
  intros [= <-]. eauto 7.
Qed.

(** X26. The two bounds that [collect_inputs] sets come together or not at
    all.  When one of the two answers is empty, no bound is set and nothing
    is parsed, so that a lone start date is dropped without an error;
    otherwise both answers are parsed, the start is not after the end, and
    the only exception is [ValueError]. *)
Theorem collect_dates_bounds :
  let start_date :=
    input getenv prompt "START_DATE"
      "Start Date (YYYY-MM-DD). Leave empty to avoid filtering by date" in
  let end_date :=
    input getenv prompt "END_DATE"
      "End Date (YYYY-MM-DD). Leave empty to avoid filtering by date" in
  (start_date = "" \/ end_date = "" ->
   collect_dates getenv prompt strptime = OK (None, None)) /\
  (start_date <> "" -> end_date <> "" ->
   match collect_dates getenv prompt strptime with
   | OK bounds =>
       exists s e,
         bounds = (Some s, Some e) /\ strptime start_date = Some s /\
         strptime end_date = Some e /\ Extractor.date_ltb e s = false
   | Raise e => e = ValueError
   end).
Proof.
  intros start_date end_date. unfold collect_dates.
  fold start_date end_date. split.
  - intros [-> | ->]; [reflexivity |]. rewrite andb_false_r. reflexivity.
  - intros Hs He. apply truthy_true in Hs, He. rewrite Hs, He. simpl.
    destruct (process_input_dates strptime start_date end_date)
      as [bounds | e] eqn:E.
    + apply (process_input_dates_inv _ _ _ Hs He E).
    + revert E. unfold process_input_dates, validate_input_date.
      rewrite Hs, He. simpl.
      destruct (strptime start_date) as [s |]; simpl; [| congruence].
      destruct (strptime end_date) as [e' |]; simpl; [| congruence].
      destruct (Extractor.date_ltb e' s); congruence.
Qed.

End Input.

Import ConfigSamples.

Lemma collect_dates_bounds_witness :
  collect_dates no_env lone_start sample_strptime = OK (None, None) /\
  exists s e,
    collect_dates no_env both_dates sample_strptime = OK (Some s, Some e) /\
    Extractor.date_ltb e s = false.
Proof.
  split.
  - apply (collect_dates_bounds no_env lone_start sample_strptime).
    right. reflexivity.
  - pose proof (proj2 (collect_dates_bounds no_env both_dates sample_strptime))
      as Hb.
    specialize (Hb ltac:(discriminate) ltac:(discriminate)).
    destruct (collect_dates no_env both_dates sample_strptime)
      as [bounds | e] eqn:E; [| vm_compute in E; discriminate].
    destruct Hb as (s & e & -> & _ & _ & Hle). eauto.
Defined.

End ConfigFacts.

(** ** The technology detector: answers, fences and extensions *)

Module DetectorFacts.
Import PyStr PyText PyStrFacts PyTextFacts Detector GroupFacts.
Import Buckets BucketFacts.
Local Open Scope string_scope.

Local Abbreviation chars := list_ascii_of_string.

(** *** The answer between its fences *)

Lemma space_not_fence (c : ascii) :
  is_space c = true ->
  in_chars "```json" c = false /\ in_chars "```" c = false.
Proof.
  destruct c as [[] [] [] [] [] [] [] []]; vm_compute; intros E; split;
    congruence.
Qed.

Lemma fence_not_space (c : ascii) :
  in_chars "```json" c = true -> is_space c = false.
Proof.
  intros Hf. destruct (is_space c) eqn:E; [| reflexivity].
  apply space_not_fence in E as [E _]. congruence.
Qed.

Lemma object_first (drops : ascii -> bool) (middle : string) :
  drops "{"%char = false ->
  exists c t, "{" ++ middle ++ "}" = String c t /\ drops c = false.
Proof. intros Hk. exists "{"%char, (middle ++ "}"). auto. Qed.

Lemma object_last (drops : ascii -> bool) (middle : string) :
  drops "}"%char = false ->
  exists t c, "{" ++ middle ++ "}" = t ++ String c "" /\ drops c = false.
Proof.
  intros Hk. exists ("{" ++ middle), "}"%char.
  rewrite append_assoc. auto.
Qed.

Lemma clean_response_object (pre ws1 middle ws2 post : string) :
  (forall c, In c (chars pre) -> in_chars "```json" c = true) ->
  (forall c, In c (chars post) -> in_chars "```json" c = true) ->
  (forall c, In c (chars ws1) -> is_space c = true) ->
  (forall c, In c (chars ws2) -> is_space c = true) ->
  clean_response (pre ++ (ws1 ++ ("{" ++ middle ++ "}") ++ ws2) ++ post)
  = "{" ++ middle ++ "}".
Proof.
  intros Hpre Hpost Hws1 Hws2. unfold clean_response, strip_chars.
  set (object := "{" ++ middle ++ "}").
  set (Y := ws1 ++ object ++ ws2).
  assert (HA : rstrip_where (in_chars "```json")
                 (lstrip_where (in_chars "```json") (pre ++ Y ++ post)) = Y).
  { apply strip_where_core; [exact Hpre | exact Hpost | |].
    - apply wrapped_first; [| apply object_first; reflexivity].
      intros c Hc. apply space_not_fence, Hws1, Hc.
    - apply wrapped_last; [| apply object_last; reflexivity].
      intros c Hc. apply space_not_fence, Hws2, Hc. }
  rewrite HA.
  assert (HB : rstrip_where (in_chars "```")
                 (lstrip_where (in_chars "```") ("" ++ Y ++ "")) = Y).
  { apply strip_where_core; [intros c [] | intros c [] | |].
    - apply wrapped_first; [| apply object_first; reflexivity].
      intros c Hc. apply space_not_fence, Hws1, Hc.
    - apply wrapped_last; [| apply object_last; reflexivity].
      intros c Hc. apply space_not_fence, Hws2, Hc. }
  rewrite append_nil_r in HB. change ("" ++ Y) with Y in HB.
  rewrite HB. unfold strip. rewrite rstrip_is_where, lstrip_is_where.
  apply strip_where_core; [exact Hws1 | exact Hws2 | |].
  - apply object_first. reflexivity.
  - apply object_last. reflexivity.
Qed.

(** X27. An object between braces comes out of the cleaning as it is,
    whatever is inside it, when it stands alone, with white space around
    it, or between two fences: only characters of the set of
    [strip("```json")] before the first white space or brace and after the
    last one are dropped, and the white space next to the braces. *)
Theorem clean_response_uncovers_object (pre ws1 middle ws2 post : string) :
  (forall c, In c (chars pre) -> in_chars "```json" c = true) ->
  (forall c, In c (chars post) -> in_chars "```json" c = true) ->
  (forall c, In c (chars ws1) -> is_space c = true) ->
  (forall c, In c (chars ws2) -> is_space c = true) ->
  clean_response (pre ++ (ws1 ++ ("{" ++ middle ++ "}") ++ ws2) ++ post)
  = "{" ++ middle ++ "}".
Proof. apply clean_response_object. Qed.

Lemma endswith_snoc (s : string) (c : ascii) :
  endswith (s ++ String c "") (String c "") = true.
Proof.
  unfold endswith. rewrite rev_snoc. simpl.
  destruct (ascii_dec c c); [| congruence].
  destruct (String.rev s); reflexivity.
Qed.

Lemma strip_keeps_last (s : string) (c : ascii) :
  is_space c = false -> exists t, strip (s ++ String c "") = t ++ String c "".
Proof.
  intros Hc. unfold strip.
  destruct (lstrip_keeps_last s c Hc) as (t & ->).
  exists t. rewrite rstrip_is_where. apply rstrip_where_kept, Hc.
Qed.

(** What is parsed after the repair has a closing brace as its last
    character that is not white space. *)
Lemma repair_response_closed (response : string) :
  endswith (strip (repair_response response)) "}" = true.
Proof.
  unfold repair_response.
  set (r := if endswith (strip response) "," then _ else response).
  destruct (endswith (strip r) "}") eqn:E; simpl; [exact E |].
  destruct (strip_keeps_last r "}"%char eq_refl) as (t & ->).
  apply endswith_snoc.
Qed.

Section Detect.
Context {J : Type}.
Variable generate : string -> result string.
Variable json_loads : string -> option J.
Variable empty_object : J.
Variable PROMPT : string.
Variable readme_prompt : string -> string -> string.
Variable structure_prompt : string -> string.

(** X28. When the model answers, [detect] returns, and it returns the
    first of these that exists: the parse of the cleaned answer; else the
    parse of the repaired answer, which is the answer without the commas
    at its end, when it ends with one, and with a closing brace added
    unless it ends with one; else the empty object.  What is parsed after
    the repair has a closing brace as its last character that is not white
    space, and an object between braces, alone or between fences, is
    parsed as it is. *)
Theorem detect_returns (files project_context : list string)
    (response : string) :
  generate (detect_prompt PROMPT files project_context) = OK response ->
  let without_commas :=
    if endswith (strip response) ","
    then rstrip_chars "," (strip response)
    else response in
  let repaired :=
    if endswith (strip without_commas) "}" then without_commas
    else without_commas ++ "}" in
  detect generate json_loads empty_object PROMPT files project_context
  = OK (match json_loads (strip (clean_response response)) with
        | Some technologies => technologies
        | None => default empty_object (json_loads repaired)
        end) /\
  endswith (strip repaired) "}" = true /\
  (forall pre ws1 middle ws2 post technologies,
     response = pre ++ (ws1 ++ ("{" ++ middle ++ "}") ++ ws2) ++ post ->
     (forall c, In c (chars pre) -> in_chars "```json" c = true) ->
     (forall c, In c (chars post) -> in_chars "```json" c = true) ->
     (forall c, In c (chars ws1) -> is_space c = true) ->
     (forall c, In c (chars ws2) -> is_space c = true) ->
     json_loads ("{" ++ middle ++ "}") = Some technologies ->
     detect generate json_loads empty_object PROMPT files project_context
     = OK technologies).
Proof.
  intros Hg without_commas repaired.
  assert (Hrep : repair_response response = repaired).
  { unfold repair_response. fold without_commas. unfold repaired.
    destruct (endswith (strip without_commas) "}"); reflexivity. }
  unfold detect. rewrite Hg. cbn [rbind]. rewrite Hrep.
  split; [| split].
  - destruct (json_loads (strip (clean_response response))) as [t |];
      [reflexivity |].
    destruct (json_loads repaired) as [t |]; reflexivity.
  - rewrite <- Hrep. apply repair_response_closed.
  - intros pre ws1 middle ws2 post t E Hpre Hpost Hws1 Hws2 Hj.
    assert (Hc : clean_response response = "{" ++ middle ++ "}")
      by (rewrite E; apply clean_response_object; assumption).
    rewrite Hc.
    assert (Hs : strip ("{" ++ middle ++ "}") = "{" ++ middle ++ "}").
    { rewrite <- (clean_response_object "" "" middle "" "")
        by (intros c []).
      unfold clean_response. apply strip_idempotent. }
    rewrite Hs, Hj. reflexivity.
Qed.

(** X29. The list that [get_project_context] makes of the answer of the
    model is never empty, and its items have no white space at their ends
    and no comma.  So the
    prompt of [detect] always names the technologies of the project, were
    it one empty name, and never says that they are not defined. *)
Theorem get_project_context_never_empty
    (readme_files : list (string * string)) (project_structure : string)
    (project_context : list string) :
  get_project_context generate readme_prompt structure_prompt readme_files
    project_structure = OK project_context ->
  project_context <> [] /\
  Forall (fun tech => strip tech = tech /\ ~ In ","%char (chars tech))
         project_context /\
  main_technologies project_context
  = "The project is primarily based on the following technologies: "
    ++ join ", " project_context ++ ".".
Proof.
  unfold get_project_context. intros Hr.
  apply rbind_ok in Hr as (response & _ & Hr). injection Hr as <-.
  assert (Hne : map strip (split "," response) <> []).
  { pose proof (split_not_nil ","%char response).
    destruct (split "," response); [congruence | discriminate]. }
  split; [exact Hne |]. split.
  - apply List.Forall_forall. intros tech Hin.
    apply in_map_iff in Hin as (part & <- & Hpart).
    split; [apply strip_idempotent |].
    intros Hc. apply strip_chars_subset in Hc.
    exact (split_no_sep _ _ _ Hpart Hc).
  - unfold main_technologies.
    destruct (map strip (split "," response)); [congruence | reflexivity].
Qed.

End Detect.

Import DetectorSamples.

Lemma clean_response_uncovers_object_witness :
  clean_response fenced_answer = sample_object.
Proof.
  apply (clean_response_uncovers_object "```json" line_feed sample_middle
           line_feed "```");
    intros c Hc; simpl in Hc;
    repeat (destruct Hc as [<- | Hc]; [reflexivity |]); destruct Hc.
Defined.

(** An answer that breaks off after a comma: it does not parse, the repair
    drops the comma and closes the object, and the repaired answer parses.
    The object between fences parses as it is. *)
Lemma detect_returns_witness :
  detect truncated_generate sample_json_loads [] "[unique_extensions]"
    ["src/resolver.py"] ["Python"]
  = OK [("Python", 100%Z)] /\
  sample_json_loads (strip (clean_response truncated_answer)) = None /\
  detect fenced_generate sample_json_loads [] "[unique_extensions]"
    ["src/resolver.py"] ["Python"]
  = OK [("Python", 100%Z)].
Proof.
  destruct (detect_returns truncated_generate sample_json_loads []
              "[unique_extensions]" ["src/resolver.py"] ["Python"]
              truncated_answer eq_refl) as (Hrepair & _ & _).
  destruct (detect_returns fenced_generate sample_json_loads []
              "[unique_extensions]" ["src/resolver.py"] ["Python"]
              fenced_answer eq_refl) as (_ & _ & Hobject).
  split; [exact Hrepair |]. split; [reflexivity |].
  apply (Hobject "```json" line_feed sample_middle line_feed "```");
    try reflexivity;
    intros c Hc; simpl in Hc;
    repeat (destruct Hc as [<- | Hc]; [reflexivity |]); destruct Hc.
Defined.

Lemma get_project_context_never_empty_witness :
  main_technologies [""]
  = "The project is primarily based on the following technologies: .".
Proof.
  apply (get_project_context_never_empty empty_generate
           (fun readme structure => structure) (fun structure => structure)
           [] "[DIR] src" [""]).
  reflexivity.
Defined.

End DetectorFacts.

(** ** File extensions and their counts *)

Module ExtensionFacts.
Import PyStr PyText PyStrFacts PyTextFacts Detector GroupFacts.
Import Buckets BucketFacts.
Local Open Scope string_scope.

Local Abbreviation chars := list_ascii_of_string.

(** *** The last occurrence of a character *)

Lemma rfind_from_app (c : ascii) (a b : string) (i found : Z) :
  rfind_from c (a ++ b) i found
  = rfind_from c b (i + Z.of_nat (String.length a)) (rfind_from c a i found).
Proof.
  revert i found. induction a as [| x a IH]; intros i found.
  - simpl. rewrite Z.add_0_r. reflexivity.
  - rewrite append_cons. simpl rfind_from. rewrite IH. f_equal.
    simpl String.length. lia.
Qed.

Lemma rfind_from_notin (c : ascii) (s : string) (i found : Z) :
  ~ In c (chars s) -> rfind_from c s i found = found.
Proof.
  revert i found. induction s as [| x s IH]; intros i found Hn; simpl;
    [reflexivity |].
  simpl in Hn. destruct (Ascii.eqb x c) eqn:E.
  - apply Ascii.eqb_eq in E. tauto.
  - apply IH. tauto.
Qed.

Lemma last_occurrence (c : ascii) (s : string) :
  In c (chars s) -> exists a b, s = a ++ String c b /\ ~ In c (chars b).
Proof.
  induction s as [| x s IH]; simpl; [tauto |]. intros Hin.
  destruct (in_dec ascii_dec c (chars s)) as [Hs | Hs].
  - destruct (IH Hs) as (a & b & -> & Hb). exists (String x a), b. auto.
  - destruct Hin as [-> | Hin]; [| contradiction]. exists "", s. auto.
Qed.

Lemma rfind_last (c : ascii) (a b : string) :
  ~ In c (chars b) -> rfind c (a ++ String c b) = Z.of_nat (String.length a).
Proof.
  intros Hb. unfold rfind. rewrite rfind_from_app. simpl rfind_from.
  rewrite Ascii.eqb_refl. apply rfind_from_notin, Hb.
Qed.

Lemma rfind_notin (c : ascii) (s : string) :
  ~ In c (chars s) -> rfind c s = (-1)%Z.
Proof. apply rfind_from_notin. Qed.

Lemma rfind_lower (c : ascii) (s : string) : (-1 <= rfind c s)%Z.
Proof.
  destruct (in_dec ascii_dec c (chars s)) as [Hs | Hs].
  - destruct (last_occurrence c s Hs) as (a & b & -> & Hb).
    rewrite rfind_last by exact Hb. lia.
  - rewrite rfind_notin by exact Hs. lia.
Qed.

Lemma length_append (a b : string) :
  String.length (a ++ b) = (String.length a + String.length b)%nat.
Proof.
  induction a as [| x a IH]; [reflexivity |].
  rewrite append_cons. simpl. rewrite IH. reflexivity.
Qed.

Lemma drop_length_append (a b : string) : drop (String.length a) (a ++ b) = b.
Proof.
  induction a as [| x a IH]; [destruct b; reflexivity |].
  rewrite append_cons. exact IH.
Qed.

(** *** The extension of a path *)

Lemma skip_leading_dots_result (p : string) (dotIndex : Z) (todo : nat)
    (filenameIndex : Z) :
  skip_leading_dots p dotIndex todo filenameIndex = (p, "") \/
  skip_leading_dots p dotIndex todo filenameIndex
  = (take (Z.to_nat dotIndex) p, drop (Z.to_nat dotIndex) p).
Proof.
  revert filenameIndex. induction todo as [| todo IH]; intros i; simpl;
    [auto |].
  destruct (negb _); [auto | apply IH].
Qed.

(** An extension starts with the last dot of the path, which is after the
    last slash. *)
Lemma splitext_extension (p : string) :
  (splitext p).2 = "" \/
  exists rest,
    (splitext p).2 = String "." rest /\
    ~ In "."%char (chars rest) /\ ~ In "/"%char (chars rest).
Proof.
  unfold splitext.
  destruct (rfind "/" p <? rfind "." p)%Z eqn:E; [| left; reflexivity].
  apply Z.ltb_lt in E.
  destruct (skip_leading_dots_result p (rfind "." p)
              (Z.to_nat (rfind "." p - (rfind "/" p + 1))) (rfind "/" p + 1))
    as [-> | ->]; [left; reflexivity |].
  right. simpl.
  destruct (in_dec ascii_dec "."%char (chars p)) as [Hdot | Hdot].
  - destruct (last_occurrence _ _ Hdot) as (a & b & -> & Hb).
    rewrite rfind_last in E |- * by exact Hb.
    rewrite Nat2Z.id, drop_length_append. exists b.
    split; [reflexivity |]. split; [exact Hb |].
    intros Hslash. destruct (last_occurrence _ _ Hslash) as (b1 & b2 & -> & Hb2).
    replace (a ++ String "." (b1 ++ String "/" b2))
      with ((a ++ String "." b1) ++ String "/" b2) in E
      by (rewrite append_assoc; reflexivity).
    rewrite rfind_last in E by exact Hb2.
    rewrite length_append in E. simpl String.length in E. lia.
  - rewrite (rfind_notin _ _ Hdot) in E. pose proof (rfind_lower "/" p). lia.
Qed.

(** *** The counts *)

Lemma dict_values_set_sum (k : string) (v : Z) (d : list (string * Z)) :
  sum_counts (dict_values (dict_set k v d))
  = (sum_counts (dict_values d) - default 0 (dict_get k d) + v)%Z.
Proof.
  unfold dict_values. induction d as [| [k' v'] d IH]; simpl.
  - rewrite sum_counts_cons. unfold sum_counts. simpl. lia.
  - destruct (decide (k = k')) as [-> | Hne]; simpl.
    + rewrite !sum_counts_cons. lia.
    + rewrite !sum_counts_cons, IH. lia.
Qed.

Lemma count_extension_keys (d : list (string * Z)) (file : string) :
  dict_keys (count_extension d file)
  = if truthy (splitext file).2
    then if decide ((splitext file).2 ∈ dict_keys d) then dict_keys d
         else (dict_keys d ++ [(splitext file).2])%list
    else dict_keys d.
Proof.
  unfold count_extension. destruct (truthy (splitext file).2); [| reflexivity].
  rewrite dict_keys_set.
  destruct (dict_get (splitext file).2 d) as [n |] eqn:E.
  - rewrite decide_True; [reflexivity |].
    apply list_elem_of_In. apply dict_get_In in E.
    change (splitext file).2 with (fst ((splitext file).2, n)).
    apply in_map, E.
  - rewrite decide_False; [reflexivity |].
    rewrite list_elem_of_In. apply dict_get_None_keys, E.
Qed.

Lemma count_extension_get (d : list (string * Z)) (file ext : string) :
  dict_get ext (count_extension d file)
  = if truthy (splitext file).2 && bool_decide ((splitext file).2 = ext)
    then Some (default 0 (dict_get ext d) + 1)%Z
    else dict_get ext d.
Proof.
  unfold count_extension. destruct (truthy (splitext file).2); [| reflexivity].
  simpl. destruct (decide ((splitext file).2 = ext)) as [<- | Hne].
  - rewrite bool_decide_eq_true_2 by reflexivity. apply dict_get_set_eq.
  - rewrite bool_decide_eq_false_2 by exact Hne.
    apply dict_get_set_ne. congruence.
Qed.

Lemma count_extension_sum (d : list (string * Z)) (file : string) :
  sum_counts (dict_values (count_extension d file))
  = (sum_counts (dict_values d)
     + if truthy (splitext file).2 then 1 else 0)%Z.
Proof.
  unfold count_extension. destruct (truthy (splitext file).2); [| lia].
  rewrite dict_values_set_sum. lia.
Qed.

(** X30. [_get_unique_file_extensions] lists the extensions of the files
    in the order in which they first occur and counts, for each, the files
    that have it; a file without an extension, such as [Makefile] or
    [.gitignore], is not counted, so that the counts add up to the number of
    files with an extension.  Every key starts with a dot and has no other
    dot and no slash. *)
Theorem get_unique_file_extensions_counts (files : list string) :
  let extensions :=
    List.filter truthy (map (fun file => (splitext file).2) files) in
  let counts := get_unique_file_extensions files in
  dict_keys counts = first_seen extensions /\
  (forall ext,
     dict_get ext counts
     = match List.filter (fun e => bool_decide (e = ext)) extensions with
       | [] => None
       | occurrences => Some (Z.of_nat (length occurrences))
       end) /\
  sum_counts (dict_values counts) = Z.of_nat (length extensions) /\
  Forall (fun ext =>
            exists rest,
              ext = String "." rest /\
              ~ In "."%char (chars rest) /\ ~ In "/"%char (chars rest))
         (dict_keys counts).
Proof.
  intros extensions counts.
  assert (Hkeys : dict_keys counts = first_seen extensions).
  { subst extensions counts. unfold get_unique_file_extensions.
    induction files as [| file files IH] using rev_ind; [reflexivity |].
    rewrite fold_left_app, map_app, List.filter_app. cbn [fold_left map].
    rewrite count_extension_keys, IH. cbn [List.filter].
    destruct (truthy (splitext file).2); [| rewrite app_nil_r; reflexivity].
    rewrite first_seen_snoc.
    set (exts := List.filter truthy (map _ files)).
    destruct (decide ((splitext file).2 ∈ first_seen exts)) as [Hin | Hnin];
      destruct (decide ((splitext file).2 ∈ exts)) as [Hin' | Hnin'];
      try reflexivity; exfalso;
      rewrite list_elem_of_In in *; rewrite first_seen_In in *; contradiction. }
  split; [exact Hkeys |]. split; [| split].
  - intros ext. subst extensions counts. unfold get_unique_file_extensions.
    clear Hkeys.
    assert (Hgen : forall d,
               dict_get ext (fold_left count_extension files d)
               = match List.filter (fun e => bool_decide (e = ext))
                         (List.filter truthy
                            (map (fun file => (splitext file).2) files)) with
                 | [] => dict_get ext d
                 | occurrences =>
                     Some (default 0 (dict_get ext d)
                           + Z.of_nat (length occurrences))%Z
                 end).
    { induction files as [| file files IH]; intros d; [reflexivity |].
      cbn [fold_left map List.filter]. rewrite IH, count_extension_get.
      destruct (truthy (splitext file).2); simpl andb; [| reflexivity].
      cbn [List.filter].
      destruct (bool_decide ((splitext file).2 = ext)); [| reflexivity].
      set (occurrences :=
             List.filter (fun e => bool_decide (e = ext))
               (List.filter truthy (map _ files))).
      destruct occurrences as [| e l]; cbn -[Z.add Z.of_nat]; f_equal; lia. }
    rewrite Hgen.
    set (occurrences :=
           List.filter (fun e => bool_decide (e = ext))
             (List.filter truthy (map _ files))).
    destruct occurrences; [reflexivity |]. simpl. f_equal.
  - subst extensions counts. unfold get_unique_file_extensions.
    clear Hkeys.
    assert (Hgen : forall d,
               sum_counts (dict_values (fold_left count_extension files d))
               = (sum_counts (dict_values d)
                  + Z.of_nat (length
                      (List.filter truthy
                         (map (fun file => (splitext file).2) files))))%Z).
    { induction files as [| file files IH]; intros d; simpl; [lia |].
      rewrite IH, count_extension_sum.
      destruct (truthy (splitext file).2); simpl length; lia. }
    rewrite Hgen. reflexivity.
  - rewrite Hkeys. apply List.Forall_forall. intros ext Hin.
    subst extensions. repeat rewrite first_seen_In in Hin.
    apply filter_In in Hin as [Hin Ht]. apply in_map_iff in Hin as (file & <- & _).
    destruct (splitext_extension file) as [E | Hshape]; [| exact Hshape].
    rewrite E in Ht. discriminate.
Qed.

End ExtensionFacts.
